(** * DiscordVault: the chunked encrypted object pipeline

    A shallow embedding of [internal/server/server.go],
    [internal/bot/bot.go] and [internal/database/database.go], and the
    properties of Put, Get and Delete that the design document states.

    Byte buffers are [list byte]; Go's [int] and [int64] are [Z]; SQL tables
    are lists of rows in rowid order; the Discord channel and its CDN are
    finite maps.  Handlers are written in a small state monad with an early
    [Return], so that each one reads like its Go source. *)

From stdpp Require Import gmap strings list fin_maps relations sorting.
From Equations Require Import Equations.
From Stdlib Require Import Strings.Byte ZArith Lia.

Local Open Scope Z_scope.

(** ** Go's [(value, error)] results *)

Inductive error :=
| ErrIO                 (* the environment failed the call *)
| ErrNoRows             (* sql.ErrNoRows *)
| ErrConstraint         (* UNIQUE or FOREIGN KEY violation *)
| ErrUnknownMessage     (* Discord: no such message *)
| ErrRandom             (* crypto/rand could not fill the nonce *)
| ErrAuthentication.    (* cipher: message authentication failed *)

#[global] Instance error_eq_dec : EqDecision error.
Proof. solve_decision. Defined.

Inductive result (A : Type) :=
| Ok (a : A)
| Err (e : error).
Arguments Ok {A} a.
Arguments Err {A} e.

Definition is_Ok {A} (r : result A) : bool :=
  match r with Ok _ => true | Err _ => false end.

(** The environment decides whether a call to the store or to the remote
    service fails for a reason of its own (I/O error, outage).  It is a tape
    of booleans read one per call; an exhausted tape means no more failures. *)
Definition pop_fault (tape : list bool) : bool * list bool :=
  match tape with
  | [] => (false, [])
  | b :: tape' => (b, tape')
  end.

Definition quiet (tape : list bool) : Prop := Forall (λ b, b = false) tape.

(** ** Bytes *)

#[global] Instance byte_eq_dec : EqDecision byte := Byte.byte_eq_dec.

Definition xor_bits (x y : bool * (bool * (bool * (bool * (bool * (bool * (bool * bool)))))))
  : bool * (bool * (bool * (bool * (bool * (bool * (bool * bool)))))) :=
  let '(x0, (x1, (x2, (x3, (x4, (x5, (x6, x7))))))) := x in
  let '(y0, (y1, (y2, (y3, (y4, (y5, (y6, y7))))))) := y in
  (xorb x0 y0, (xorb x1 y1, (xorb x2 y2, (xorb x3 y3,
   (xorb x4 y4, (xorb x5 y5, (xorb x6 y6, xorb x7 y7))))))).

Definition bxor (a b : byte) : byte :=
  Byte.of_bits (xor_bits (Byte.to_bits a) (Byte.to_bits b)).

(** ** SHA-256, kept symbolic

    [crypto/sha256] is only ever used to name things (the [hash] column and
    the label of a remote blob); a digest is the term that records what was
    hashed. *)
Inductive Digest := Sum256 (data : list byte).

(** ** [internal/crypto] *)

Module crypto.

(** Modelled from the spec: [crypto.Encrypt] and [crypto.Decrypt]
    ([internal/crypto] is not among the sources).  Section 4.2 of the
    design document asks for an authenticated cipher under a fixed key:
    [Encrypt] binds a freshly drawn nonce to the ciphertext, so that any
    corruption is detected; [Decrypt] fails with an authentication error,
    returning no data, when the ciphertext was corrupted, truncated or
    encrypted under a different key.  The key is not checked at each call.

    The model is an ideal one, as for SHA-256 above: the tag is a function
    of key, nonce and payload that never collides (it is longer than what
    it covers).  A ciphertext is the nonce, then the masked payload in a
    self-delimiting frame, so that a buffer cut short is never a whole
    ciphertext, then the tag: the running digest of the key, the nonce and
    the payload, every intermediate state kept.  [Decrypt] parses the
    buffer, recomputes the tag and compares.  What follows from this is
    proved in section [cipher]; secrecy is not modelled. *)
Definition NonceSize : nat := 12.

(** Modelled from the spec: the stream, drawn from key and nonce, that
    masks the payload. *)
Definition mask (key nonce : list byte) (i : nat) : byte :=
  bxor (nth (i mod 32) key x00) (nth (i mod NonceSize) nonce x00).

Fixpoint xor_stream (key nonce : list byte) (i : nat) (data : list byte)
  : list byte :=
  match data with
  | [] => []
  | b :: data' => bxor b (mask key nonce i) :: xor_stream key nonce (S i) data'
  end.

(** Modelled from the spec: the frame of the payload.  Every byte of a
    framed buffer follows a continuation mark; an end mark closes the
    frame. *)
Fixpoint frame (data : list byte) : list byte :=
  match data with
  | [] => [x00]
  | b :: data' => x01 :: b :: frame data'
  end.

(** The framed buffer at the head of [l], and what follows it. *)
Fixpoint unframe (l : list byte) : option (list byte * list byte) :=
  match l with
  | [] => None
  | m :: l' =>
      if decide (m = x00) then Some ([], l')
      else if decide (m = x01) then
        match l' with
        | [] => None
        | b :: l'' =>
            match unframe l'' with
            | Some (data, rest) => Some (b :: data, rest)
            | None => None
            end
        end
      else None
  end.

(** Modelled from the spec: the tag.  The digest has a state of sixteen
    bytes; each byte of the input goes into every byte of the state,
    through a permutation of the bytes (given with its inverse). *)
Definition sbox (b : byte) : byte :=
  default x00 (Byte.of_N ((Byte.to_N b * 167 + 89) mod 256)%N).

Definition sbox_inv (b : byte) : byte :=
  default x00 (Byte.of_N (((Byte.to_N b + 167) * 23) mod 256)%N).

Definition iv : list byte :=
  [x00; x01; x02; x03; x04; x05; x06; x07;
   x08; x09; x0a; x0b; x0c; x0d; x0e; x0f].

Definition absorb (s : list byte) (b : byte) : list byte :=
  (λ x, sbox (bxor x b)) <$> s.

(** The states the digest goes through on [data], from the state [s]. *)
Fixpoint digest (s : list byte) (data : list byte) : list byte :=
  match data with
  | [] => []
  | b :: data' => let s' := absorb s b in s' ++ digest s' data'
  end.

(** The key goes in first, framed, so that keys of different lengths
    give different tags. *)
Definition tag (key nonce body : list byte) : list byte :=
  digest iv (frame key ++ nonce ++ body).

(** Modelled from the spec: the ciphertext of a plaintext under a key and
    a nonce. *)
Definition Seal (key nonce plaintext : list byte) : list byte :=
  let body := xor_stream key nonce 0 plaintext in
  nonce ++ frame body ++ tag key nonce body.

(** Modelled from the spec: [crypto.Encrypt], with the random source
    ([crypto/rand]) passed as the bytes it will deliver. *)
Definition Encrypt (plaintext key : list byte) (rand : list byte)
  : list byte * result (list byte) :=
  if decide (NonceSize ≤ length rand)%nat
  then (drop NonceSize rand, Ok (Seal key (take NonceSize rand) plaintext))
  else (rand, Err ErrRandom).

(** Modelled from the spec: [crypto.Decrypt]. *)
Definition Decrypt (ciphertext key : list byte) : result (list byte) :=
  if decide (length ciphertext < NonceSize)%nat
  then Err ErrAuthentication
  else
    let nonce := take NonceSize ciphertext in
    match unframe (drop NonceSize ciphertext) with
    | None => Err ErrAuthentication
    | Some (body, t) =>
        if decide (t = tag key nonce body)
        then Ok (xor_stream key nonce 0 body)
        else Err ErrAuthentication
    end.

End crypto.

(** ** [internal/database] *)

Module database.

Module FileMetadata.
(** [created_at] only orders [ListFiles], which no property below uses;
    the column is left out. *)
Record t := mk { ID : Z; Name : string; Size : Z; Hash : Digest }.
End FileMetadata.

Module ChunkMetadata.
Record t := mk { ID : Z; FileID : Z; MessageID : string; PartNum : Z }.
End ChunkMetadata.

(** The state behind [Database.Conn]: the two tables of [createTables],
    rows in rowid order, the AUTOINCREMENT counters (sqlite_sequence), the
    [foreign_keys] pragma of the connection, and the environment's tape of
    statement failures.  [sql.DB] is a pool of connections; the calls
    being made one at a time, it is taken to hold one connection, the
    one that [Initialize] configures. *)
Record Database := mkDatabase {
  foreign_keys : bool;
  files : list FileMetadata.t;
  files_seq : Z;
  chunks : list ChunkMetadata.t;
  chunks_seq : Z;
  io_errors : list bool
}.

Definition set_io_errors (tape : list bool) (db : Database) : Database :=
  mkDatabase (foreign_keys db) (files db) (files_seq db)
             (chunks db) (chunks_seq db) tape.

(** Every statement first asks the environment whether it fails. *)
Definition statement {A} (db : Database)
    (run : Database → Database * result A) : Database * result A :=
  let '(failed, tape) := pop_fault (io_errors db) in
  if failed then (set_io_errors tape db, Err ErrIO)
  else run (set_io_errors tape db).

(** A file on disk that no connection has touched yet. *)
Definition empty (tape : list bool) : Database :=
  mkDatabase false [] 0 [] 0 tape.

(** [Initialize]: open the file, [PRAGMA foreign_keys = ON], and
    [CREATE TABLE IF NOT EXISTS], which keeps the rows already there. *)
Definition Initialize (disk : Database) : Database :=
  mkDatabase true (files disk) (files_seq disk)
             (chunks disk) (chunks_seq disk) (io_errors disk).

(** AUTOINCREMENT: one more than the largest rowid ever used. *)
Definition next_rowid (seq : Z) (rowids : list Z) : Z :=
  1 + foldr Z.max seq rowids.

(** [INSERT INTO files (name, size, hash) VALUES (?, ?, ?) RETURNING id];
    [name] is UNIQUE.  Go's [SaveFile] returns [(0, err)] on failure. *)
Definition SaveFile (name : string) (size : Z) (hash : Digest)
    (db : Database) : Database * (Z * option error) :=
  let '(db', r) :=
    statement db (λ db,
      if decide (name ∈ FileMetadata.Name <$> files db)
      then (db, Err ErrConstraint)
      else
        let id := next_rowid (files_seq db) (FileMetadata.ID <$> files db) in
        (mkDatabase (foreign_keys db)
                    (files db ++ [FileMetadata.mk id name size hash]) id
                    (chunks db) (chunks_seq db) (io_errors db),
         Ok id)) in
  match r with
  | Ok id => (db', (id, None))
  | Err e => (db', (0, Some e))
  end.

(** [INSERT INTO chunks (file_id, message_id, part_num) VALUES (?, ?, ?)];
    with foreign keys on, [file_id] must name a row of [files]. *)
Definition SaveChunk (fileID : Z) (messageID : string) (partNum : Z)
    (db : Database) : Database * option error :=
  let '(db', r) :=
    statement db (λ db,
      if foreign_keys db && bool_decide (fileID ∉ FileMetadata.ID <$> files db)
      then (db, Err ErrConstraint)
      else
        let id := next_rowid (chunks_seq db) (ChunkMetadata.ID <$> chunks db) in
        (mkDatabase (foreign_keys db) (files db) (files_seq db)
                    (chunks db ++ [ChunkMetadata.mk id fileID messageID partNum]) id
                    (io_errors db),
         Ok tt)) in
  match r with
  | Ok _ => (db', None)
  | Err e => (db', Some e)
  end.

(** [SELECT ... FROM files WHERE id = ?], scanned from [QueryRow]. *)
Definition GetFile (id : Z) (db : Database)
  : Database * result FileMetadata.t :=
  statement db (λ db,
    match filter (λ f, FileMetadata.ID f = id) (files db) with
    | f :: _ => (db, Ok f)
    | [] => (db, Err ErrNoRows)
    end).

(** [DELETE FROM files WHERE id = ?]; the chunk rows follow through
    ON DELETE CASCADE when the connection has foreign keys on. *)
Definition DeleteFile (id : Z) (db : Database) : Database * option error :=
  let '(db', r) :=
    statement db (λ db,
      (mkDatabase (foreign_keys db)
                  (filter (λ f, FileMetadata.ID f ≠ id) (files db))
                  (files_seq db)
                  (if foreign_keys db
                   then filter (λ c, ChunkMetadata.FileID c ≠ id) (chunks db)
                   else chunks db)
                  (chunks_seq db) (io_errors db),
       Ok tt)) in
  match r with
  | Ok _ => (db', None)
  | Err e => (db', Some e)
  end.

(** ORDER BY part_num ASC, as a stable insertion sort of the matching
    rows (rows with equal [part_num] stay in rowid order). *)
Fixpoint insert_by_part_num (c : ChunkMetadata.t) (l : list ChunkMetadata.t)
  : list ChunkMetadata.t :=
  match l with
  | [] => [c]
  | d :: l' =>
      if decide (ChunkMetadata.PartNum c ≤ ChunkMetadata.PartNum d)
      then c :: l
      else d :: insert_by_part_num c l'
  end.

Definition order_by_part_num (l : list ChunkMetadata.t)
  : list ChunkMetadata.t :=
  foldr insert_by_part_num [] l.

(** [SELECT ... FROM chunks WHERE file_id = ? ORDER BY part_num ASC]. *)
Definition GetChunks (fileID : Z) (db : Database)
  : Database * result (list ChunkMetadata.t) :=
  statement db (λ db,
    (db, Ok (order_by_part_num
               (filter (λ c, ChunkMetadata.FileID c = fileID) (chunks db))))).

End database.

(** ** The remote service: [discordgo.Session] and the attachment CDN *)

Module discordgo.

(** An attachment of a stored message.  [Label] is the file name the blob
    was sent under. *)
Module MessageAttachment.
Record t := mk { URL : string; Label : option Digest }.
End MessageAttachment.

Module Message.
Record t := mk { ID : string; Attachments : list MessageAttachment.t }.
End Message.

(** The storage channel ([Config.ChannelID]) as the session sees it: the
    messages it holds, the ids of deleted messages (a snowflake is never
    issued twice), what the CDN serves under each URL, and the
    environment's tape of failing API calls. *)
Record Session := mkSession {
  messages : gmap string Message.t;
  retired : gset string;
  cdn : gmap string (list byte);
  outages : list bool
}.

Definition set_outages (tape : list bool) (d : Session) : Session :=
  mkSession (messages d) (retired d) (cdn d) tape.

Definition call {A} (d : Session)
    (run : Session → Session * result A) : Session * result A :=
  let '(failed, tape) := pop_fault (outages d) in
  if failed then (set_outages tape d, Err ErrIO)
  else run (set_outages tape d).

Definition snowflake (d : Session) : string :=
  fresh (dom (messages d) ∪ retired d).

Definition attachment_url (id : string) : string :=
  "https://cdn.discordapp.com/attachments/" +:+ id.

(** [ChannelFileSend(channelID, name, r)]: a new message with one
    attachment, whose content the CDN serves from then on. *)
Definition ChannelFileSend (name : Digest) (blob : list byte) (d : Session)
  : Session * result Message.t :=
  call d (λ d,
    let id := snowflake d in
    let url := attachment_url id in
    let msg := Message.mk id [MessageAttachment.mk url (Some name)] in
    (mkSession (<[id := msg]> (messages d)) (retired d)
               (<[url := blob]> (cdn d)) (outages d),
     Ok msg)).

(** [ChannelMessageSend(channelID, content)]: a message without
    attachments. *)
Definition ChannelMessageSend (d : Session) : Session * result Message.t :=
  call d (λ d,
    let id := snowflake d in
    let msg := Message.mk id [] in
    (mkSession (<[id := msg]> (messages d)) (retired d) (cdn d) (outages d),
     Ok msg)).

(** [ChannelMessage(channelID, messageID)]. *)
Definition ChannelMessage (messageID : string) (d : Session)
  : Session * result Message.t :=
  call d (λ d,
    match messages d !! messageID with
    | Some msg => (d, Ok msg)
    | None => (d, Err ErrUnknownMessage)
    end).

(** [ChannelMessageDelete(channelID, messageID)]: the message goes, and
    its attachments with it. *)
Definition ChannelMessageDelete (messageID : string) (d : Session)
  : Session * option error :=
  let '(d', r) :=
    call d (λ d,
      match messages d !! messageID with
      | Some msg =>
          (mkSession (delete messageID (messages d))
                     ({[messageID]} ∪ retired d)
                     (foldr (λ a, delete (MessageAttachment.URL a)) (cdn d)
                            (Message.Attachments msg))
                     (outages d),
           Ok tt)
      | None => (d, Err ErrUnknownMessage)
      end) in
  match r with
  | Ok _ => (d', None)
  | Err e => (d', Some e)
  end.

(** [http.Get(url)] followed by [io.ReadAll(resp.Body)].  A transport
    failure is an error; a URL the CDN does not serve is not (the response
    is a 404 whose status the callers never look at), and its body is then
    not a ciphertext: it is taken empty. *)
Definition http_Get (url : string) (d : Session)
  : Session * result (list byte) :=
  call d (λ d, (d, Ok (default [] (cdn d !! url)))).

End discordgo.

(** ** [internal/config] *)

Module config.
Record Config := mkConfig {
  ChannelID : string;
  AllowedUsers : list string;
  EncryptionKey : list byte
}.
End config.

(** ** What a handler can touch *)

Definition StatusOK : Z := 200.
Definition StatusBadRequest : Z := 400.
Definition StatusNotFound : Z := 404.
Definition StatusInternalServerError : Z := 500.

(** [http.ResponseWriter]: the status line once written, the headers set
    and the body bytes written so far. *)
Record ResponseWriter := mkResponseWriter {
  status : option Z;
  header : list (string * string);
  body : list byte
}.

Definition fresh_writer : ResponseWriter := mkResponseWriter None [] [].

(** What the client receives as status: net/http sends 200 when the handler
    returns without having written one. *)
Definition StatusCode (w : ResponseWriter) : Z := default StatusOK (status w).

(** The lines of [log.Printf], one constructor per format string. *)
Inductive LogEntry :=
| LogInitiatingWipe (id : Z) (nchunks : nat)
| LogMetadataPurgeFailed (e : error)
| LogFileErased (id : Z)
| LogReceiving (filename : string)
| LogEncryptionFailed (e : error)
| LogDiscordRejection (partNum : Z) (e : error)
| LogChunkSecured (partNum : Z) (nbytes : nat)
| LogTransmissionComplete (filename : string) (fileID : Z)
| LogReconstructing (name : string)
| LogFragmentMissing (partNum : Z)
| LogFragmentFetchFailed (e : error)
| LogDecryptionFault (partNum : Z) (e : error)
| LogDelivered (name : string)
| LogBotProcessing (filename : string)
| LogBotFetchFailed (e : error)
| LogBotEncryptionFailed (e : error)
| LogBotSaving
| LogBotStorageFailed (e : error)
| LogBotDBSaveFailed (e : error)
| LogBotSuccess (filename : string) (fileID : Z)
| LogBotPurgeRequested (id : Z)
| LogBotPurged (id : Z).

(** What the command front-end tells the user ([InteractionRespond] and
    [followup]). *)
Inductive Reply :=
| ReplyProcessing
| ReplyFetchFailed
| ReplyEncryptionFailed
| ReplyStorageFailed
| ReplyDatabaseError
| ReplyObjectSecured (fileID : Z)
| ReplyPurging
| ReplyPurgeComplete.

(** A goroutine started with [go] and not waited for. *)
Inductive Task :=
| NotifyUpload (filename : string) (size : Z) (parts : nat) (method : string).

Record State := mkState {
  DB : database.Database;
  Session : discordgo.Session;
  rand : list byte;
  logs : list LogEntry;
  spawned : list Task;
  replies : list Reply;
  w : ResponseWriter
}.

Definition set_DB (db : database.Database) (s : State) : State :=
  mkState db (Session s) (rand s) (logs s) (spawned s) (replies s) (w s).
Definition set_Session (d : discordgo.Session) (s : State) : State :=
  mkState (DB s) d (rand s) (logs s) (spawned s) (replies s) (w s).
Definition set_rand (r : list byte) (s : State) : State :=
  mkState (DB s) (Session s) r (logs s) (spawned s) (replies s) (w s).
Definition set_logs (l : list LogEntry) (s : State) : State :=
  mkState (DB s) (Session s) (rand s) l (spawned s) (replies s) (w s).
Definition set_spawned (t : list Task) (s : State) : State :=
  mkState (DB s) (Session s) (rand s) (logs s) t (replies s) (w s).
Definition set_replies (r : list Reply) (s : State) : State :=
  mkState (DB s) (Session s) (rand s) (logs s) (spawned s) r (w s).
Definition set_w (w' : ResponseWriter) (s : State) : State :=
  mkState (DB s) (Session s) (rand s) (logs s) (spawned s) (replies s) w'.

(** A handler body: it runs on the state and either goes on with a value or
    has executed [return]. *)
Definition M (A : Type) : Type := State → State * option A.

#[global] Instance M_ret : MRet M := λ A a s, (s, Some a).
#[global] Instance M_bind : MBind M := λ A B f m s,
  match m s with
  | (s', Some a) => f a s'
  | (s', None) => (s', None)
  end.

Definition Return {A} : M A := λ s, (s, None).

Definition db {A} (f : database.Database → database.Database * A) : M A :=
  λ s, let '(d, a) := f (DB s) in (set_DB d s, Some a).
Definition session {A} (f : discordgo.Session → discordgo.Session * A) : M A :=
  λ s, let '(d, a) := f (Session s) in (set_Session d s, Some a).
Definition crypto_Encrypt (data key : list byte) : M (result (list byte)) :=
  λ s, let '(r, a) := crypto.Encrypt data key (rand s) in (set_rand r s, Some a).
Definition log_Printf (e : LogEntry) : M unit :=
  λ s, (set_logs (logs s ++ [e]) s, Some tt).
Definition go (t : Task) : M unit :=
  λ s, (set_spawned (spawned s ++ [t]) s, Some tt).
Definition respond (r : Reply) : M unit :=
  λ s, (set_replies (replies s ++ [r]) s, Some tt).

(** [w.WriteHeader(code)]: the first status written stands. *)
Definition WriteHeader (code : Z) : M unit :=
  λ s, (set_w (mkResponseWriter (Some (default code (status (w s))))
                                (header (w s)) (body (w s))) s, Some tt).
(** [w.Write(data)]: writes the 200 status first if none was written. *)
Definition Write (data : list byte) : M unit :=
  λ s, (set_w (mkResponseWriter (Some (StatusCode (w s)))
                                (header (w s)) (body (w s) ++ data)) s, Some tt).
Definition Header_Set (k v : string) : M unit :=
  λ s, (set_w (mkResponseWriter (status (w s)) (header (w s) ++ [(k, v)])
                                (body (w s))) s, Some tt).
(** [http.Error(w, msg, code)]. *)
Definition http_Error (msg : string) (code : Z) : M unit :=
  WriteHeader code ;; Write (String.list_byte_of_string msg ++ [x0a]).

(** [time.Sleep]: no effect on the modelled state. *)
Definition time_Sleep (ms : Z) : M unit := mret tt.

(** Run a handler on a request of its own: a new response writer. *)
Definition serve (h : M unit) (s : State) : State :=
  fst (h (set_w fresh_writer s)).

(** ** [io.ReadFull] on a request part *)

Inductive io_error := EOF | ErrUnexpectedEOF.

(** [io.ReadFull(part, buffer)] with [len(buffer) = len_buf]: the bytes put
    into [buffer[:n]], the error, and what is left of the part.  The part
    delivers its bytes without transport errors. *)
Definition io_ReadFull (part : list byte) (len_buf : positive)
  : list byte * option io_error * list byte :=
  match part with
  | [] => ([], Some EOF, [])
  | _ :: _ =>
      if decide (Z.of_nat (length part) < Z.pos len_buf)
      then (part, Some ErrUnexpectedEOF, [])
      else (take (Pos.to_nat len_buf) part, None, drop (Pos.to_nat len_buf) part)
  end.

(** Go's [int64(x)]. *)
Definition int64 (x : Z) : Z := (x + 2 ^ 63) `mod` 2 ^ 64 - 2 ^ 63.

(** ** [internal/bot]: the constant and the command front-end *)

Module bot.

(** [ChunkSize = 7 * 1024 * 1024]. *)
Definition ChunkSize : positive := 7 * 1024 * 1024.

Record Bot := mkBot { Config : config.Config }.

(** The attachment resolved from the [/upload] interaction. *)
Record Attachment := mkAttachment {
  Filename : string;
  URL : string;
  Size : Z
}.

Definition followup (content : Reply) : M unit := respond content.

Definition handleUpload (b : Bot) (attachment : Attachment) : M unit :=
  log_Printf (LogBotProcessing (Filename attachment)) ;;
  respond ReplyProcessing ;;
  resp ← session (discordgo.http_Get (URL attachment));
  match resp with
  | Err err =>
      log_Printf (LogBotFetchFailed err) ;;
      followup ReplyFetchFailed ;;
      Return
  | Ok data =>
      r ← crypto_Encrypt data (config.EncryptionKey (Config b));
      match r with
      | Err err =>
          log_Printf (LogBotEncryptionFailed err) ;;
          followup ReplyEncryptionFailed ;;
          Return
      | Ok encrypted =>
          log_Printf LogBotSaving ;;
          r ← session (discordgo.ChannelFileSend (Sum256 encrypted) encrypted);
          match r with
          | Err err =>
              log_Printf (LogBotStorageFailed err) ;;
              followup ReplyStorageFailed ;;
              Return
          | Ok msg =>
              let hashStr := Sum256 data in
              '(fileID, err) ← db (database.SaveFile (Filename attachment)
                                     (int64 (Size attachment)) hashStr);
              match err with
              | Some err =>
                  log_Printf (LogBotDBSaveFailed err) ;;
                  followup ReplyDatabaseError ;;
                  Return
              | None =>
                  db (database.SaveChunk fileID (discordgo.Message.ID msg) 1) ;;
                  log_Printf (LogBotSuccess (Filename attachment) fileID) ;;
                  go (NotifyUpload (Filename attachment)
                                   (int64 (Size attachment)) 1 "Bot") ;;
                  followup (ReplyObjectSecured fileID)
              end
          end
      end
  end.

Fixpoint delete_messages (chunks : list database.ChunkMetadata.t) : M unit :=
  match chunks with
  | [] => mret tt
  | c :: chunks' =>
      session (discordgo.ChannelMessageDelete (database.ChunkMetadata.MessageID c)) ;;
      delete_messages chunks'
  end.

Definition handleDelete (b : Bot) (id : Z) : M unit :=
  log_Printf (LogBotPurgeRequested id) ;;
  respond ReplyPurging ;;
  r ← db (database.GetChunks id);
  let chunks := match r with Ok chunks => chunks | Err _ => [] end in
  delete_messages chunks ;;
  db (database.DeleteFile id) ;;
  log_Printf (LogBotPurged id) ;;
  followup ReplyPurgeComplete.

(** The goroutine body of [NotifyUpload]: one message to the channel. *)
Definition run_NotifyUpload : M unit :=
  session discordgo.ChannelMessageSend ;; mret tt.

End bot.

(** ** [internal/server] *)

Module multipart.
Record Part := mkPart {
  FormName : string;
  FileName : string;
  content : list byte
}.
End multipart.

Module server.

Record Server := mkServer { Config : config.Config }.

(** The request of [/api/upload]: what [r.MultipartReader()] gives, and
    the parts [mr.NextPart()] then yields up to [io.EOF]. *)
Record Request := mkRequest {
  MultipartReader : result (list multipart.Part)
}.

(** The variables of [handleUpload] that live across the loops. *)
Record UploadVars := mkUploadVars {
  filename : string;
  totalSize : Z;
  messageIDs : list string;
  hasher : list byte          (* what was written to the SHA-256 hasher *)
}.

(** The body of [if n > 0 { ... }]; it gives back the variables and
    [partNum] after [partNum++]. *)
Definition upload_chunk (s : Server) (chunkData : list byte) (partNum : Z)
    (v : UploadVars) : M (UploadVars * Z) :=
  let totalSize := int64 (totalSize v + int64 (Z.of_nat (length chunkData))) in
  let hasher := hasher v ++ chunkData in
  r ← crypto_Encrypt chunkData (config.EncryptionKey (Config s));
  match r with
  | Err err =>
      log_Printf (LogEncryptionFailed err) ;;
      http_Error "Security fault" StatusInternalServerError ;;
      Return
  | Ok encrypted =>
      r ← session (discordgo.ChannelFileSend (Sum256 encrypted) encrypted);
      match r with
      | Err err =>
          log_Printf (LogDiscordRejection partNum err) ;;
          http_Error "Decentralized storage rejection" StatusInternalServerError ;;
          Return
      | Ok msg =>
          let messageIDs := messageIDs v ++ [discordgo.Message.ID msg] in
          log_Printf (LogChunkSecured partNum (length encrypted)) ;;
          time_Sleep 800 ;;
          mret (mkUploadVars (filename v) totalSize messageIDs hasher,
                partNum + 1)
      end
  end.

Definition inspect {A} (a : A) : {b | a = b} := exist _ a eq_refl.

(** The inner [for] of [handleUpload]: read a buffer, handle it if
    [n > 0], stop on [io.EOF] or [io.ErrUnexpectedEOF]. *)
Equations? read_loop (s : Server) (len_buf : positive) (part : list byte)
    (partNum : Z) (v : UploadVars) (st : State)
  : State * option UploadVars by wf (length part) lt :=
  read_loop s len_buf part partNum v st
    with inspect (io_ReadFull part len_buf) := {
    | exist _ (chunkData, err, rest) Hread
        with (if decide (0 < length chunkData)%nat
              then upload_chunk s chunkData partNum v st
              else (st, Some (v, partNum))) := {
      | (st', None) := (st', None);
      | (st', Some (v', partNum')) with err := {
        | Some _ := (st', Some v');
        | None := read_loop s len_buf rest partNum' v' st' } } }.
Proof.
  unfold io_ReadFull in Hread.
  destruct part as [|b part]; [discriminate|].
  case_decide; [discriminate|].
  injection Hread as <- <-. rewrite length_drop. simpl. lia.
Qed.

(** The outer [for] over [mr.NextPart()]. *)
Fixpoint for_parts (s : Server) (parts : list multipart.Part)
    (v : UploadVars) : M UploadVars :=
  match parts with
  | [] => mret v
  | part :: parts' =>
      v' ← (if decide (multipart.FormName part = "file")
            then
              let v := mkUploadVars (multipart.FileName part) (totalSize v)
                                    (messageIDs v) (hasher v) in
              log_Printf (LogReceiving (filename v)) ;;
              read_loop s bot.ChunkSize (multipart.content part) 1 v
            else mret v);
      for_parts s parts' v'
  end.

(** [for idx, msgID := range messageIDs { s.DB.SaveChunk(fileID, msgID, idx+1) }] *)
Fixpoint save_chunks (fileID : Z) (idx : Z) (messageIDs : list string)
  : M unit :=
  match messageIDs with
  | [] => mret tt
  | msgID :: messageIDs' =>
      db (database.SaveChunk fileID msgID (idx + 1)) ;;
      save_chunks fileID (idx + 1) messageIDs'
  end.

Definition handleUpload (s : Server) (r : Request) : M unit :=
  match MultipartReader r with
  | Err _ =>
      http_Error "Stream initialization failed" StatusBadRequest ;;
      Return
  | Ok mr =>
      v ← for_parts s mr (mkUploadVars "" 0 [] []);
      if decide (length (messageIDs v) = 0%nat)
      then
        http_Error "Payload empty" StatusBadRequest ;;
        Return
      else
        let hashStr := Sum256 (hasher v) in
        '(fileID, err) ← db (database.SaveFile (filename v) (totalSize v) hashStr);
        (if err is None
         then
           save_chunks fileID 0 (messageIDs v) ;;
           go (NotifyUpload (filename v) (totalSize v)
                            (length (messageIDs v)) "Web")
         else mret tt) ;;
        log_Printf (LogTransmissionComplete (filename v) fileID) ;;
        WriteHeader StatusOK
  end.

Definition dquote : string :=
  String (Ascii.Ascii false true false false false true false false) EmptyString.

(** The [for _, chunk := range chunks] of [handleDownload]. *)
Fixpoint download_chunks (s : Server) (chunks : list database.ChunkMetadata.t)
  : M unit :=
  match chunks with
  | [] => mret tt
  | chunk :: chunks' =>
      r ← session (discordgo.ChannelMessage (database.ChunkMetadata.MessageID chunk));
      match r with
      | Err _ =>
          log_Printf (LogFragmentMissing (database.ChunkMetadata.PartNum chunk)) ;;
          download_chunks s chunks'
      | Ok msg =>
          match discordgo.Message.Attachments msg with
          | [] =>
              log_Printf (LogFragmentMissing (database.ChunkMetadata.PartNum chunk)) ;;
              download_chunks s chunks'
          | attachment :: _ =>
              resp ← session (discordgo.http_Get (discordgo.MessageAttachment.URL attachment));
              match resp with
              | Err err =>
                  log_Printf (LogFragmentFetchFailed err) ;;
                  download_chunks s chunks'
              | Ok encrypted =>
                  match crypto.Decrypt encrypted (config.EncryptionKey (Config s)) with
                  | Err err =>
                      log_Printf (LogDecryptionFault
                                    (database.ChunkMetadata.PartNum chunk) err) ;;
                      Return
                  | Ok decrypted =>
                      Write decrypted ;;
                      download_chunks s chunks'
                  end
              end
          end
      end
  end.

Definition handleDownload (s : Server) (id : Z) : M unit :=
  r ← db (database.GetFile id);
  match r with
  | Err _ =>
      http_Error "Object not found" StatusNotFound ;;
      Return
  | Ok file =>
      r ← db (database.GetChunks id);
      let chunks := match r with Ok chunks => chunks | Err _ => [] end in
      Header_Set "Content-Disposition"
        ("attachment; filename=" +:+ dquote +:+ database.FileMetadata.Name file
           +:+ dquote) ;;
      Header_Set "Content-Type" "application/octet-stream" ;;
      log_Printf (LogReconstructing (database.FileMetadata.Name file)) ;;
      download_chunks s chunks ;;
      log_Printf (LogDelivered (database.FileMetadata.Name file))
  end.

(** *** [handleDelete]: the handler and the goroutines it starts

    The handler thread and one goroutine per chunk, each with its program
    point; a step runs one thread up to its next synchronisation or call.
    [semaphore] is the number of elements in the buffered channel and
    [wg] the counter of the [sync.WaitGroup]. *)

Inductive WorkerPC :=
| AtAcquire       (* semaphore <- struct{}{} *)
| AtDelete        (* s.Bot.Session.ChannelMessageDelete(..., msgID) *)
| AtRelease       (* <-semaphore *)
| AtDone          (* the deferred wg.Done() *)
| Exited.

Record Worker := mkWorker { msgID : string; pc : WorkerPC }.

Inductive MainPC :=
| AtGetChunks
| AtRange (rest : list database.ChunkMetadata.t)
| AtWait
| AtDeleteFile
| Returned.

(** What the handler asked of the outside, in the order the calls
    returned. *)
Inductive Event :=
| EvRemoteDelete (msgID : string) (err : option error)
| EvMetadataDelete (err : option error).

Record Threads := mkThreads {
  st : State;
  main : MainPC;
  chunks : list database.ChunkMetadata.t;
  workers : list Worker;
  semaphore : nat;
  wg : nat;
  trace : list Event
}.

(** [make(chan struct{}, 8)] *)
Definition semaphore_cap : nat := 8.

Definition exec (m : M unit) (st : State) : State := fst (m st).

Definition step_main (s : Server) (id : Z) (c : Threads) : option Threads :=
  match main c with
  | AtGetChunks =>
      let '(db', r) := database.GetChunks id (DB (st c)) in
      let st1 := set_DB db' (st c) in
      match r with
      | Err _ =>
          Some (mkThreads (exec (http_Error "File not found" StatusNotFound) st1)
                          Returned (chunks c) (workers c) (semaphore c) (wg c)
                          (trace c))
      | Ok chunks =>
          Some (mkThreads (exec (log_Printf (LogInitiatingWipe id (length chunks))) st1)
                          (AtRange chunks) chunks (workers c) (semaphore c) (wg c)
                          (trace c))
      end
  | AtRange [] =>
      Some (mkThreads (st c) AtWait (chunks c) (workers c) (semaphore c) (wg c)
                      (trace c))
  | AtRange (chunk :: rest) =>
      (* wg.Add(1); go func(msgID string) {...}(chunk.MessageID) *)
      Some (mkThreads (st c) (AtRange rest) (chunks c)
                      (workers c ++ [mkWorker (database.ChunkMetadata.MessageID chunk)
                                              AtAcquire])
                      (semaphore c) (S (wg c)) (trace c))
  | AtWait =>
      (* wg.Wait() returns once the counter is zero *)
      if decide (wg c = 0)%nat
      then Some (mkThreads (st c) AtDeleteFile (chunks c) (workers c)
                           (semaphore c) (wg c) (trace c))
      else None
  | AtDeleteFile =>
      let '(db', err) := database.DeleteFile id (DB (st c)) in
      let st1 := set_DB db' (st c) in
      let st2 :=
        match err with
        | Some e =>
            exec (log_Printf (LogMetadataPurgeFailed e) ;;
                  http_Error "Registry purge failed" StatusInternalServerError) st1
        | None =>
            exec (log_Printf (LogFileErased id) ;; WriteHeader StatusOK) st1
        end in
      Some (mkThreads st2 Returned (chunks c) (workers c) (semaphore c) (wg c)
                      (trace c ++ [EvMetadataDelete err]))
  | Returned => None
  end.

Definition set_worker (i : nat) (wk : Worker) (c : Threads)
    (st' : State) (semaphore' wg' : nat) (trace' : list Event) : Threads :=
  mkThreads st' (main c) (chunks c) (<[i := wk]> (workers c))
            semaphore' wg' trace'.

Definition step_worker (i : nat) (c : Threads) : option Threads :=
  match workers c !! i with
  | None => None
  | Some wk =>
      match pc wk with
      | AtAcquire =>
          (* a send on the channel blocks while it is full *)
          if decide (semaphore c < semaphore_cap)%nat
          then Some (set_worker i (mkWorker (msgID wk) AtDelete) c
                                (st c) (S (semaphore c)) (wg c) (trace c))
          else None
      | AtDelete =>
          let '(d, err) :=
            discordgo.ChannelMessageDelete (msgID wk) (Session (st c)) in
          Some (set_worker i (mkWorker (msgID wk) AtRelease) c
                           (set_Session d (st c)) (semaphore c) (wg c)
                           (trace c ++ [EvRemoteDelete (msgID wk) err]))
      | AtRelease =>
          (* a receive blocks while the channel is empty *)
          match semaphore c with
          | O => None
          | S n => Some (set_worker i (mkWorker (msgID wk) AtDone) c
                                    (st c) n (wg c) (trace c))
          end
      | AtDone =>
          Some (set_worker i (mkWorker (msgID wk) Exited) c
                           (st c) (semaphore c) (pred (wg c)) (trace c))
      | Exited => None
      end
  end.

Inductive Thread := MainThread | WorkerThread (i : nat).

Definition step_thread (s : Server) (id : Z) (t : Thread) (c : Threads)
  : option Threads :=
  match t with
  | MainThread => step_main s id c
  | WorkerThread i => step_worker i c
  end.

(** One step of some thread, whichever the Go scheduler picks. *)
Definition step (s : Server) (id : Z) (c c' : Threads) : Prop :=
  ∃ t, step_thread s id t c = Some c'.

Definition handleDelete_start (st : State) : Threads :=
  mkThreads (set_w fresh_writer st) AtGetChunks [] [] 0 0 [].

(** [handleDelete] ran from [st] and returned in [st']. *)
Definition handleDelete (s : Server) (id : Z) (st st' : State) : Prop :=
  ∃ c, rtc (step s id) (handleDelete_start st) c
       ∧ main c = Returned ∧ st' = server.st c.

(** Running a given interleaving, for as long as its choices can move. *)
Fixpoint run_schedule (s : Server) (id : Z) (sched : list Thread)
    (c : Threads) : option Threads :=
  match sched with
  | [] => Some c
  | t :: sched' =>
      match step_thread s id t c with
      | Some c' => run_schedule s id sched' c'
      | None => None
      end
  end.

(** The number of goroutines holding a slot of the semaphore. *)
Definition holds_slot (wk : Worker) : bool :=
  match pc wk with AtDelete | AtRelease => true | _ => false end.
Definition in_flight (c : Threads) : nat :=
  length (filter (λ wk, holds_slot wk = true) (workers c)).

End server.

(** ** Vocabulary of the properties *)

(** One position of the buffer holds another byte. *)
Definition byte_flipped (c c' : list byte) : Prop :=
  ∃ (i : nat) (b b' : byte), c !! i = Some b ∧ b' ≠ b ∧ c' = <[i := b']> c.

(** The number of positions at which two buffers of one length differ. *)
Fixpoint hamming (l l' : list byte) : nat :=
  match l, l' with
  | b :: l, b' :: l' => ((if decide (b = b') then 0 else 1) + hamming l l')%nat
  | _, _ => 0%nat
  end.

(** Two store states with the same rows, counters and pragma. *)
Definition same_tables (db db' : database.Database) : Prop :=
  database.foreign_keys db' = database.foreign_keys db
  ∧ database.files db' = database.files db
  ∧ database.files_seq db' = database.files_seq db
  ∧ database.chunks db' = database.chunks db
  ∧ database.chunks_seq db' = database.chunks_seq db.

(** The chunk records of a file as [GetChunks] lists them. *)
Definition file_chunks (id : Z) (db : database.Database)
  : list database.ChunkMetadata.t :=
  database.order_by_part_num
    (filter (λ c, database.ChunkMetadata.FileID c = id) (database.chunks db)).

(** A goroutine of [handleDelete] whose remote call has returned. *)
Definition called (wk : server.Worker) : bool :=
  match server.pc wk with
  | server.AtRelease | server.AtDone | server.Exited => true
  | _ => false
  end.

Definition exited (wk : server.Worker) : bool :=
  match server.pc wk with server.Exited => true | _ => false end.

(** The message ids of the remote deletions in a trace, in order. *)
Definition remote_deletes (tr : list server.Event) : list string :=
  tr ≫= (λ e, match e with
              | server.EvRemoteDelete m _ => [m]
              | server.EvMetadataDelete _ => []
              end).

Definition is_remote_delete (e : server.Event) : Prop :=
  match e with
  | server.EvRemoteDelete _ _ => True
  | server.EvMetadataDelete _ => False
  end.

(** The steps a configuration of [handleDelete] still has in it, at most. *)
Definition worker_weight (wk : server.Worker) : nat :=
  match server.pc wk with
  | server.AtAcquire => 4
  | server.AtDelete => 3
  | server.AtRelease => 2
  | server.AtDone => 1
  | server.Exited => 0
  end.

Definition main_weight (id : Z) (c : server.Threads) : nat :=
  match server.main c with
  | server.AtGetChunks =>
      4 + 5 * length (filter (λ r, database.ChunkMetadata.FileID r = id)
                             (database.chunks (DB (server.st c))))
  | server.AtRange rest => 3 + 5 * length rest
  | server.AtWait => 2
  | server.AtDeleteFile => 1
  | server.Returned => 0
  end.

Definition steps_left (id : Z) (c : server.Threads) : nat :=
  main_weight id c + sum_list (worker_weight <$> server.workers c).

(** What holds of every configuration [handleDelete] reaches from [st0]:
    the semaphore counts the goroutines between acquire and release, the
    wait group counts those that have not finished, the trace lists one
    remote deletion per goroutine past its call, and the handler thread is
    where the goroutines started so far say it is. *)
Definition delete_phase (st0 : State) (id : Z) (c : server.Threads) : Prop :=
  match server.main c with
  | server.AtGetChunks =>
      DB (server.st c) = DB st0 ∧ server.workers c = [] ∧ server.trace c = []
  | server.AtRange rest =>
      server.chunks c = file_chunks id (DB st0)
      ∧ database.ChunkMetadata.MessageID <$> server.chunks c
        = (server.msgID <$> server.workers c)
            ++ (database.ChunkMetadata.MessageID <$> rest)
      ∧ Forall is_remote_delete (server.trace c)
  | server.AtWait =>
      server.chunks c = file_chunks id (DB st0)
      ∧ database.ChunkMetadata.MessageID <$> server.chunks c
        = server.msgID <$> server.workers c
      ∧ Forall is_remote_delete (server.trace c)
  | server.AtDeleteFile =>
      server.chunks c = file_chunks id (DB st0)
      ∧ database.ChunkMetadata.MessageID <$> server.chunks c
        = server.msgID <$> server.workers c
      ∧ Forall is_remote_delete (server.trace c)
      ∧ server.wg c = 0%nat
  | server.Returned =>
      (hd false (database.io_errors (DB st0)) = true
       ∧ server.workers c = [] ∧ server.trace c = [])
      ∨ (server.chunks c = file_chunks id (DB st0)
         ∧ database.ChunkMetadata.MessageID <$> server.chunks c
           = server.msgID <$> server.workers c
         ∧ server.wg c = 0%nat
         ∧ ∃ pre e, server.trace c = pre ++ [server.EvMetadataDelete e]
                    ∧ Forall is_remote_delete pre)
  end.

Definition delete_inv (st0 : State) (id : Z) (c : server.Threads) : Prop :=
  server.semaphore c = server.in_flight c
  ∧ (server.semaphore c ≤ server.semaphore_cap)%nat
  ∧ server.wg c = length (filter (λ wk, exited wk = false) (server.workers c))
  ∧ remote_deletes (server.trace c)
    ≡ₚ server.msgID <$> filter (λ wk, called wk = true) (server.workers c)
  ∧ delete_phase st0 id c.

(** The store and the response along [handleDelete]: nothing but the two
    statements of the handler thread touches them. *)
Definition delete_store_inv (st0 : State) (id : Z) (c : server.Threads) : Prop :=
  let tape := database.io_errors (DB st0) in
  match server.main c with
  | server.AtGetChunks =>
      DB (server.st c) = DB st0 ∧ status (w (server.st c)) = None
  | server.AtRange _ | server.AtWait | server.AtDeleteFile =>
      hd false tape = false
      ∧ DB (server.st c) = database.set_io_errors (tl tape) (DB st0)
      ∧ status (w (server.st c)) = None
  | server.Returned =>
      (hd false tape = true
       ∧ DB (server.st c) = database.set_io_errors (tl tape) (DB st0)
       ∧ status (w (server.st c)) = Some StatusNotFound)
      ∨ (hd false tape = false
         ∧ DB (server.st c)
           = (database.DeleteFile id
                (database.set_io_errors (tl tape) (DB st0))).1
         ∧ status (w (server.st c))
           = Some (if hd false (tl tape) then StatusInternalServerError
                   else StatusOK))
  end.

(** The Chunker of the design document: the stream cut into buffers of
    [C] bytes, the last one holding what is left. *)
Equations? chunks_of (C : positive) (stream : list byte) : list (list byte)
  by wf (length stream) lt :=
chunks_of C [] := [];
chunks_of C (b :: stream) :=
  take (Pos.to_nat C) (b :: stream)
    :: chunks_of C (drop (Pos.to_nat C) (b :: stream)).
Proof. rewrite length_drop. cbn. lia. Qed.

(** The loop body run on each buffer of a list in turn, stopping where it
    returns from the handler. *)
Fixpoint upload_chunks (s : server.Server) (cs : list (list byte))
    (partNum : Z) (v : server.UploadVars) (st : State)
  : State * option (server.UploadVars * Z) :=
  match cs with
  | [] => (st, Some (v, partNum))
  | c :: cs' =>
      match server.upload_chunk s c partNum v st with
      | (st', None) => (st', None)
      | (st', Some (v', partNum')) => upload_chunks s cs' partNum' v' st'
      end
  end.

(** A chunk kept by the remote service under a message id: the message has
    one attachment, and the CDN serves the chunk sealed under the key. *)
Definition stored (key : list byte) (d : discordgo.Session) (id : string)
    (chunk : list byte) : Prop :=
  ∃ nonce label,
    length nonce = crypto.NonceSize
    ∧ discordgo.messages d !! id
      = Some (discordgo.Message.mk id
                [discordgo.MessageAttachment.mk (discordgo.attachment_url id) label])
    ∧ discordgo.cdn d !! discordgo.attachment_url id
      = Some (crypto.Seal key nonce chunk).

(** [handleUpload] from [hashStr := ...] on: the metadata writes and the
    answer. *)
Definition persist_upload (v : server.UploadVars) : M unit :=
  let hashStr := Sum256 (server.hasher v) in
  '(fileID, err) ← db (database.SaveFile (server.filename v) (server.totalSize v) hashStr);
  (if err is None
   then
     server.save_chunks fileID 0 (server.messageIDs v) ;;
     go (NotifyUpload (server.filename v) (server.totalSize v)
                      (length (server.messageIDs v)) "Web")
   else mret tt) ;;
  log_Printf (LogTransmissionComplete (server.filename v) fileID) ;;
  WriteHeader StatusOK.

(** Every chunk row belongs to a file row. *)
Definition referential (db : database.Database) : Prop :=
  ∀ r, r ∈ database.chunks db →
       database.ChunkMetadata.FileID r
         ∈ database.FileMetadata.ID <$> database.files db.

(** Every file has chunk rows, and in rowid order their [part_num] are
    1, 2, ..., n. *)
Definition complete (db : database.Database) : Prop :=
  ∀ f, f ∈ database.files db →
       ∃ n, 0 < n
            ∧ database.ChunkMetadata.PartNum
                <$> filter (λ r, database.ChunkMetadata.FileID r
                                 = database.FileMetadata.ID f)
                           (database.chunks db)
              = seqZ 1 n.

Definition store_inv (db : database.Database) : Prop :=
  database.foreign_keys db = true
  ∧ quiet (database.io_errors db)
  ∧ referential db
  ∧ complete db.

(** Put followed by Get gives the stream back: the Put answers 200 and
    logs the file id, and the Get of that id answers 200 with the stream as
    body. *)
Definition put_get_roundtrip (s : server.Server) (st : State)
    (name : string) (data : list byte) : Prop :=
  let put := server.handleUpload s
               (server.mkRequest (Ok [multipart.mkPart "file" name data])) in
  ∃ id,
    StatusCode (w (serve put st)) = StatusOK
    ∧ last (logs (serve put st)) = Some (LogTransmissionComplete name id)
    ∧ StatusCode (w (serve (server.handleDownload s id) (serve put st))) = StatusOK
    ∧ body (w (serve (server.handleDownload s id) (serve put st))) = data.

(** ** Sample states *)

Definition demo_key : list byte := replicate 32 "k"%byte.
Definition demo_server : server.Server :=
  server.mkServer (config.mkConfig "storage" [] demo_key).
Definition demo_bot : bot.Bot :=
  bot.mkBot (config.mkConfig "storage" [] demo_key).

(** A new vault: the store just initialised, an empty channel, a random
    source with bytes to give, and an environment that fails nothing. *)
Definition demo_empty : State :=
  mkState (database.Initialize (database.empty []))
          (discordgo.mkSession ∅ ∅ ∅ [])
          (replicate 64 "r"%byte) [] [] [] fresh_writer.

(** A vault holding file 1 in three chunks, whose second remote deletion
    will fail. *)
Definition demo_three_chunks : State :=
  mkState
    (database.mkDatabase true
       [database.FileMetadata.mk 1 "a.bin" 3 (Sum256 [])] 1
       [database.ChunkMetadata.mk 1 1 "0" 1;
        database.ChunkMetadata.mk 2 1 "1" 2;
        database.ChunkMetadata.mk 3 1 "2" 3] 3 [])
    (discordgo.mkSession
       (<["0" := discordgo.Message.mk "0" []]>
          (<["1" := discordgo.Message.mk "1" []]>
             (<["2" := discordgo.Message.mk "2" []]> ∅)))
       ∅ ∅ [false; true])
    [] [] [] [] fresh_writer.

(** The three goroutines take their slots together, the calls return out
    of order, and the handler goes on once all are done. *)
Definition demo_schedule : list server.Thread :=
  [server.MainThread; server.MainThread; server.MainThread;
   server.MainThread; server.MainThread;
   server.WorkerThread 2; server.WorkerThread 0; server.WorkerThread 1;
   server.WorkerThread 1; server.WorkerThread 2; server.WorkerThread 0;
   server.WorkerThread 0; server.WorkerThread 1; server.WorkerThread 2;
   server.WorkerThread 0; server.WorkerThread 1; server.WorkerThread 2;
   server.MainThread; server.MainThread].

(** A vault holding file 1 in nine chunks. *)
Definition demo_nine_chunks : State :=
  mkState
    (database.mkDatabase true
       [database.FileMetadata.mk 1 "b.bin" 9 (Sum256 [])] 1
       (imap (λ i m, database.ChunkMetadata.mk (Z.of_nat i + 1) 1 m (Z.of_nat i + 1))
             ["0"; "1"; "2"; "3"; "4"; "5"; "6"; "7"; "8"]) 9 [])
    (discordgo.mkSession ∅ ∅ ∅ [])
    [] [] [] [] fresh_writer.

(** The vault after a first Put of [a.bin]. *)
Definition demo_one_file : State :=
  serve (server.handleUpload demo_server
           (server.mkRequest (Ok [multipart.mkPart "file" "a.bin" ["h"; "i"]%byte])))
        demo_empty.

(** What the remote service gives for one chunk record, by section 4.5 of
    the design document: nothing (the fetch failed or the message has no
    content; [why] is the log line), a blob that does not decrypt, or the
    plaintext. *)
Inductive Fetched :=
| Skipped (why : LogEntry)
| Corrupt (err : error)
| Plaintext (p : list byte).

Definition fetch (key : list byte) (chunk : database.ChunkMetadata.t)
    (d : discordgo.Session) : discordgo.Session * Fetched :=
  let partNum := database.ChunkMetadata.PartNum chunk in
  let '(d1, r) :=
    discordgo.ChannelMessage (database.ChunkMetadata.MessageID chunk) d in
  match r with
  | Err _ => (d1, Skipped (LogFragmentMissing partNum))
  | Ok msg =>
      match discordgo.Message.Attachments msg with
      | [] => (d1, Skipped (LogFragmentMissing partNum))
      | a :: _ =>
          let '(d2, r) :=
            discordgo.http_Get (discordgo.MessageAttachment.URL a) d1 in
          match r with
          | Err err => (d2, Skipped (LogFragmentFetchFailed err))
          | Ok blob =>
              match crypto.Decrypt blob key with
              | Err err => (d2, Corrupt err)
              | Ok p => (d2, Plaintext p)
              end
          end
      end
  end.

(** Get by the design document: a chunk that cannot be fetched is logged
    and skipped, the first chunk that does not decrypt ends the
    reconstruction, every other chunk is emitted, in order.  The result is
    the bytes emitted, the lines logged, and whether the end of the list was
    reached. *)
Fixpoint reconstruct (key : list byte) (chunks : list database.ChunkMetadata.t)
    (d : discordgo.Session) : list byte * list LogEntry * bool :=
  match chunks with
  | [] => ([], [], true)
  | chunk :: chunks' =>
      let '(d', f) := fetch key chunk d in
      match f with
      | Skipped why =>
          let '(out, lines, done) := reconstruct key chunks' d' in
          (out, why :: lines, done)
      | Corrupt err =>
          ([], [LogDecryptionFault (database.ChunkMetadata.PartNum chunk) err],
           false)
      | Plaintext p =>
          let '(out, lines, done) := reconstruct key chunks' d' in
          (p ++ out, lines, done)
      end
  end.

(** What a [/upload] that went through leaves behind: the bytes read from
    the attachment sealed as one blob in one new message, a file row with
    the size the attachment reports, and one chunk row with [part_num] 1
    that points at the message. *)
Definition one_chunk_recorded (b : bot.Bot) (a : bot.Attachment)
    (st : State) (fileID : Z) : Prop :=
  let key := config.EncryptionKey (bot.Config b) in
  let st' := (bot.handleUpload b a st).1 in
  let data := default [] (discordgo.cdn (Session st) !! bot.URL a) in
  ∃ nonce msgID rowid,
    let blob := crypto.Seal key nonce data in
    length nonce = crypto.NonceSize
    ∧ discordgo.messages (Session st) !! msgID = None
    ∧ discordgo.messages (Session st')
      = <[msgID := discordgo.Message.mk msgID
                     [discordgo.MessageAttachment.mk
                        (discordgo.attachment_url msgID) (Some (Sum256 blob))]]>
          (discordgo.messages (Session st))
    ∧ discordgo.cdn (Session st')
      = <[discordgo.attachment_url msgID := blob]> (discordgo.cdn (Session st))
    ∧ database.files (DB st')
      = database.files (DB st)
          ++ [database.FileMetadata.mk fileID (bot.Filename a)
                (int64 (bot.Size a)) (Sum256 data)]
    ∧ database.chunks (DB st')
      = database.chunks (DB st)
          ++ [database.ChunkMetadata.mk rowid fileID msgID 1].

(** An attachment of five bytes that Discord reports as 99 bytes long. *)
Definition demo_attachment : bot.Attachment :=
  bot.mkAttachment "note.txt" "https://cdn.discordapp.com/ephemeral/note.txt" 99.

Definition demo_with_attachment : State :=
  set_Session
    (discordgo.mkSession ∅ ∅
       {[bot.URL demo_attachment := ["h"; "e"; "l"; "l"; "o"]%byte]} [])
    demo_empty.

(** The same attachment, on a new store that will fail the second
    statement run on it. *)
Definition demo_faulty_with_attachment : State :=
  set_DB (database.Initialize (database.empty [false; true]))
         demo_with_attachment.

(** The states a vault goes through from [st0]: each handler run to its
    end, the notification goroutine, and the outside world doing what it
    likes to the channel, the CDN and the random source. *)
Inductive reachable_from (st0 : State) : State → Prop :=
| reach_start : reachable_from st0 st0
| reach_web_upload s r st :
    reachable_from st0 st →
    reachable_from st0 (serve (server.handleUpload s r) st)
| reach_web_download s id st :
    reachable_from st0 st →
    reachable_from st0 (serve (server.handleDownload s id) st)
| reach_web_delete s id st st' :
    reachable_from st0 st → server.handleDelete s id st st' →
    reachable_from st0 st'
| reach_bot_upload b a st :
    reachable_from st0 st →
    reachable_from st0 (bot.handleUpload b a st).1
| reach_bot_delete b id st :
    reachable_from st0 st →
    reachable_from st0 (bot.handleDelete b id st).1
| reach_notify st :
    reachable_from st0 st →
    reachable_from st0 (bot.run_NotifyUpload st).1
| reach_outside d r st :
    reachable_from st0 st →
    reachable_from st0 (set_Session d (set_rand r st)).

(** A handler body that takes a complete store to a complete store. *)
Definition keeps_store {A} (m : M A) : Prop :=
  ∀ st, store_inv (DB st) → store_inv (DB (m st).1).

(** A vault on a new store with bad sectors: the second statement run on
    it will fail. *)
Definition demo_faulty : State :=
  mkState (database.Initialize (database.empty [false; true]))
          (discordgo.mkSession ∅ ∅ ∅ [])
          (replicate 64 "r"%byte) [] [] [] fresh_writer.

(** A vault holding file 1 in three chunks, as the upload loop stores them
    when it reads these three buffers. *)
Definition demo_three_parts : State :=
  match upload_chunks demo_server
          [["o"; "n"; "e"]; ["t"; "w"; "o"]; ["3"]]%byte 1
          (server.mkUploadVars "c.bin" 0 [] []) demo_empty with
  | (st, Some (v, _)) => (persist_upload v st).1
  | (st, None) => st
  end.

(** ** [database.ListFiles]

    The [created_at] column is not part of [FileMetadata.t]; what it holds
    is given as a function of the rowid. *)
Module listing.

Import database.

(** ORDER BY created_at DESC, as a stable insertion sort: rows with equal
    [created_at], whose order SQL leaves open, stay in rowid order. *)
Fixpoint insert_by_created_at (created_at : Z → Z) (f : FileMetadata.t)
    (l : list FileMetadata.t) : list FileMetadata.t :=
  match l with
  | [] => [f]
  | g :: l' =>
      if decide (created_at (FileMetadata.ID g) ≤ created_at (FileMetadata.ID f))
      then f :: l
      else g :: insert_by_created_at created_at f l'
  end.

Definition order_by_created_at (created_at : Z → Z) (l : list FileMetadata.t)
  : list FileMetadata.t :=
  foldr (insert_by_created_at created_at) [] l.

(** [SELECT id, name, size, hash, created_at FROM files ORDER BY created_at DESC];
    the rows are those [SaveFile] wrote, which [rows.Scan] reads without
    error. *)
Definition ListFiles (created_at : Z → Z) (db : Database)
  : Database * result (list FileMetadata.t) :=
  statement db (λ db, (db, Ok (order_by_created_at created_at (files db)))).

End listing.

(** One call on the store, as the handlers and the bot commands make
    them. *)
Inductive Call :=
| CallSaveFile (name : string) (size : Z) (hash : Digest)
| CallSaveChunk (fileID : Z) (messageID : string) (partNum : Z)
| CallListFiles (created_at : Z → Z)
| CallGetFile (id : Z)
| CallDeleteFile (id : Z)
| CallGetChunks (fileID : Z).

Definition run_call (c : Call) (db : database.Database) : database.Database :=
  match c with
  | CallSaveFile name size hash => (database.SaveFile name size hash db).1
  | CallSaveChunk fileID messageID partNum =>
      (database.SaveChunk fileID messageID partNum db).1
  | CallListFiles created_at => (listing.ListFiles created_at db).1
  | CallGetFile id => (database.GetFile id db).1
  | CallDeleteFile id => (database.DeleteFile id db).1
  | CallGetChunks fileID => (database.GetChunks fileID db).1
  end.

Definition run_calls (cs : list Call) (db : database.Database)
  : database.Database :=
  foldl (λ db c, run_call c db) db cs.

(** The keys of the two tables: rowids are positive, distinct and not
    above their AUTOINCREMENT counter, names are distinct, and every chunk
    row belongs to a file row. *)
Definition well_keyed (db : database.Database) : Prop :=
  NoDup (database.FileMetadata.ID <$> database.files db)
  ∧ NoDup (database.FileMetadata.Name <$> database.files db)
  ∧ Forall (λ id, 0 < id ≤ database.files_seq db)
           (database.FileMetadata.ID <$> database.files db)
  ∧ NoDup (database.ChunkMetadata.ID <$> database.chunks db)
  ∧ Forall (λ id, 0 < id ≤ database.chunks_seq db)
           (database.ChunkMetadata.ID <$> database.chunks db)
  ∧ referential db.

(** The AUTOINCREMENT counters are not below zero. *)
Definition counters_nonneg (db : database.Database) : Prop :=
  0 ≤ database.files_seq db ∧ 0 ≤ database.chunks_seq db.

(** A new store after one [SaveFile]. *)
Definition demo_saved : database.Database :=
  (database.SaveFile "a.bin" 3 (Sum256 [])
     (database.Initialize (database.empty []))).1.

(** A handler body that touches the store through its calls only. *)
Definition uses_calls {A} (m : M A) : Prop :=
  ∀ st, ∃ cs, DB (m st).1 = run_calls cs (DB st).

(** ** [formatBytes] of the bot package *)

(** What [formatBytes] prints: [fmt.Sprintf("%d B", b)], or
    [fmt.Sprintf("%.1f %cB", float64(b)/float64(div), unit)], whose
    rendering of the quotient is left to [fmt]. *)
Inductive Formatted :=
| FormattedBytes (b : Z)
| FormattedScaled (b div : Z) (unit : Ascii.ascii).

Module format.

Definition unit : Z := 1024.

(** [for n := b / unit; n >= unit; n /= unit { div *= unit; exp++ }],
    entered with [n], [div] and [exp] as they stand; [/] on [int64]
    truncates, [*=] wraps. *)
Equations? scale (n div : Z) (exp : nat) : Z * nat by wf (Z.to_nat n) lt :=
  scale n div exp with decide (unit ≤ n) := {
    | left _ := scale (n ÷ unit) (int64 (div * unit)) (S exp);
    | right _ := (div, exp) }.
Proof.
  unfold unit in *.
  assert (n ÷ 1024 < n) by (apply Z.quot_lt; lia).
  assert (0 ≤ n ÷ 1024) by (apply Z.quot_pos; lia). lia.
Qed.

(** ["KMGTPE"[exp]]: an index outside the string panics ([None]). *)
Definition formatBytes (b : Z) : option Formatted :=
  if decide (b < unit) then Some (FormattedBytes b)
  else
    let '(div, exp) := scale (b ÷ unit) unit 0 in
    u ← String.get exp "KMGTPE";
    Some (FormattedScaled b div u).

End format.

(** ** [config.Load] and the library calls it makes *)

Module environ.

Import Stdlib.Strings.Ascii.

(** [os.Getenv]: the value, or the empty string when the variable is
    not set. *)
Definition Getenv (env : gmap string string) (key : string) : string :=
  default "" (env !! key).

(** [strings.Split(s, sep)] for a separator of one byte: the pieces
    between the separators, [n + 1] of them for [n] separators. *)
Fixpoint strings_Split (s : string) (sep : Ascii.ascii) : list string :=
  match s with
  | EmptyString => [EmptyString]
  | String c s' =>
      if decide (c = sep) then EmptyString :: strings_Split s' sep
      else match strings_Split s' sep with
           | piece :: pieces => String c piece :: pieces
           | [] => [String c EmptyString]
           end
  end.

Definition bytes (codes : list N) : string :=
  foldr (λ n s, String (Ascii.ascii_of_N n) s) EmptyString codes.

(** The UTF-8 encodings of the code points [unicode.IsSpace] accepts:
    tab to carriage return and space, then U+0085, U+00A0, U+1680,
    U+2000 to U+200A, U+2028, U+2029, U+202F, U+205F and U+3000. *)
Definition space_runes : list string :=
  bytes <$> [[9]; [10]; [11]; [12]; [13]; [32];
             [194; 133]; [194; 160]; [225; 154; 128];
             [226; 128; 128]; [226; 128; 129]; [226; 128; 130];
             [226; 128; 131]; [226; 128; 132]; [226; 128; 133];
             [226; 128; 134]; [226; 128; 135]; [226; 128; 136];
             [226; 128; 137]; [226; 128; 138];
             [226; 128; 168]; [226; 128; 169]; [226; 128; 175];
             [226; 129; 159]; [227; 128; 128]]%N.

(** The number of bytes of the rune of [runes] that [s] starts with, 0 when
    it starts with none. *)
Definition rune_width (runes : list string) (s : string) : nat :=
  match find (λ r, bool_decide (String.prefix r s = true)) runes with
  | Some r => String.length r
  | None => 0
  end.

(** Drop the runes of [runes] that [s] starts with; [skip] bytes of the
    rune being dropped are still to go. *)
Fixpoint trim_left (runes : list string) (skip : nat) (s : string) : string :=
  match s with
  | EmptyString => EmptyString
  | String c s' =>
      match skip with
      | S k => trim_left runes k s'
      | O =>
          match rune_width runes s with
          | O => s
          | S k => trim_left runes k s'
          end
      end
  end.

(** [strings.TrimSpace]: the white space runes at the start go, then those
    at the end (the same bytes read backwards). *)
Definition strings_TrimSpace (s : string) : string :=
  String.rev (trim_left (String.rev <$> space_runes) 0
                (String.rev (trim_left space_runes 0 s))).

(** The [Config] that [Load] fills: the token, which only [bot.New]
    reads, beside the fields the handlers read. *)
Record Loaded := mkLoaded {
  DiscordToken : string;
  Config : config.Config
}.

(** The three [fmt.Errorf] of [Load]. *)
Inductive LoadError :=
| TokenNotSet
| ChannelIDNotSet
| KeyNot32Bytes (got : nat).

Definition Load (env : gmap string string) : Loaded + LoadError :=
  let token := Getenv env "DISCORD_TOKEN" in
  if decide (token = "") then inr TokenNotSet else
  let channelID := Getenv env "DISCORD_CHANNEL_ID" in
  if decide (channelID = "") then inr ChannelIDNotSet else
  let allowedUsersStr := Getenv env "ALLOWED_USERS" in
  let allowedUsers :=
    if decide (allowedUsersStr ≠ "")
    then strings_TrimSpace <$> strings_Split allowedUsersStr ","%char
    else [] in
  let key := Getenv env "ENCRYPTION_KEY" in
  if decide (String.length key ≠ 32%nat) then inr (KeyNot32Bytes (String.length key))
  else inl (mkLoaded token
              (config.mkConfig channelID allowedUsers
                 (String.list_byte_of_string key))).

End environ.

(** ** The interactions the gateway delivers ([discordgo.InteractionCreate]) *)

Module gateway.

Module User.
Record t := mk { ID : string; Username : string }.
End User.

(** [Member.User] is a pointer. *)
Module Member.
Record t := mk { User : option User.t }.
End Member.

Inductive InteractionType :=
| InteractionPing
| InteractionApplicationCommand
| InteractionMessageComponent
| InteractionApplicationCommandAutocomplete
| InteractionModalSubmit.

#[global] Instance InteractionType_eq_dec : EqDecision InteractionType.
Proof. solve_decision. Defined.

(** The value of a command option, by its declared type. *)
Inductive OptionValue :=
| StringValue (s : string)
| IntegerValue (n : Z)
| OtherValue.

(** [ApplicationCommandData()]: the command name, its options, and the
    attachments resolved for it, by id. *)
Module ApplicationCommandInteractionData.
Record t := mk {
  Name : string;
  Options : list OptionValue;
  Attachments : gmap string bot.Attachment
}.
End ApplicationCommandInteractionData.

(** [Member] is set for a command used in a server, [User] for one used
    in a direct message; both are pointers.  [Type'] is the field
    [Type]. *)
Module InteractionCreate.
Record t := mk {
  Type' : InteractionType;
  Member : option Member.t;
  User : option User.t;
  Data : ApplicationCommandInteractionData.t
}.
End InteractionCreate.

End gateway.

(** ** Handlers that log and answer beyond [State]

    What the dispatcher, [handleList], [handleHelp] and [handleListFiles]
    log and send, in order, is kept beside the vault. *)

(** The pieces [handleList] writes to its [strings.Builder]: the heading,
    ["*Empty*"], and one line per file. *)
Inductive AssetsFragment :=
| AssetsHeader
| AssetsEmpty
| AssetsLine (id : Z) (name : string) (size : Formatted).

Inductive Notice :=
| LogBotCommand (name username : string)
| LogBotUnauthorized (username : string)
| LogListFilesFailed (e : error)
| RespondAccessDenied
| RespondPong
| RespondHelp
| RespondAssets (content : list AssetsFragment).

Record Process := mkProcess {
  vault : State;
  notices : list Notice
}.

(** How a statement ends: it goes on with a value, it has executed
    [return], or it has panicked. *)
Inductive Exit (A : Type) :=
| Continue (a : A)
| Returned
| Panicked.
Arguments Continue {A} a.
Arguments Returned {A}.
Arguments Panicked {A}.

Definition G (A : Type) : Type := Process → Process * Exit A.

#[global] Instance G_ret : MRet G := λ A a p, (p, Continue a).
#[global] Instance G_bind : MBind G := λ A B f m p,
  match m p with
  | (p', Continue a) => f a p'
  | (p', Returned) => (p', Returned)
  | (p', Panicked) => (p', Panicked)
  end.

Definition G_return {A} : G A := λ p, (p, Returned).
Definition panic {A} : G A := λ p, (p, Panicked).

(** A statement of [M] run on the vault. *)
Definition lift {A} (m : M A) : G A :=
  λ p, let '(st, r) := m (vault p) in
       (mkProcess st (notices p),
        match r with Some a => Continue a | None => Returned end).

(** A handler of [M] called to its end: the caller goes on. *)
Definition call (h : M unit) : G unit :=
  λ p, (mkProcess (h (vault p)).1 (notices p), Continue tt).

Definition notice (n : Notice) : G unit :=
  λ p, (mkProcess (vault p) (notices p ++ [n]), Continue tt).

(** Reading through a pointer, an index or a type assertion: [None] is
    the nil pointer, the index out of range, the other type. *)
Definition deref {A} (ptr : option A) : G A :=
  match ptr with
  | Some a => mret a
  | None => panic
  end.

(** ** The bot's dispatcher and its small commands *)

Module commands.

Import gateway.

(** [for _, id := range b.Config.AllowedUsers { if id == userID { return true } }; return false] *)
Fixpoint range_AllowedUsers (ids : list string) (userID : string) : bool :=
  match ids with
  | [] => false
  | id :: ids' => if decide (id = userID) then true
                  else range_AllowedUsers ids' userID
  end.

Definition checkPermission (b : bot.Bot) (i : InteractionCreate.t) : G bool :=
  if decide (length (config.AllowedUsers (bot.Config b)) = 0%nat)
  then mret true
  else
    userID ← match InteractionCreate.Member i with
             | Some member =>
                 user ← deref (Member.User member);
                 mret (User.ID user)
             | None =>
                 match InteractionCreate.User i with
                 | Some user => mret (User.ID user)
                 | None => mret ""
                 end
             end;
    mret (range_AllowedUsers (config.AllowedUsers (bot.Config b)) userID).

Definition handleHelp : G unit := notice RespondHelp.

(** [for _, f := range files { sb.WriteString(fmt.Sprintf(..., formatBytes(f.Size))) }] *)
Fixpoint write_lines (files : list database.FileMetadata.t)
  : G (list AssetsFragment) :=
  match files with
  | [] => mret []
  | f :: files' =>
      size ← deref (format.formatBytes (database.FileMetadata.Size f));
      lines ← write_lines files';
      mret (AssetsLine (database.FileMetadata.ID f)
                       (database.FileMetadata.Name f) size :: lines)
  end.

Definition handleList (created_at : Z → Z) (b : bot.Bot) : G unit :=
  r ← lift (db (listing.ListFiles created_at));
  let files := match r with Ok files => files | Err _ => [] end in
  lines ← write_lines files;
  notice (RespondAssets
            (AssetsHeader
               :: (if decide (length files = 0%nat) then [AssetsEmpty] else [])
               ++ lines)).

Definition interactionCreate (created_at : Z → Z) (b : bot.Bot)
    (i : InteractionCreate.t) : G unit :=
  if decide (InteractionCreate.Type' i ≠ InteractionApplicationCommand)
  then G_return
  else
    let data := InteractionCreate.Data i in
    member ← deref (InteractionCreate.Member i);
    user ← deref (match Member.User member with
                  | Some user => Some user
                  | None => InteractionCreate.User i
                  end);
    notice (LogBotCommand (ApplicationCommandInteractionData.Name data)
                          (User.Username user)) ;;
    permitted ← checkPermission b i;
    if negb permitted
    then
      notice (LogBotUnauthorized (User.Username user)) ;;
      notice RespondAccessDenied ;;
      G_return
    else
      let name := ApplicationCommandInteractionData.Name data in
      let options := ApplicationCommandInteractionData.Options data in
      if decide (name = "help") then handleHelp
      else if decide (name = "ping") then notice RespondPong
      else if decide (name = "list") then handleList created_at b
      else if decide (name = "upload") then
        option0 ← deref (options !! 0%nat);
        key ← deref (match option0 with StringValue s => Some s | _ => None end);
        attachment ← deref (ApplicationCommandInteractionData.Attachments data !! key);
        call (bot.handleUpload b attachment)
      else if decide (name = "delete") then
        option0 ← deref (options !! 0%nat);
        id ← deref (match option0 with IntegerValue n => Some n | _ => None end);
        call (bot.handleDelete b id)
      else mret tt.

End commands.

(** ** [handleListFiles] of the server *)

Module api.

(** [json_Encode files] stands for what [json.NewEncoder(w).Encode(files)]
    writes. *)
Definition handleListFiles (created_at : Z → Z)
    (json_Encode : list database.FileMetadata.t → list byte)
    (s : server.Server) : G unit :=
  r ← lift (db (listing.ListFiles created_at));
  match r with
  | Err err =>
      notice (LogListFilesFailed err) ;;
      lift (http_Error "Database error" StatusInternalServerError) ;;
      G_return
  | Ok files =>
      lift (Header_Set "Content-Type" "application/json") ;;
      lift (Write (json_Encode files))
  end.

End api.

(** An environment for [Load], and a member of the server whose id is on
    its list. *)
Definition demo_env : gmap string string :=
  {[ "DISCORD_TOKEN" := "token"; "DISCORD_CHANNEL_ID" := "storage";
     "ALLOWED_USERS" := "12, 34";
     "ENCRYPTION_KEY" := "kkkkkkkkkkkkkkkkkkkkkkkkkkkkkkkk" ]}.

Definition demo_config : config.Config :=
  config.mkConfig "storage" ["12"; "34"] demo_key.

Definition demo_user : gateway.User.t := gateway.User.mk "34" "ada".

Definition demo_stranger : gateway.User.t := gateway.User.mk "56" "eve".

(** The command [name] with [options], sent by [u] in a server. *)
Definition demo_command (u : gateway.User.t) (name : string)
    (options : list gateway.OptionValue) : gateway.InteractionCreate.t :=
  gateway.InteractionCreate.mk gateway.InteractionApplicationCommand
    (Some (gateway.Member.mk (Some u))) None
    (gateway.ApplicationCommandInteractionData.mk name options ∅).

Definition demo_process (st : State) : Process := mkProcess st [].

(** The parts of a form that [handleUpload] reads, those named "file";
    their contents one after the other; and the buffers the read loop cuts
    them into, part by part. *)
Definition file_parts (parts : list multipart.Part) : list multipart.Part :=
  filter (λ p, multipart.FormName p = "file") parts.

Definition parts_stream (parts : list multipart.Part) : list byte :=
  file_parts parts ≫= multipart.content.

Definition parts_chunks (parts : list multipart.Part) : list (list byte) :=
  file_parts parts ≫= (λ p, chunks_of bot.ChunkSize (multipart.content p)).

(** A form with a text field and two file parts. *)
Definition demo_form : list multipart.Part :=
  [multipart.mkPart "note" "" ["x"]%byte;
   multipart.mkPart "file" "a.bin" ["h"; "i"]%byte;
   multipart.mkPart "file" "b.bin" ["!"]%byte].

(** The response after [http.Error(w, "Decentralized storage rejection",
    500)]. *)
Definition rejection (w : ResponseWriter) : ResponseWriter :=
  mkResponseWriter (Some (default StatusInternalServerError (status w)))
    (header w)
    (body w ++ String.list_byte_of_string "Decentralized storage rejection"
            ++ ["010"%byte]).

(** A new vault whose remote service takes one call and fails the next. *)
Definition demo_flaky : State :=
  set_Session (discordgo.mkSession ∅ ∅ ∅ [false; true]) demo_empty.

(** ** [strconv.Atoi], on a 64-bit [int] *)

Module strconv.

Import Stdlib.Strings.Ascii.

Inductive NumError := ErrSyntax | ErrRange.

(** The value of a byte as a decimal digit. *)
Definition digit (c : ascii) : option Z :=
  let n := Z.of_N (N_of_ascii c) in
  if decide (48 ≤ n ≤ 57) then Some (n - 48) else None.

(** The loop of [ParseUint(s, 10, 64)]: it stops at the first byte that is
    no digit, or where the number no longer fits 64 bits, whichever comes
    first; on overflow it returns the largest [uint64]. *)
Fixpoint ParseUint_loop (s : string) (n : Z) : Z * option NumError :=
  match s with
  | EmptyString => (n, None)
  | String c s' =>
      match digit c with
      | None => (0, Some ErrSyntax)
      | Some d =>
          if decide (2 ^ 64 - 1 < n * 10 + d) then (2 ^ 64 - 1, Some ErrRange)
          else ParseUint_loop s' (n * 10 + d)
      end
  end.

Definition ParseUint (s : string) : Z * option NumError :=
  if decide (s = "") then (0, Some ErrSyntax) else ParseUint_loop s 0.

(** [ParseInt(s, 10, 0)]: an optional sign, then [ParseUint]; out of range
    it returns the nearest [int64]. *)
Definition ParseInt (s : string) : Z * option NumError :=
  match s with
  | EmptyString => (0, Some ErrSyntax)
  | String c rest =>
      let neg := bool_decide (c = "-"%char) in
      let s' := if decide (c = "+"%char ∨ c = "-"%char) then rest else s in
      let '(un, err) := ParseUint s' in
      match err with
      | Some ErrSyntax => (0, Some ErrSyntax)
      | _ =>
          if decide (neg = false ∧ 2 ^ 63 ≤ un) then (2 ^ 63 - 1, Some ErrRange)
          else if decide (neg = true ∧ 2 ^ 63 < un) then (- 2 ^ 63, Some ErrRange)
          else (if neg then - un else un, None)
      end
  end.

(** [Atoi(s)]: its fast path for short strings gives what [ParseInt]
    gives. *)
Definition Atoi (s : string) : Z * option NumError := ParseInt s.

End strconv.

(** ** [handleDownload] from the request on *)

Module route.

(** [id, _ := strconv.Atoi(mux.Vars(r)["id"])], then the handler. *)
Definition handleDownload (s : server.Server) (vars_id : string) : M unit :=
  let '(id, _) := strconv.Atoi vars_id in
  server.handleDownload s id.

End route.

(** * Properties *)

(** ** Bytes and the cipher *)

Section bytes.

Implicit Types a b c : byte.

Lemma to_bits_inj a b : Byte.to_bits a = Byte.to_bits b → a = b.
Proof.
  intros H. rewrite <- (Byte.of_bits_to_bits a), <- (Byte.of_bits_to_bits b).
  now rewrite H.
Qed.

Lemma to_bits_bxor a b :
  Byte.to_bits (bxor a b) = xor_bits (Byte.to_bits a) (Byte.to_bits b).
Proof. unfold bxor. apply Byte.to_bits_of_bits. Qed.

Lemma bxor_comm a b : bxor a b = bxor b a.
Proof.
  apply to_bits_inj. rewrite !to_bits_bxor.
  destruct (Byte.to_bits a) as (a0 & a1 & a2 & a3 & a4 & a5 & a6 & a7).
  destruct (Byte.to_bits b) as (b0 & b1 & b2 & b3 & b4 & b5 & b6 & b7).
  cbn.
  now rewrite (xorb_comm a0), (xorb_comm a1), (xorb_comm a2), (xorb_comm a3),
    (xorb_comm a4), (xorb_comm a5), (xorb_comm a6), (xorb_comm a7).
Qed.

Lemma bxor_assoc a b c : bxor a (bxor b c) = bxor (bxor a b) c.
Proof.
  apply to_bits_inj. rewrite !to_bits_bxor.
  destruct (Byte.to_bits a) as (a0 & a1 & a2 & a3 & a4 & a5 & a6 & a7).
  destruct (Byte.to_bits b) as (b0 & b1 & b2 & b3 & b4 & b5 & b6 & b7).
  destruct (Byte.to_bits c) as (c0 & c1 & c2 & c3 & c4 & c5 & c6 & c7).
  cbn. now rewrite !xorb_assoc.
Qed.

Lemma bxor_nilpotent a : bxor a a = x00.
Proof.
  apply to_bits_inj. rewrite to_bits_bxor.
  destruct (Byte.to_bits a) as (a0 & a1 & a2 & a3 & a4 & a5 & a6 & a7).
  cbn. now rewrite !xorb_nilpotent.
Qed.

Lemma bxor_0_r a : bxor a x00 = a.
Proof.
  apply to_bits_inj. rewrite to_bits_bxor.
  destruct (Byte.to_bits a) as (a0 & a1 & a2 & a3 & a4 & a5 & a6 & a7).
  cbn. now rewrite !xorb_false_r.
Qed.

Lemma bxor_0_l a : bxor x00 a = a.
Proof. rewrite bxor_comm. apply bxor_0_r. Qed.

Lemma bxor_involutive a b : bxor (bxor a b) b = a.
Proof. now rewrite <- bxor_assoc, bxor_nilpotent, bxor_0_r. Qed.

Lemma bxor_cancel_l a b c : bxor a b = bxor a c → b = c.
Proof.
  intros H.
  rewrite <- (bxor_0_l b), <- (bxor_nilpotent a), <- bxor_assoc, H,
    bxor_assoc, bxor_nilpotent.
  apply bxor_0_l.
Qed.

End bytes.

Section cipher.

Implicit Types key nonce data body : list byte.

Lemma xor_stream_length key nonce i data :
  length (crypto.xor_stream key nonce i data) = length data.
Proof. revert i. induction data as [|b data IH]; intros i; cbn; [done|]. now rewrite IH. Qed.

Lemma xor_stream_involutive key nonce i data :
  crypto.xor_stream key nonce i (crypto.xor_stream key nonce i data) = data.
Proof.
  revert i. induction data as [|b data IH]; intros i; cbn; [done|].
  now rewrite bxor_involutive, IH.
Qed.

(** *** The frame *)

Lemma frame_length data : length (crypto.frame data) = (2 * length data + 1)%nat.
Proof. induction data as [|b data IH]; cbn; [done|]. rewrite IH. lia. Qed.

Lemma unframe_frame data rest :
  crypto.unframe (crypto.frame data ++ rest) = Some (data, rest).
Proof.
  induction data as [|b data IH]; cbn.
  - now destruct (decide (x00 = x00)).
  - destruct (decide (x01 = x00)) as [?|_]; [done|].
    destruct (decide (x01 = x01)) as [_|?]; [|done].
    now rewrite IH.
Qed.

Lemma unframe_Some l data rest :
  crypto.unframe l = Some (data, rest) → l = crypto.frame data ++ rest.
Proof.
  revert l. induction data as [|b data IH]; intros [|m l]; cbn; try done.
  - destruct (decide (m = x00)) as [->|_]; [now intros [= <-]|].
    destruct (decide (m = x01)) as [_|_]; [|done].
    destruct l as [|b l]; [done|].
    now destruct (crypto.unframe l) as [[??]|].
  - destruct (decide (m = x00)) as [->|_]; [done|].
    destruct (decide (m = x01)) as [->|_]; [|done].
    destruct l as [|b' l]; [done|].
    destruct (crypto.unframe l) as [[data' rest']|] eqn:Hl; [|done].
    intros [= -> -> ->]. now rewrite (IH l).
Qed.

(** A frame says where it ends: what follows it is not part of it. *)
Lemma frame_app_inj data data' rest rest' :
  crypto.frame data ++ rest = crypto.frame data' ++ rest' →
  data = data' ∧ rest = rest'.
Proof.
  intros H. apply (f_equal crypto.unframe) in H.
  rewrite !unframe_frame in H. now injection H.
Qed.

(** *** The running digest *)

Lemma sbox_inv_sbox (b : byte) : crypto.sbox_inv (crypto.sbox b) = b.
Proof. destruct b; reflexivity. Qed.

Lemma sbox_inj (a b : byte) : crypto.sbox a = crypto.sbox b → a = b.
Proof. intros H. now rewrite <- (sbox_inv_sbox a), H, sbox_inv_sbox. Qed.

Lemma absorb_length (s : list byte) (b : byte) :
  length (crypto.absorb s b) = length s.
Proof. apply length_fmap. Qed.

(** The state tells the byte that went in. *)
Lemma absorb_inj (s : list byte) (a b : byte) :
  s ≠ [] → crypto.absorb s a = crypto.absorb s b → a = b.
Proof.
  destruct s as [|x s]; [done|]. intros _ [= H%sbox_inj _].
  now apply bxor_cancel_l in H.
Qed.

Lemma digest_length s data :
  length (crypto.digest s data) = (length s * length data)%nat.
Proof.
  revert s. induction data as [|b data IH]; intros s; cbn; [lia|].
  rewrite length_app, IH, absorb_length. lia.
Qed.

(** No two inputs have the same digest, and the digest of a longer input
    only extends the digest of a shorter one that it extends. *)
Lemma digest_prefix s data data' d :
  s ≠ [] →
  crypto.digest s data = crypto.digest s data' ++ d →
  ∃ e, data = data' ++ e ∧ length d = (length s * length e)%nat.
Proof.
  revert s data. induction data' as [|b' data' IH]; intros s data Hs H.
  - exists data. split; [done|]. cbn in H. now rewrite <- H, digest_length.
  - destruct data as [|b data].
    + cbn in H. apply (f_equal length) in H.
      rewrite !length_app, absorb_length in H. destruct s; [done|].
      cbn in H. lia.
    + cbn in H. rewrite <- app_assoc in H.
      apply app_inj_1 in H as [Hb H]; [|now rewrite !absorb_length].
      apply absorb_inj in Hb as ->; [|done].
      apply IH in H as (e & -> & He).
      * exists e. now rewrite absorb_length in He.
      * intros Hnil. apply (f_equal length) in Hnil.
        rewrite absorb_length in Hnil. now destruct s.
Qed.

Lemma digest_inj s data data' :
  s ≠ [] → crypto.digest s data = crypto.digest s data' → data = data'.
Proof.
  intros Hs H. rewrite <- (app_nil_r (crypto.digest s data')) in H.
  apply digest_prefix in H as (e & -> & He); [|done].
  destruct e; [now rewrite app_nil_r|]. destruct s; [done|]. cbn in He. lia.
Qed.

(** *** Counting the bytes that differ *)

Lemma hamming_refl (l : list byte) : hamming l l = 0%nat.
Proof. induction l as [|b l IH]; cbn; [done|]. now rewrite decide_True. Qed.

Lemma hamming_app (a a' b b' : list byte) :
  length a = length a' →
  hamming (a ++ b) (a' ++ b') = (hamming a a' + hamming b b')%nat.
Proof.
  revert a'. induction a as [|x a IH]; intros [|x' a'] Hlen; try done.
  cbn in *. rewrite IH by lia. lia.
Qed.

Lemma hamming_0 (l l' : list byte) :
  length l = length l' → hamming l l' = 0%nat → l = l'.
Proof.
  revert l'. induction l as [|b l IH]; intros [|b' l'] Hlen; try done.
  cbn in *. destruct (decide (b = b')) as [->|_]; [|done].
  intros H. f_equal. apply IH; lia.
Qed.

Lemma hamming_insert (l : list byte) (i : nat) (b : byte) :
  (hamming l (<[i := b]> l) ≤ 1)%nat.
Proof.
  revert i. induction l as [|a l IH]; intros [|i]; cbn; try lia.
  - rewrite hamming_refl. destruct (decide (a = b)); lia.
  - rewrite decide_True by done. apply IH.
Qed.

Lemma hamming_frame data data' :
  length data = length data' →
  hamming (crypto.frame data) (crypto.frame data') = hamming data data'.
Proof.
  revert data'. induction data as [|b data IH]; intros [|b' data'] Hlen; try done.
  cbn in *. rewrite IH by lia. done.
Qed.

(** Another byte in: every byte of the state differs. *)
Lemma hamming_absorb (s : list byte) (a b : byte) :
  a ≠ b → hamming (crypto.absorb s a) (crypto.absorb s b) = length s.
Proof.
  intros Hne. induction s as [|x s IH]; cbn; [done|].
  fold (crypto.absorb s a) (crypto.absorb s b). rewrite IH.
  destruct (decide (crypto.sbox (bxor x a) = crypto.sbox (bxor x b)))
    as [H%sbox_inj|_]; [|done].
  now apply bxor_cancel_l in H.
Qed.

(** Two inputs of one length that differ: their digests differ in a
    whole state at least. *)
Lemma digest_hamming (s : list byte) (x x' : list byte) :
  length x = length x' → x ≠ x' →
  (length s ≤ hamming (crypto.digest s x) (crypto.digest s x'))%nat.
Proof.
  revert s x'. induction x as [|a x IH]; intros s [|a' x'] Hlen Hne; try done.
  cbn [crypto.digest]. cbv zeta.
  rewrite hamming_app by now rewrite !absorb_length.
  destruct (decide (a = a')) as [->|Ha].
  - assert (x ≠ x') as Hx by congruence.
    specialize (IH (crypto.absorb s a') x' ltac:(cbn in Hlen; lia) Hx).
    rewrite absorb_length in IH. lia.
  - rewrite hamming_absorb by done. lia.
Qed.

(** *** Sealing and opening *)

Lemma Decrypt_framed key nonce body (t : list byte) :
  length nonce = crypto.NonceSize →
  crypto.Decrypt (nonce ++ crypto.frame body ++ t) key =
    if decide (t = crypto.tag key nonce body)
    then Ok (crypto.xor_stream key nonce 0 body)
    else Err ErrAuthentication.
Proof.
  intros Hn. unfold crypto.Decrypt.
  rewrite decide_False by (rewrite length_app; lia).
  rewrite <- Hn, take_app_length, drop_app_length.
  now rewrite unframe_frame.
Qed.

Lemma Decrypt_Seal key nonce data :
  length nonce = crypto.NonceSize →
  crypto.Decrypt (crypto.Seal key nonce data) key = Ok data.
Proof.
  intros Hn. unfold crypto.Seal. rewrite Decrypt_framed by done.
  rewrite decide_True by done. now rewrite xor_stream_involutive.
Qed.

(** [Decrypt] has one error. *)
Lemma Decrypt_Err (c key : list byte) (e : error) :
  crypto.Decrypt c key = Err e → e = ErrAuthentication.
Proof.
  unfold crypto.Decrypt. repeat case_match; congruence.
Qed.

(** What [Decrypt] accepts is a whole sealing under its key, and what it
    returns is the plaintext that was sealed. *)
Lemma Decrypt_Ok_sealed (c key data : list byte) :
  crypto.Decrypt c key = Ok data →
  ∃ nonce, length nonce = crypto.NonceSize ∧ c = crypto.Seal key nonce data.
Proof.
  unfold crypto.Decrypt.
  destruct (decide (length c < crypto.NonceSize)%nat) as [?|Hlen]; [done|].
  destruct (crypto.unframe _) as [[body t]|] eqn:Hu; [|done].
  apply unframe_Some in Hu.
  destruct (decide (t = _)) as [->|_]; [|done]. intros [= <-].
  exists (take crypto.NonceSize c). split; [rewrite length_take; lia|].
  unfold crypto.Seal. rewrite xor_stream_involutive, <- Hu.
  now rewrite take_drop.
Qed.

(** A sealing determines key, nonce and plaintext, and nothing can be
    added to it to give another sealing. *)
Lemma Seal_app_inj key key' nonce nonce' data data' (d : list byte) :
  length nonce = crypto.NonceSize → length nonce' = crypto.NonceSize →
  crypto.Seal key nonce data ++ d = crypto.Seal key' nonce' data' →
  key = key' ∧ nonce = nonce' ∧ data = data' ∧ d = [].
Proof.
  intros Hn Hn'. unfold crypto.Seal, crypto.tag. rewrite <- !app_assoc.
  intros [-> [Hbody Htag]%frame_app_inj]%app_inj_1; [|congruence].
  symmetry in Htag. apply digest_prefix in Htag as (e & He & Hlen); [|done].
  rewrite <- !app_assoc in He.
  apply frame_app_inj in He as [-> He].
  rewrite Hbody in He. rewrite !app_assoc in He.
  rewrite <- (app_nil_r (nonce' ++ _)) in He at 1.
  apply app_inv_head in He as <-.
  destruct d; [|done]. repeat split; try done.
  rewrite <- (xor_stream_involutive key nonce' 0 data), Hbody.
  apply xor_stream_involutive.
Qed.

Lemma Seal_inj key key' nonce nonce' data data' :
  length nonce = crypto.NonceSize → length nonce' = crypto.NonceSize →
  crypto.Seal key nonce data = crypto.Seal key' nonce' data' →
  key = key' ∧ nonce = nonce' ∧ data = data'.
Proof.
  intros Hn Hn' H. rewrite <- (app_nil_r (crypto.Seal key _ _)) in H.
  apply Seal_app_inj in H; [|done..]. tauto.
Qed.

Lemma Seal_length key nonce data :
  length (crypto.Seal key nonce data)
  = (length nonce + (2 * length data + 1)
     + 16 * (2 * length key + 1 + length nonce + length data))%nat.
Proof.
  unfold crypto.Seal, crypto.tag.
  rewrite !length_app, digest_length, !length_app, !frame_length,
    xor_stream_length. cbn [crypto.iv length]. lia.
Qed.

(** Encrypted under a different key. *)
Lemma Decrypt_Seal_other_key key key' nonce data :
  length nonce = crypto.NonceSize → key' ≠ key →
  crypto.Decrypt (crypto.Seal key nonce data) key' = Err ErrAuthentication.
Proof.
  intros Hn Hne.
  destruct (crypto.Decrypt _ key') as [p|e] eqn:H;
    [|now apply Decrypt_Err in H as ->].
  apply Decrypt_Ok_sealed in H as (nonce' & Hn' & H).
  apply Seal_inj in H as (-> & _); done.
Qed.

(** Truncated. *)
Lemma Decrypt_Seal_truncated key key' nonce data (m : nat) :
  length nonce = crypto.NonceSize →
  (m < length (crypto.Seal key nonce data))%nat →
  crypto.Decrypt (take m (crypto.Seal key nonce data)) key'
  = Err ErrAuthentication.
Proof.
  intros Hn Hm.
  destruct (crypto.Decrypt _ key') as [p|e] eqn:H;
    [|now apply Decrypt_Err in H as ->].
  apply Decrypt_Ok_sealed in H as (nonce' & Hn' & H).
  pose proof (take_drop m (crypto.Seal key nonce data)) as Hc.
  rewrite H in Hc. apply Seal_app_inj in Hc as (_ & _ & _ & Hd); [|done..].
  apply (f_equal length) in Hd. rewrite length_drop in Hd. cbn in Hd. lia.
Qed.

(** Followed by more bytes. *)
Lemma Decrypt_Seal_extended key key' nonce data (d : list byte) :
  length nonce = crypto.NonceSize → d ≠ [] →
  crypto.Decrypt (crypto.Seal key nonce data ++ d) key'
  = Err ErrAuthentication.
Proof.
  intros Hn Hd.
  destruct (crypto.Decrypt _ key') as [p|e] eqn:H;
    [|now apply Decrypt_Err in H as ->].
  apply Decrypt_Ok_sealed in H as (nonce' & Hn' & H).
  apply Seal_app_inj in H as (_ & _ & _ & ->); done.
Qed.

(** Two sealings of one length under one key differ in seventeen bytes
    at least. *)
Lemma Seal_hamming key nonce nonce' data data' :
  length nonce = crypto.NonceSize → length nonce' = crypto.NonceSize →
  length data = length data' →
  crypto.Seal key nonce data ≠ crypto.Seal key nonce' data' →
  (17 ≤ hamming (crypto.Seal key nonce data) (crypto.Seal key nonce' data'))%nat.
Proof.
  intros Hn Hn' Hlen Hne. unfold crypto.Seal, crypto.tag in *.
  set (body := crypto.xor_stream key nonce 0 data) in *.
  set (body' := crypto.xor_stream key nonce' 0 data') in *.
  assert (length body = length body') as Hb
    by (subst body body'; now rewrite !xor_stream_length).
  rewrite !hamming_app, hamming_frame by (rewrite ?frame_length; lia).
  assert (nonce ++ body ≠ nonce' ++ body') as Hxne.
  { intros [-> Hbody]%app_inj_1; [|lia]. apply Hne. now rewrite Hbody. }
  assert (1 ≤ hamming nonce nonce' + hamming body body')%nat as Hpay.
  { rewrite <- hamming_app by lia.
    destruct (hamming (nonce ++ body) (nonce' ++ body')) eqn:H0; [|lia].
    apply hamming_0 in H0; [done|]. rewrite !length_app. lia. }
  pose proof (digest_hamming crypto.iv
                (crypto.frame key ++ nonce ++ body)
                (crypto.frame key ++ nonce' ++ body')
                ltac:(rewrite !length_app; lia)
                ltac:(intros H%app_inv_head; done)) as Htag.
  cbn [crypto.iv length] in Htag. lia.
Qed.

(** Corrupted: a buffer that differs from a sealed ciphertext in sixteen
    bytes or fewer is rejected. *)
Lemma Decrypt_Seal_altered key nonce data (c' : list byte) :
  length nonce = crypto.NonceSize →
  length c' = length (crypto.Seal key nonce data) →
  c' ≠ crypto.Seal key nonce data →
  (hamming (crypto.Seal key nonce data) c' ≤ 16)%nat →
  crypto.Decrypt c' key = Err ErrAuthentication.
Proof.
  intros Hn Hlen Hne Hham.
  destruct (crypto.Decrypt c' key) as [p|e] eqn:H;
    [|now apply Decrypt_Err in H as ->].
  apply Decrypt_Ok_sealed in H as (nonce' & Hn' & ->).
  rewrite !Seal_length in Hlen.
  pose proof (Seal_hamming key nonce nonce' data p Hn Hn' ltac:(lia)
                ltac:(congruence)). lia.
Qed.

Lemma byte_flipped_hamming (c c' : list byte) :
  byte_flipped c c' →
  length c' = length c ∧ c' ≠ c ∧ (hamming c c' ≤ 1)%nat.
Proof.
  intros (i & b & b' & Hi & Hne & ->). rewrite length_insert.
  split; [done|]. split; [|apply hamming_insert].
  intros Heq. apply (f_equal (λ l, l !! i)) in Heq.
  rewrite list_lookup_insert_eq in Heq by (now apply lookup_lt_Some in Hi).
  congruence.
Qed.

Lemma Decrypt_Seal_flipped key nonce data c' :
  length nonce = crypto.NonceSize →
  byte_flipped (crypto.Seal key nonce data) c' →
  crypto.Decrypt c' key = Err ErrAuthentication.
Proof.
  intros Hn (Hlen & Hne & Hham)%byte_flipped_hamming.
  apply Decrypt_Seal_altered with nonce data; [done..|lia].
Qed.

Lemma Encrypt_Ok data key rand :
  (crypto.NonceSize ≤ length rand)%nat →
  crypto.Encrypt data key rand =
    (drop crypto.NonceSize rand,
     Ok (crypto.Seal key (take crypto.NonceSize rand) data)).
Proof. intros H. unfold crypto.Encrypt. now rewrite decide_True. Qed.

Lemma Encrypt_inv data key rand rand' c :
  crypto.Encrypt data key rand = (rand', Ok c) →
  (crypto.NonceSize ≤ length rand)%nat
  ∧ rand' = drop crypto.NonceSize rand
  ∧ c = crypto.Seal key (take crypto.NonceSize rand) data.
Proof. unfold crypto.Encrypt. case_decide; [|done]. now intros [= <- <-]. Qed.

(** Whatever [Encrypt] returns, [Decrypt] gives the plaintext back. *)
Lemma Decrypt_Encrypt data key rand rand' c :
  crypto.Encrypt data key rand = (rand', Ok c) →
  crypto.Decrypt c key = Ok data.
Proof.
  intros (Hlen & _ & ->)%Encrypt_inv. apply Decrypt_Seal.
  rewrite length_take. lia.
Qed.

End cipher.

(** ** The chunking loop *)

Section chunking.

Context (s : server.Server) (C : positive).

Lemma io_ReadFull_nil : io_ReadFull [] C = ([], Some EOF, []).
Proof. done. Qed.

Lemma io_ReadFull_short (part : list byte) :
  part ≠ [] → (Z.of_nat (length part) < Z.pos C) →
  io_ReadFull part C = (part, Some ErrUnexpectedEOF, []).
Proof.
  intros Hne Hlt. unfold io_ReadFull. destruct part; [done|].
  now rewrite decide_True.
Qed.

Lemma io_ReadFull_full (part : list byte) :
  (Z.pos C ≤ Z.of_nat (length part)) →
  io_ReadFull part C = (take (Pos.to_nat C) part, None, drop (Pos.to_nat C) part).
Proof.
  intros Hle. unfold io_ReadFull. destruct part; [cbn in Hle; lia|].
  rewrite decide_False; [done|lia].
Qed.

Lemma read_loop_unfold part partNum v st :
  server.read_loop s C part partNum v st =
    let '(chunkData, err, rest) := io_ReadFull part C in
    match (if decide (0 < length chunkData)%nat
           then server.upload_chunk s chunkData partNum v st
           else (st, Some (v, partNum))) with
    | (st', None) => (st', None)
    | (st', Some (v', partNum')) =>
        match err with
        | Some _ => (st', Some v')
        | None => server.read_loop s C rest partNum' v' st'
        end
    end.
Proof.
  funelim (server.read_loop s C part partNum v st);
    rewrite Hread; cbn zeta beta iota; now rewrite Heq.
Qed.

(** The loop is its body run on the buffers of [chunks_of], in order. *)
Lemma read_loop_chunks_of part partNum v st :
  server.read_loop s C part partNum v st =
    match upload_chunks s (chunks_of C part) partNum v st with
    | (st', Some (v', _)) => (st', Some v')
    | (st', None) => (st', None)
    end.
Proof.
  revert partNum v st. funelim (chunks_of C part); intros partNum v st.
  - rewrite read_loop_unfold, io_ReadFull_nil. cbn. done.
  - set (part := b :: stream) in *.
    assert (Hne : part ≠ []) by done.
    assert (HposC : (0 < Pos.to_nat C)%nat) by lia.
    rewrite read_loop_unfold.
    destruct (decide (Z.of_nat (length part) < Z.pos C)) as [Hlt|Hge].
    + rewrite io_ReadFull_short by done.
      rewrite take_ge, drop_ge by lia. simp chunks_of. cbn [upload_chunks].
      rewrite decide_True by (destruct part; [done|cbn; lia]).
      destruct (server.upload_chunk s part partNum v st) as [st' [[v' p']|]]; done.
    + rewrite io_ReadFull_full by lia. cbn [upload_chunks].
      rewrite decide_True
        by (rewrite length_take; destruct part; [done|cbn; lia]).
      destruct (server.upload_chunk s (take (Pos.to_nat C) part) partNum v st)
        as [st' [[v' p']|]]; [|done].
      apply H.
Qed.

Lemma concat_chunks_of (stream : list byte) :
  concat (chunks_of C stream) = stream.
Proof.
  funelim (chunks_of C stream); [done|].
  cbn [concat]. rewrite H. apply take_drop.
Qed.

(** A non-empty stream gives full buffers and then a last, non-empty one. *)
Lemma chunks_of_shape (stream : list byte) :
  stream ≠ [] →
  ∃ full last,
    chunks_of C stream = full ++ [last]
    ∧ Forall (λ c, length c = Pos.to_nat C) full
    ∧ (length stream = length full * Pos.to_nat C + length last)%nat
    ∧ (0 < length last ≤ Pos.to_nat C)%nat.
Proof.
  funelim (chunks_of C stream); [done|]. intros _.
  set (part := b :: stream) in *.
  assert (Hlen : (0 < length part)%nat) by (cbn; lia). clearbody part.
  destruct (decide (length part ≤ Pos.to_nat C)%nat) as [Hle|Hgt].
  - exists [], part. rewrite take_ge, drop_ge by done. simp chunks_of.
    split; [done|]. split; [constructor|]. split; [|lia].
    reflexivity.
  - destruct H as (full & last & Heq & Hfull & Hsum & Hlast).
    { intros Hnil. apply (f_equal length) in Hnil.
      rewrite length_drop in Hnil. cbn in Hnil. lia. }
    exists (take (Pos.to_nat C) part :: full), last. rewrite Heq.
    split; [done|]. split; [|split; [|lia]].
    + constructor; [|done]. rewrite length_take. lia.
    + cbn [length]. rewrite length_drop in Hsum. lia.
Qed.

Lemma chunks_of_nil : chunks_of C [] = [].
Proof. now simp chunks_of. Qed.

End chunking.

Lemma ceil_div_last (k l c : Z) :
  0 ≤ k → 0 < l ≤ c →
  (k * c + l + c - 1) `div` c = k + 1
  ∧ (if decide ((k * c + l) `mod` c = 0) then c else (k * c + l) `mod` c) = l.
Proof.
  intros Hk Hl. split.
  - symmetry. apply (Z.div_unique _ _ _ (l - 1)); lia.
  - replace (k * c + l) with (l + k * c) by lia. rewrite Z_mod_plus_full.
    destruct (decide (l = c)) as [->|Hne].
    + rewrite Z_mod_same_full. now rewrite decide_True.
    + rewrite Z.mod_small by lia. rewrite decide_False; lia.
Qed.

(** C4. For a stream of [N] bytes and a buffer of [C] bytes, the read loop
    of the upload handler hands its body the buffers of [chunks_of C], in
    order: they are [ceil(N/C)] many (none for [N = 0]), they concatenate to
    the stream, each has [C] bytes except the last, which has [N mod C]
    bytes, or [C] when [C] divides [N]; none is empty. *)
Theorem read_loop_chunking (s : server.Server) (C : positive)
    (stream : list byte) :
  let N := Z.of_nat (length stream) in
  let cs := chunks_of C stream in
  (∀ partNum v st,
     server.read_loop s C stream partNum v st =
       match upload_chunks s cs partNum v st with
       | (st', Some (v', _)) => (st', Some v')
       | (st', None) => (st', None)
       end)
  ∧ concat cs = stream
  ∧ Z.of_nat (length cs) = (N + Z.pos C - 1) `div` Z.pos C
  ∧ (∀ (i : nat) (c : list byte), cs !! i = Some c →
       Z.of_nat (length c) =
         if decide (S i = length cs)
         then (if decide (N `mod` Z.pos C = 0) then Z.pos C else N `mod` Z.pos C)
         else Z.pos C)
  ∧ [] ∉ cs.
Proof.
  intros N cs. split; [apply read_loop_chunks_of|].
  split; [apply concat_chunks_of|].
  destruct (decide (stream = [])) as [->|Hne].
  { subst N cs. rewrite chunks_of_nil. cbn [length].
    split; [|split; [intros i c; rewrite lookup_nil; done|apply not_elem_of_nil]].
    rewrite Z.div_small; lia. }
  destruct (chunks_of_shape C stream Hne) as (full & last & Heq & Hfull & Hsum & Hlast).
  subst cs. rewrite Heq, length_app. cbn [length].
  assert (HN : N = Z.of_nat (length full) * Z.pos C + Z.of_nat (length last))
    by (subst N; lia).
  destruct (ceil_div_last (Z.of_nat (length full)) (Z.of_nat (length last)) (Z.pos C))
    as [Hdiv Hmod]; [lia|lia|].
  rewrite <- HN in Hmod.
  split; [|split].
  - rewrite HN, Hdiv. lia.
  - intros i c Hi.
    destruct (decide (i < length full)%nat) as [Hlt|Hge].
    + rewrite lookup_app_l in Hi by done.
      rewrite decide_False by lia.
      rewrite Forall_forall in Hfull.
      rewrite (Hfull c); [lia|]. eapply list_elem_of_lookup_2, Hi.
    + apply lookup_lt_Some in Hi as Hi'. rewrite length_app in Hi'. cbn in Hi'.
      assert (i = length full) as -> by lia.
      rewrite list_lookup_middle in Hi by done. injection Hi as <-.
      rewrite decide_True by lia. now rewrite Hmod.
  - intros [Hin|Hin%list_elem_of_singleton]%elem_of_app.
    + rewrite Forall_forall in Hfull. apply Hfull in Hin. cbn in Hin. lia.
    + subst last. cbn in Hlast. lia.
Qed.

(** The loop on sixteen bytes with a buffer of five. *)
Example chunks_of_16_5 :
  length <$> chunks_of 5 (replicate 16 x00) = [5; 5; 5; 1]%nat.
Proof. reflexivity. Qed.

Example chunks_of_15_5 :
  length <$> chunks_of 5 (replicate 15 x00) = [5; 5; 5]%nat.
Proof. reflexivity. Qed.

(** ** The cipher contract *)

(** C8. Under any key, when [Encrypt] has a nonce to draw it returns a
    ciphertext that [Decrypt], under the same key, turns back into the
    plaintext.  [Decrypt] rejects that ciphertext with an authentication
    error, returning no data, as soon as one of its bytes is changed, and
    more generally when up to sixteen of its bytes are; so it does when
    the ciphertext is cut short, under whatever key, and when it is opened
    under another key. *)
Theorem Decrypt_Encrypt_authenticated (p key rand : list byte) :
  (crypto.NonceSize ≤ length rand)%nat →
  ∃ rand' c,
    crypto.Encrypt p key rand = (rand', Ok c)
    ∧ crypto.Decrypt c key = Ok p
    ∧ (∀ c', byte_flipped c c' → crypto.Decrypt c' key = Err ErrAuthentication)
    ∧ (∀ c', length c' = length c → c' ≠ c → (hamming c c' ≤ 16)%nat →
         crypto.Decrypt c' key = Err ErrAuthentication)
    ∧ (∀ m key', (m < length c)%nat →
         crypto.Decrypt (take m c) key' = Err ErrAuthentication)
    ∧ (∀ key', key' ≠ key → crypto.Decrypt c key' = Err ErrAuthentication).
Proof.
  intros Hlen. eexists _, _. split; [now apply Encrypt_Ok|].
  assert (length (take crypto.NonceSize rand) = crypto.NonceSize)
    by (rewrite length_take; lia).
  split; [now apply Decrypt_Seal|].
  split; [intros c'; now apply Decrypt_Seal_flipped|].
  split; [intros c'; now apply Decrypt_Seal_altered|].
  split; [intros m key'; now apply Decrypt_Seal_truncated|].
  intros key'. now apply Decrypt_Seal_other_key.
Qed.

Lemma Decrypt_Encrypt_authenticated_witness :
  (crypto.NonceSize ≤ length (replicate 12 "n"%byte))%nat
  ∧ ∃ rand' c,
      crypto.Encrypt ["h"; "i"]%byte (replicate 32 "k"%byte)
                     (replicate 12 "n"%byte) = (rand', Ok c)
      ∧ crypto.Decrypt c (replicate 32 "k"%byte) = Ok ["h"; "i"]%byte
      ∧ (∀ c', byte_flipped c c' →
               crypto.Decrypt c' (replicate 32 "k"%byte) = Err ErrAuthentication)
      ∧ (∀ c', length c' = length c → c' ≠ c → (hamming c c' ≤ 16)%nat →
           crypto.Decrypt c' (replicate 32 "k"%byte) = Err ErrAuthentication)
      ∧ (∀ m key', (m < length c)%nat →
           crypto.Decrypt (take m c) key' = Err ErrAuthentication)
      ∧ (∀ key', key' ≠ replicate 32 "k"%byte →
           crypto.Decrypt c key' = Err ErrAuthentication).
Proof.
  split; [vm_compute; lia|].
  apply (Decrypt_Encrypt_authenticated ["h"; "i"]%byte (replicate 32 "k"%byte)
           (replicate 12 "n"%byte)).
  vm_compute; lia.
Defined.

(** The same on one ciphertext: cut after the nonce and the first framed
    byte, opened under a key that differs in its first byte, and with the
    case of both letters changed. *)
Example Decrypt_truncated :
  crypto.Decrypt (take 14 (crypto.Seal (replicate 32 "k"%byte)
                             (replicate 12 "n"%byte) ["h"; "i"]%byte))
                 (replicate 32 "k"%byte) = Err ErrAuthentication.
Proof. reflexivity. Qed.

Example Decrypt_other_key :
  crypto.Decrypt (crypto.Seal (replicate 32 "k"%byte)
                    (replicate 12 "n"%byte) ["h"; "i"]%byte)
                 ("j"%byte :: replicate 31 "k"%byte) = Err ErrAuthentication.
Proof. reflexivity. Qed.

Example Decrypt_two_bytes_changed :
  let c := crypto.Seal (replicate 32 "k"%byte) (replicate 12 "n"%byte)
                       ["h"; "i"]%byte in
  c !! 13%nat = Some "m"%byte ∧ c !! 15%nat = Some "l"%byte
  ∧ crypto.Decrypt (<[15%nat := "L"%byte]> (<[13%nat := "M"%byte]> c))
                   (replicate 32 "k"%byte) = Err ErrAuthentication.
Proof. vm_compute. done. Qed.

(** ** The metadata store *)

Section store.

Import database.

Implicit Types db : Database.

Lemma pop_fault_hd tape : pop_fault tape = (hd false tape, tl tape).
Proof. now destruct tape. Qed.

Lemma quiet_hd tape : quiet tape → hd false tape = false.
Proof. now destruct 1. Qed.

Lemma quiet_tl tape : quiet tape → quiet (tl tape).
Proof. destruct 1; [constructor|done]. Qed.

Lemma statement_eq {A} db (run : Database → Database * result A) :
  statement db run =
    if hd false (io_errors db)
    then (set_io_errors (tl (io_errors db)) db, Err ErrIO)
    else run (set_io_errors (tl (io_errors db)) db).
Proof. unfold statement. now rewrite pop_fault_hd. Qed.

Lemma same_tables_refl db : same_tables db db.
Proof. now repeat split. Qed.

Lemma same_tables_trans db1 db2 db3 :
  same_tables db1 db2 → same_tables db2 db3 → same_tables db1 db3.
Proof. unfold same_tables. intuition congruence. Qed.

Lemma same_tables_set_io_errors tape db : same_tables db (set_io_errors tape db).
Proof. now repeat split. Qed.

Lemma length_insert_by_part_num c l :
  length (insert_by_part_num c l) = S (length l).
Proof.
  induction l as [|d l IH]; cbn; [done|]. case_decide; cbn; [done|]. now rewrite IH.
Qed.

Lemma order_by_part_num_cons c l :
  order_by_part_num (c :: l) = insert_by_part_num c (order_by_part_num l).
Proof. done. Qed.

Lemma length_order_by_part_num l : length (order_by_part_num l) = length l.
Proof.
  induction l as [|c l IH]; [done|].
  now rewrite order_by_part_num_cons, length_insert_by_part_num, IH.
Qed.

Lemma insert_by_part_num_perm c l : insert_by_part_num c l ≡ₚ c :: l.
Proof.
  induction l as [|d l IH]; cbn; [done|]. case_decide; [done|].
  rewrite IH. apply Permutation_swap.
Qed.

Lemma order_by_part_num_perm l : order_by_part_num l ≡ₚ l.
Proof.
  induction l as [|c l IH]; [done|].
  now rewrite order_by_part_num_cons, insert_by_part_num_perm, IH.
Qed.

(** Rows already in ascending [part_num] order come back as they are. *)
Lemma order_by_part_num_sorted l :
  Sorted (λ c d, ChunkMetadata.PartNum c ≤ ChunkMetadata.PartNum d) l →
  order_by_part_num l = l.
Proof.
  induction 1 as [|c l Hs IH Hhd]; [done|].
  rewrite order_by_part_num_cons, IH.
  destruct Hhd as [|d l Hcd]; cbn; [done|]. now rewrite decide_True.
Qed.

Lemma GetFile_eq id db :
  GetFile id db =
    let db' := set_io_errors (tl (io_errors db)) db in
    if hd false (io_errors db) then (db', Err ErrIO)
    else match filter (λ f, FileMetadata.ID f = id) (files db) with
         | f :: _ => (db', Ok f)
         | [] => (db', Err ErrNoRows)
         end.
Proof.
  unfold GetFile. rewrite statement_eq. cbn.
  destruct (hd false (io_errors db)); [done|].
  now destruct (filter _ (files db)).
Qed.

Lemma GetChunks_eq id db :
  GetChunks id db =
    let db' := set_io_errors (tl (io_errors db)) db in
    if hd false (io_errors db) then (db', Err ErrIO)
    else (db', Ok (order_by_part_num
                     (filter (λ c, ChunkMetadata.FileID c = id) (chunks db)))).
Proof. unfold GetChunks. rewrite statement_eq. cbn. now destruct (hd false _). Qed.

Lemma DeleteFile_eq id db :
  DeleteFile id db =
    let db' := set_io_errors (tl (io_errors db)) db in
    if hd false (io_errors db) then (db', Some ErrIO)
    else (mkDatabase (foreign_keys db)
            (filter (λ f, FileMetadata.ID f ≠ id) (files db)) (files_seq db)
            (if foreign_keys db
             then filter (λ c, ChunkMetadata.FileID c ≠ id) (chunks db)
             else chunks db)
            (chunks_seq db) (tl (io_errors db)), None).
Proof. unfold DeleteFile. rewrite statement_eq. cbn. now destruct (hd false _). Qed.

Lemma SaveFile_eq name size hash db :
  SaveFile name size hash db =
    let db' := set_io_errors (tl (io_errors db)) db in
    if hd false (io_errors db) then (db', (0, Some ErrIO))
    else if decide (name ∈ FileMetadata.Name <$> files db)
    then (db', (0, Some ErrConstraint))
    else
      let id := next_rowid (files_seq db) (FileMetadata.ID <$> files db) in
      (mkDatabase (foreign_keys db)
         (files db ++ [FileMetadata.mk id name size hash]) id
         (chunks db) (chunks_seq db) (tl (io_errors db)), (id, None)).
Proof.
  unfold SaveFile. rewrite statement_eq. cbn.
  destruct (hd false _); [done|]. now case_decide.
Qed.

Lemma SaveChunk_eq fileID messageID partNum db :
  SaveChunk fileID messageID partNum db =
    let db' := set_io_errors (tl (io_errors db)) db in
    if hd false (io_errors db) then (db', Some ErrIO)
    else if foreign_keys db && bool_decide (fileID ∉ FileMetadata.ID <$> files db)
    then (db', Some ErrConstraint)
    else
      (mkDatabase (foreign_keys db) (files db) (files_seq db)
         (chunks db ++ [ChunkMetadata.mk
                          (next_rowid (chunks_seq db) (ChunkMetadata.ID <$> chunks db))
                          fileID messageID partNum])
         (next_rowid (chunks_seq db) (ChunkMetadata.ID <$> chunks db))
         (tl (io_errors db)), None).
Proof.
  unfold SaveChunk. rewrite statement_eq. cbn.
  destruct (hd false _); [done|].
  now destruct (foreign_keys db && _).
Qed.

(** AUTOINCREMENT never hands out a rowid in use. *)
Lemma next_rowid_fresh seq (rowids : list Z) :
  Forall (λ r, r < next_rowid seq rowids) rowids ∧ seq < next_rowid seq rowids.
Proof.
  unfold next_rowid. induction rowids as [|r rowids [IH1 IH2]]; cbn.
  - split; [constructor|lia].
  - split; [|lia]. constructor; [lia|].
    eapply Forall_impl; [exact IH1|]. cbn. lia.
Qed.

End store.

(** ** [handleDelete] and its goroutines *)

Section delete.

Import server.

Context (s : Server) (id : Z).

Lemma run_schedule_rtc sched c c' :
  run_schedule s id sched c = Some c' → rtc (step s id) c c'.
Proof.
  revert c. induction sched as [|t sched IH]; intros c; cbn.
  - intros [= ->]. constructor.
  - destruct (step_thread s id t c) as [c1|] eqn:Ht; [|done].
    intros Hrun. eapply rtc_l; [|by apply IH]. by exists t.
Qed.

Lemma insert_split {A} (l : list A) i x y :
  l !! i = Some x →
  ∃ l1 l2, l = l1 ++ x :: l2 ∧ <[i := y]> l = l1 ++ y :: l2.
Proof.
  intros Hi. exists (take i l), (drop (S i) l). split.
  - by rewrite take_drop_middle.
  - apply insert_take_drop. by eapply lookup_lt_Some.
Qed.

Lemma length_filter_middle {A} (P : A → Prop) `{!∀ x, Decision (P x)}
    (l1 l2 : list A) x :
  length (filter P (l1 ++ x :: l2)) =
    (length (filter P l1) + (if decide (P x) then 1 else 0)
     + length (filter P l2))%nat.
Proof.
  rewrite filter_app, filter_cons, length_app.
  case_decide; cbn; lia.
Qed.


Ltac run_m :=
  cbv [exec http_Error log_Printf WriteHeader Write Header_Set go respond
       time_Sleep Return mbind M_bind mret M_ret];
  cbn [fst snd set_w set_logs set_DB set_Session set_rand set_spawned
       set_replies DB Session rand logs spawned replies w status header body
       StatusCode default].

Ltac proj := cbn [st main chunks workers semaphore wg trace].

Lemma remote_deletes_app tr1 tr2 :
  remote_deletes (tr1 ++ tr2) = remote_deletes tr1 ++ remote_deletes tr2.
Proof. unfold remote_deletes. apply bind_app. Qed.

Lemma step_main_inv st0 c c' :
  delete_inv st0 id c → step_main s id c = Some c' → delete_inv st0 id c'.
Proof.
  intros (Hsem & Hcap & Hwg & Htr & Hph).
  unfold step_main, delete_inv, delete_phase, in_flight in *.
  destruct (main c) as [|[|chunk rest]| | |] eqn:Hmain.
  - destruct Hph as (Hdb & Hws & Htrace).
    rewrite GetChunks_eq, Hdb. cbn zeta.
    destruct (hd false _) eqn:Hhd; intros [= <-]; proj.
    + repeat (split; [done|]). by left.
    + repeat (split; [done|]). rewrite Hws, Htrace. cbn.
      done.
  - intros [= <-]; proj. destruct Hph as (? & Hids & ?).
    repeat (split; [done|]). rewrite app_nil_r in Hids. done.
  - intros [= <-]; proj. destruct Hph as (? & Hids & ?).
    split; [|split; [done|split; [|split]]].
    + rewrite filter_app, filter_cons, decide_False, length_app by done. cbn. lia.
    + rewrite filter_app, filter_cons, decide_True, length_app by done. cbn. lia.
    + rewrite filter_app, filter_cons, decide_False by done. cbn.
      by rewrite app_nil_r.
    + repeat (split; [done|]). split; [|done].
      rewrite fmap_app, <- app_assoc. done.
  - case_decide; [|done]. intros [= <-]; proj. destruct Hph as (? & ? & ?).
    done.
  - destruct (database.DeleteFile id (DB (st c))) as [db' err].
    intros [= <-]; proj. destruct Hph as (? & ? & ? & ?).
    split; [done|]. split; [done|]. split; [done|]. split.
    + rewrite remote_deletes_app. cbn. by rewrite app_nil_r.
    + right. repeat (split; [done|]). by exists (trace c), err.
  - done.
Qed.

Ltac dec :=
  cbn [holds_slot exited called pc msgID worker_weight];
  repeat first [rewrite decide_True by done | rewrite decide_False by done].

Lemma fmap_msgID_insert (ws : list Worker) i wk pc' :
  ws !! i = Some wk →
  msgID <$> <[i := mkWorker (msgID wk) pc']> ws = msgID <$> ws.
Proof.
  intros Hi. rewrite list_fmap_insert. apply list_insert_id.
  by rewrite list_lookup_fmap, Hi.
Qed.

Lemma delete_phase_worker st0 c i wk pc' st' sem' wg' tr' evs :
  workers c !! i = Some wk →
  wg c ≠ 0%nat →
  DB st' = DB (st c) →
  tr' = trace c ++ evs →
  Forall is_remote_delete evs →
  delete_phase st0 id c →
  delete_phase st0 id (set_worker i (mkWorker (msgID wk) pc') c st' sem' wg' tr').
Proof.
  intros Hi Hwg Hdb -> Hevs. unfold delete_phase, set_worker. proj.
  rewrite (fmap_msgID_insert _ _ _ _ Hi).
  destruct (main c).
  - intros (_ & Hws & _). by rewrite Hws in Hi.
  - intros (? & ? & ?). repeat (split; [done|]). by apply Forall_app.
  - intros (? & ? & ?). repeat (split; [done|]). by apply Forall_app.
  - intros (? & ? & ? & ?). done.
  - intros [(_ & Hws & _)|(? & ? & ? & ?)]; [|done]. by rewrite Hws in Hi.
Qed.

Lemma step_worker_inv st0 i c c' :
  delete_inv st0 id c → step_worker i c = Some c' → delete_inv st0 id c'.
Proof.
  intros (Hsem & Hcap & Hwg & Htr & Hph). unfold step_worker.
  destruct (workers c !! i) as [[m pc0]|] eqn:Hi; [|done].
  assert (pc0 ≠ Exited → wg c ≠ 0%nat) as Hlive.
  { intros Hpc. rewrite Hwg.
    destruct (insert_split _ i _ (mkWorker m pc0) Hi) as (l1 & l2 & -> & _).
    rewrite length_filter_middle. rewrite decide_True; [lia|].
    by destruct pc0. }
  assert (∀ pc' st' sem' wg' tr' evs,
            pc0 ≠ Exited → DB st' = DB (st c) → tr' = trace c ++ evs →
            Forall is_remote_delete evs →
            delete_phase st0 id
              (set_worker i (mkWorker m pc') c st' sem' wg' tr')) as Hph'.
  { intros. eapply (delete_phase_worker _ _ _ (mkWorker m pc0)); eauto. }
  unfold delete_inv, in_flight in *. cbn [pc msgID].
  destruct pc0.
  - case_decide as Hlt; [|done]. intros [= <-].
    split; [|split; [|split; [|split]]];
      [| | | |by apply (Hph' _ _ _ _ _ []); rewrite ?app_nil_r];
      unfold set_worker; proj;
      destruct (insert_split _ i _ (mkWorker m AtDelete) Hi) as (l1 & l2 & Hw & Hw');
      rewrite ?Hw'; rewrite Hw in Hsem, Hwg, Htr.
    + rewrite length_filter_middle in *. revert Hsem. dec. lia.
    + lia.
    + rewrite length_filter_middle in *. revert Hwg. dec. lia.
    + revert Htr. rewrite !filter_app, !filter_cons. dec.
      rewrite ?fmap_app, ?fmap_cons. done.
  - destruct (discordgo.ChannelMessageDelete m (Session (st c))) as [d err].
    intros [= <-].
    split; [|split; [|split; [|split]]];
      [| | | |by apply (Hph' _ _ _ _ _ [EvRemoteDelete m err]);
                 repeat constructor];
      unfold set_worker; proj;
      destruct (insert_split _ i _ (mkWorker m AtRelease) Hi) as (l1 & l2 & Hw & Hw');
      rewrite ?Hw'; rewrite Hw in Hsem, Hwg, Htr.
    + rewrite length_filter_middle in *. revert Hsem. dec. lia.
    + lia.
    + rewrite length_filter_middle in *. revert Hwg. dec. lia.
    + revert Htr. rewrite remote_deletes_app, !filter_app, !filter_cons. dec.
      intros ->. rewrite !fmap_app, fmap_cons. cbn [msgID].
      change (remote_deletes [EvRemoteDelete m err]) with [m].
      rewrite <- Permutation_cons_append, <- Permutation_middle. done.
  - destruct (semaphore c) as [|n] eqn:Hn; [done|]. intros [= <-].
    split; [|split; [|split; [|split]]];
      [| | | |by apply (Hph' _ _ _ _ _ []); rewrite ?app_nil_r];
      unfold set_worker; proj;
      destruct (insert_split _ i _ (mkWorker m AtDone) Hi) as (l1 & l2 & Hw & Hw');
      rewrite ?Hw'; rewrite Hw in Hsem, Hwg, Htr.
    + rewrite length_filter_middle in *. revert Hsem. dec. lia.
    + lia.
    + rewrite length_filter_middle in *. revert Hwg. dec. lia.
    + revert Htr. rewrite !filter_app, !filter_cons. dec.
      rewrite ?fmap_app, ?fmap_cons. done.
  - intros [= <-].
    split; [|split; [|split; [|split]]];
      [| | | |by apply (Hph' _ _ _ _ _ []); rewrite ?app_nil_r];
      unfold set_worker; proj;
      destruct (insert_split _ i _ (mkWorker m Exited) Hi) as (l1 & l2 & Hw & Hw');
      rewrite ?Hw'; rewrite Hw in Hsem, Hwg, Htr.
    + rewrite length_filter_middle in *. revert Hsem. dec. lia.
    + lia.
    + rewrite length_filter_middle in *. revert Hwg. dec. lia.
    + revert Htr. rewrite !filter_app, !filter_cons. dec.
      rewrite ?fmap_app, ?fmap_cons. done.
  - done.
Qed.


Lemma delete_inv_start st0 : delete_inv st0 id (handleDelete_start st0).
Proof.
  unfold delete_inv, delete_phase, handleDelete_start, semaphore_cap. cbn.
  repeat split; [lia|done].
Qed.

Lemma step_inv st0 c c' :
  delete_inv st0 id c → step s id c c' → delete_inv st0 id c'.
Proof.
  intros Hinv [[|i] Ht]; [by eapply step_main_inv|by eapply step_worker_inv].
Qed.

Lemma reachable_inv st0 c :
  rtc (step s id) (handleDelete_start st0) c → delete_inv st0 id c.
Proof.
  apply (rtc_ind_r (delete_inv st0 id) (handleDelete_start st0));
    [apply delete_inv_start|].
  intros c1 c2 _ Hstep Hinv. by eapply step_inv.
Qed.

Lemma step_store_inv st0 c c' :
  delete_store_inv st0 id c → step s id c c' → delete_store_inv st0 id c'.
Proof.
  unfold delete_store_inv. intros Hinv [[|i] Ht]; cbn in Ht.
  - unfold step_main in Ht. destruct (main c) as [|[|chunk rest]| | |] eqn:Hmain.
    + destruct Hinv as [Hdb Hst]. rewrite GetChunks_eq, Hdb in Ht. cbn in Ht.
      destruct (hd false _) eqn:Hhd; injection Ht as <-; proj; run_m.
      * left. by rewrite Hst.
      * done.
    + by injection Ht as <-.
    + by injection Ht as <-.
    + case_decide; [|done]. by injection Ht as <-.
    + destruct Hinv as (Hhd & Hdb & Hst). rewrite Hdb in Ht.
      rewrite DeleteFile_eq in Ht |- *. cbn in Ht |- *.
      destruct (hd false (tl _)) eqn:Hhd'; injection Ht as <-; proj;
        right; run_m; rewrite Hst; done.
    + done.
  - unfold step_worker in Ht.
    destruct (workers c !! i) as [[m pc0]|]; [|done]. cbn [pc msgID] in Ht.
    destruct pc0.
    + case_decide; [|done]. by injection Ht as <-.
    + destruct (discordgo.ChannelMessageDelete _ _). injection Ht as <-.
      unfold set_worker; proj. by destruct (main c).
    + destruct (semaphore c); [done|]. by injection Ht as <-.
    + by injection Ht as <-.
    + done.
Qed.

Lemma reachable_store_inv st0 c :
  rtc (step s id) (handleDelete_start st0) c → delete_store_inv st0 id c.
Proof.
  apply (rtc_ind_r (delete_store_inv st0 id) (handleDelete_start st0)); [done|].
  intros c1 c2 _ Hstep Hinv. by eapply step_store_inv.
Qed.


Lemma filter_nonempty_lookup {A} (P : A → Prop) `{!∀ x, Decision (P x)}
    (l : list A) :
  length (filter P l) ≠ 0%nat → ∃ i x, l !! i = Some x ∧ P x.
Proof.
  destruct (filter P l) as [|x l'] eqn:Hf; [done|]. intros _.
  assert (x ∈ filter P l) as [HP Hin]%list_elem_of_filter
    by (rewrite Hf; left).
  apply list_elem_of_lookup in Hin as [i Hi]. eauto.
Qed.

(** Whatever the remote deletions answered, some thread can move until the
    handler has returned. *)
Lemma delete_progress st0 c :
  delete_inv st0 id c → main c ≠ Returned → ∃ c', step s id c c'.
Proof.
  intros (Hsem & Hcap & Hwg & _ & _) Hmain.
  assert (∀ i wk, workers c !! i = Some wk → exited wk = false →
                  (holds_slot wk = false → semaphore c = 0%nat) →
                  ∃ c', step s id c c') as Hworker.
  { intros i [m pc0] Hi Hex Hfree.
    assert (is_Some (step_worker i c)) as [c' Hc'];
      [|by exists c', (WorkerThread i)].
    unfold step_worker. rewrite Hi. cbn [pc msgID].
    destruct pc0; try done.
    - rewrite decide_True; [done|]. rewrite Hfree by done.
      unfold semaphore_cap. lia.
    - by destruct (discordgo.ChannelMessageDelete _ _).
    - destruct (semaphore c) eqn:Hn; [|done]. exfalso.
      unfold in_flight in Hsem.
      destruct (insert_split _ i _ (mkWorker m AtRelease) Hi) as (l1 & l2 & Hw & _).
      rewrite Hw, length_filter_middle, decide_True in Hsem by done. lia. }
  assert (is_Some (step_main s id c) → ∃ c', step s id c c') as Hm.
  { intros [c' Hc']. by exists c', MainThread. }
  destruct (main c) as [|[|chunk rest]| | |] eqn:Hpc; try done.
  - apply Hm. unfold step_main. rewrite Hpc.
    destruct (database.GetChunks _ _) as [db' [chunks|e]]; done.
  - apply Hm. unfold step_main. by rewrite Hpc.
  - apply Hm. unfold step_main. by rewrite Hpc.
  - destruct (decide (wg c = 0%nat)) as [Hz|Hnz].
    { apply Hm. unfold step_main. by rewrite Hpc, decide_True. }
    destruct (decide (in_flight c = 0%nat)) as [Hfree|Hbusy].
    + rewrite Hwg in Hnz.
      apply filter_nonempty_lookup in Hnz as (i & wk & Hi & Hex).
      apply (Hworker i wk Hi Hex). intros _. by rewrite Hsem.
    + apply filter_nonempty_lookup in Hbusy as (i & wk & Hi & Hholds).
      apply (Hworker i wk Hi); [by destruct wk as [? []]|].
      by rewrite Hholds.
  - apply Hm. unfold step_main. rewrite Hpc.
    by destruct (database.DeleteFile _ _).
Qed.

Lemma sum_list_middle (l1 l2 : list nat) x :
  sum_list (l1 ++ x :: l2) = (sum_list l1 + x + sum_list l2)%nat.
Proof. rewrite sum_list_with_app. cbn. lia. Qed.

(** Every step uses up one of the steps left: the handler terminates under
    every schedule. *)
Lemma step_decreases c c' :
  step s id c c' → (steps_left id c' < steps_left id c)%nat.
Proof.
  unfold steps_left, main_weight. intros [[|i] Ht]; cbn in Ht.
  - unfold step_main in Ht. destruct (main c) as [|[|chunk rest]| | |] eqn:Hmain.
    + rewrite GetChunks_eq in Ht. cbn in Ht.
      destruct (hd false _); injection Ht as <-; proj; [lia|].
      rewrite length_order_by_part_num. lia.
    + injection Ht as <-; proj. cbn. lia.
    + injection Ht as <-; proj. rewrite fmap_app, sum_list_with_app. cbn. lia.
    + case_decide; [|done]. injection Ht as <-; proj. lia.
    + destruct (database.DeleteFile _ _). injection Ht as <-; proj. lia.
    + done.
  - unfold step_worker in Ht.
    destruct (workers c !! i) as [[m pc0]|] eqn:Hi; [|done]. cbn [pc msgID] in Ht.
    assert (∀ pc' st' sem' wg' tr',
              DB st' = DB (st c) →
              (worker_weight (mkWorker m pc') < worker_weight (mkWorker m pc0))%nat →
              let c' := set_worker i (mkWorker m pc') c st' sem' wg' tr' in
              (match main c' with
               | AtGetChunks =>
                   4 + 5 * length (filter (λ r, database.ChunkMetadata.FileID r = id)
                                          (database.chunks (DB (st c'))))
               | AtRange rest => 3 + 5 * length rest
               | AtWait => 2
               | AtDeleteFile => 1
               | Returned => 0
               end + sum_list (worker_weight <$> workers c')
               < match main c with
                 | AtGetChunks =>
                     4 + 5 * length (filter (λ r, database.ChunkMetadata.FileID r = id)
                                            (database.chunks (DB (st c))))
                 | AtRange rest => 3 + 5 * length rest
                 | AtWait => 2
                 | AtDeleteFile => 1
                 | Returned => 0
                 end + sum_list (worker_weight <$> workers c))%nat) as Hstep.
    { intros pc' st' sem' wg' tr' Hdb Hlt. unfold set_worker. proj. rewrite Hdb.
      destruct (insert_split _ i _ (mkWorker m pc') Hi) as (l1 & l2 & Hw & ->).
      rewrite Hw, !fmap_app, !fmap_cons, !sum_list_middle. lia. }
    destruct pc0.
    + case_decide; [|done]. injection Ht as <-. by apply Hstep; cbn; [|lia].
    + destruct (discordgo.ChannelMessageDelete _ _). injection Ht as <-.
      by apply Hstep; cbn; [|lia].
    + destruct (semaphore c); [done|]. injection Ht as <-.
      by apply Hstep; cbn; [|lia].
    + injection Ht as <-. by apply Hstep; cbn; [|lia].
    + done.
Qed.


Lemma filter_all {A} (P : A → Prop) `{!∀ x, Decision (P x)} (l : list A) :
  Forall P l → filter P l = l.
Proof.
  induction 1 as [|x l HP _ IH]; [done|].
  by rewrite filter_cons, decide_True, IH.
Qed.

Lemma wg_zero_exited st0 c :
  delete_inv st0 id c → wg c = 0%nat → Forall (λ wk, pc wk = Exited) (workers c).
Proof.
  intros (_ & _ & Hwg & _) Hz. rewrite Hwg in Hz.
  apply Forall_forall. intros wk Hin.
  assert (exited wk = false → False) as Hc.
  { intros Hex.
    assert (wk ∈ filter (λ wk, exited wk = false) (workers c)) as Hf
      by (by apply list_elem_of_filter).
    destruct (filter _ (workers c)); [by apply elem_of_nil in Hf|done]. }
  destruct (pc wk) eqn:Hpc; try done; exfalso; apply Hc; unfold exited;
    by rewrite Hpc.
Qed.

(** The metadata deletion closes the trace, after one remote deletion for
    each chunk record of the file. *)
Lemma metadata_delete_last st0 c pre e post :
  delete_inv st0 id c →
  trace c = pre ++ EvMetadataDelete e :: post →
  post = [] ∧ Forall is_remote_delete pre
  ∧ remote_deletes pre
    ≡ₚ database.ChunkMetadata.MessageID <$> file_chunks id (DB st0)
  ∧ Forall (λ wk, pc wk = Exited) (workers c).
Proof.
  intros Hinv Htrace. pose proof Hinv as (_ & _ & _ & Htr & Hph).
  assert (¬ Forall is_remote_delete (trace c)) as Hnot.
  { rewrite Htrace, Forall_app, Forall_cons. cbn. tauto. }
  unfold delete_phase in Hph.
  destruct (main c).
  { destruct Hph as (_ & _ & Hnil). exfalso. apply Hnot. rewrite Hnil. constructor. }
  { by destruct Hph as (_ & _ & ?). }
  { by destruct Hph as (_ & _ & ?). }
  { by destruct Hph as (_ & _ & ? & _). }
  destruct Hph as [(_ & _ & Hnil)|(Hchunks & Hids & Hwg & pre' & e' & Hlast & Hpre')].
  { exfalso. apply Hnot. rewrite Hnil. constructor. }
  assert (post = [] ∧ pre = pre') as [-> ->].
  { rewrite Htrace in Hlast.
    destruct post as [|x post _] using rev_ind.
    - by apply app_inj_tail in Hlast as [-> _].
    - exfalso. rewrite app_comm_cons, app_assoc in Hlast.
      apply app_inj_tail in Hlast as [<- _].
      rewrite Forall_app, Forall_cons in Hpre'. cbn in Hpre'. tauto. }
  pose proof (wg_zero_exited _ _ Hinv Hwg) as Hex.
  repeat (split; [done|]). split; [|done].
  rewrite Htrace, remote_deletes_app in Htr. cbn in Htr.
  rewrite app_nil_r in Htr. rewrite Htr, <- Hchunks, Hids.
  rewrite filter_all; [done|].
  eapply Forall_impl; [exact Hex|]. intros wk Hpc. unfold called. by rewrite Hpc.
Qed.

(** No message is asked to be deleted more often than it has chunk
    records. *)
Lemma remote_deletes_once st0 c :
  delete_inv st0 id c →
  remote_deletes (trace c)
  ⊆+ database.ChunkMetadata.MessageID <$> file_chunks id (DB st0).
Proof.
  intros (_ & _ & _ & Htr & Hph). rewrite Htr.
  assert (msgID <$> filter (λ wk, called wk = true) (workers c)
          ⊆+ msgID <$> workers c) as Hsub.
  { apply fmap_submseteq, sublist_submseteq, sublist_filter. }
  unfold delete_phase in Hph. destruct (main c).
  - destruct Hph as (_ & -> & _). cbn. apply submseteq_nil_l.
  - destruct Hph as (<- & -> & _). etrans; [exact Hsub|].
    apply submseteq_inserts_r. done.
  - destruct Hph as (<- & -> & _). done.
  - destruct Hph as (<- & -> & _). done.
  - destruct Hph as [(_ & -> & _)|(<- & -> & _)]; [|done].
    cbn. apply submseteq_nil_l.
Qed.


End delete.

(** C6. [handleDelete] starts one goroutine per chunk record and lets at
    most eight of them hold a slot of the semaphore at a time.  Along every
    interleaving, and whatever the remote deletions answer: no message is
    asked to be deleted more often than it has chunk records (a failed
    deletion is not tried again); some thread can always move until the
    handler returns, and every step uses up one of finitely many, so a
    failed deletion blocks nothing; the metadata deletion is the last event,
    coming after one remote deletion for each chunk record, when every
    goroutine has exited; and once the chunk records were listed, the
    handler returns only after having issued the metadata deletion. *)
Theorem handleDelete_join_barrier (s : server.Server) (id : Z)
    (st0 : State) (c : server.Threads) :
  rtc (server.step s id) (server.handleDelete_start st0) c →
  (server.in_flight c = server.semaphore c
   ∧ (server.in_flight c ≤ 8)%nat)
  ∧ remote_deletes (server.trace c)
    ⊆+ database.ChunkMetadata.MessageID <$> file_chunks id (DB st0)
  ∧ (∀ pre e post,
       server.trace c = pre ++ server.EvMetadataDelete e :: post →
       post = [] ∧ Forall is_remote_delete pre
       ∧ remote_deletes pre
         ≡ₚ database.ChunkMetadata.MessageID <$> file_chunks id (DB st0)
       ∧ Forall (λ wk, server.pc wk = server.Exited) (server.workers c))
  ∧ (server.main c ≠ server.Returned → ∃ c', server.step s id c c')
  ∧ (∀ c', server.step s id c c' → (steps_left id c' < steps_left id c)%nat)
  ∧ (server.main c = server.Returned →
     hd false (database.io_errors (DB st0)) = false →
     ∃ pre e, server.trace c = pre ++ [server.EvMetadataDelete e]).
Proof.
  intros Hinv%reachable_inv.
  split; [|split; [|split; [|split; [|split]]]].
  - destruct Hinv as (Hsem & Hcap & _). split; [done|].
    rewrite <- Hsem. exact Hcap.
  - by eapply remote_deletes_once.
  - intros pre e post. by eapply metadata_delete_last.
  - by eapply delete_progress.
  - apply step_decreases.
  - intros Hret Hhd. destruct Hinv as (_ & _ & _ & _ & Hph).
    unfold delete_phase in Hph. rewrite Hret in Hph.
    destruct Hph as [(Hhd' & _)|(_ & _ & _ & pre & e & ? & _)]; [congruence|eauto].
Qed.

Lemma handleDelete_join_barrier_witness :
  ∃ c,
    server.run_schedule demo_server 1 demo_schedule
      (server.handleDelete_start demo_three_chunks) = Some c
    ∧ server.main c = server.Returned
    ∧ remote_deletes (server.trace c) = ["1"; "2"; "0"]
    ∧ (server.in_flight c = server.semaphore c
       ∧ (server.in_flight c ≤ 8)%nat)
    ∧ remote_deletes (server.trace c)
      ⊆+ database.ChunkMetadata.MessageID
           <$> file_chunks 1 (DB demo_three_chunks)
    ∧ (∀ pre e post,
         server.trace c = pre ++ server.EvMetadataDelete e :: post →
         post = [] ∧ Forall is_remote_delete pre
         ∧ remote_deletes pre
           ≡ₚ database.ChunkMetadata.MessageID
                <$> file_chunks 1 (DB demo_three_chunks)
         ∧ Forall (λ wk, server.pc wk = server.Exited) (server.workers c))
    ∧ (server.main c ≠ server.Returned → ∃ c', server.step demo_server 1 c c')
    ∧ (∀ c', server.step demo_server 1 c c' →
             (steps_left 1 c' < steps_left 1 c)%nat)
    ∧ (server.main c = server.Returned →
       hd false (database.io_errors (DB demo_three_chunks)) = false →
       ∃ pre e, server.trace c = pre ++ [server.EvMetadataDelete e]).
Proof.
  eexists. split; [vm_compute; reflexivity|].
  split; [reflexivity|]. split; [reflexivity|].
  apply (handleDelete_join_barrier demo_server 1 demo_three_chunks).
  apply run_schedule_rtc with demo_schedule. vm_compute. reflexivity.
Defined.

(** Eight goroutines hold the eight slots, and the ninth cannot take one. *)
Example semaphore_full :
  ∃ c,
    server.run_schedule demo_server 1
      (replicate 11 server.MainThread ++ (server.WorkerThread <$> seq 0 8))
      (server.handleDelete_start demo_nine_chunks) = Some c
    ∧ server.in_flight c = 8%nat
    ∧ server.step_worker 8 c = None.
Proof. eexists. split; [vm_compute; reflexivity|]. split; reflexivity. Qed.

Section delete_store.

Import database.

Context (s : server.Server) (id : Z).



(** What [handleDelete] answers depends on nothing but whether its two
    statements went through. *)
Lemma handleDelete_status st st' :
  server.handleDelete s id st st' →
  let tape := io_errors (DB st) in
  StatusCode (w st') =
    if hd false tape then StatusNotFound
    else if hd false (tl tape) then StatusInternalServerError
    else StatusOK.
Proof.
  intros (c & Hrtc%reachable_store_inv & Hret & ->).
  unfold delete_store_inv in Hrtc. rewrite Hret in Hrtc. cbn zeta.
  unfold StatusCode.
  by destruct Hrtc as [(-> & _ & ->)|(-> & _ & ->)].
Qed.

End delete_store.

Section opened_store.

Import database.

Context (s : server.Server) (id : Z).





End opened_store.




(** Without the pragma the same run leaves the three chunk rows behind:
    on the file as it is on disk, not opened by [Initialize], the delete
    answers 200 and [GetChunks] still returns them. *)
Example Delete_without_Initialize :
  ∃ c,
    server.run_schedule demo_server 1 demo_schedule
      (server.handleDelete_start
         (set_DB (database.mkDatabase false
                    (database.files (DB demo_three_chunks)) 1
                    (database.chunks (DB demo_three_chunks)) 3 [])
                 demo_three_chunks)) = Some c
    ∧ server.main c = server.Returned
    ∧ StatusCode (w (server.st c)) = StatusOK
    ∧ database.files (DB (server.st c)) = []
    ∧ (database.GetChunks 1 (DB (server.st c))).2
      = Ok (database.chunks (DB demo_three_chunks)).
Proof. eexists. split; [vm_compute; reflexivity|]. vm_compute. done. Qed.

Section monad.

Lemma bind_eq {A B} (m : M A) (f : A → M B) st :
  (m ≫= f) st =
    match m st with
    | (st', Some a) => f a st'
    | (st', None) => (st', None)
    end.
Proof. done. Qed.

End monad.

Lemma filter_none {A} (P : A → Prop) `{!∀ x, Decision (P x)} (l : list A) :
  (∀ x, x ∈ l → ¬ P x) → filter P l = [].
Proof.
  induction l as [|x l IH]; intros Hl; [done|].
  rewrite filter_cons, decide_False by (apply Hl; left).
  apply IH. intros y Hy. apply Hl. by right.
Qed.

(** [handleDownload] answers 404 for an id the store has no file row of. *)
Lemma handleDownload_unknown_id (s : server.Server) (id : Z) (st : State) :
  (∀ f, f ∈ database.files (DB st) → database.FileMetadata.ID f ≠ id) →
  StatusCode (w (serve (server.handleDownload s id) st)) = StatusNotFound.
Proof.
  intros Hno. unfold serve, server.handleDownload. rewrite bind_eq.
  unfold db at 1. cbn [DB set_w]. rewrite GetFile_eq. cbn zeta.
  rewrite (filter_none _ _ Hno).
  by destruct (hd false _).
Qed.

(** C9, on the code: a delete request for an id the store has no file of.
    The store is the new vault and fails no statement; [GetChunks] finds no
    rows and reports no error, so the 404 branch is not taken, and every run
    of [handleDelete] answers 200.  The download handler, which asks
    [GetFile], answers 404 for the same id. *)
Theorem handleDelete_unknown_id_answers_OK :
  (database.GetFile 42 (DB demo_empty)).2 = Err ErrNoRows
  ∧ (∃ st', server.handleDelete demo_server 42 demo_empty st')
  ∧ (∀ st', server.handleDelete demo_server 42 demo_empty st' →
            StatusCode (w st') = StatusOK)
  ∧ StatusCode (w (serve (server.handleDownload demo_server 42) demo_empty))
    = StatusNotFound.
Proof.
  split; [reflexivity|]. split; [|split].
  - assert (∃ c, server.run_schedule demo_server 42
                   (replicate 4 server.MainThread)
                   (server.handleDelete_start demo_empty) = Some c
                 ∧ server.main c = server.Returned) as (c & Hrun & Hret).
    { eexists. split; [vm_compute; reflexivity|reflexivity]. }
    exists (server.st c), c. split; [exact (run_schedule_rtc _ _ _ _ _ Hrun)|].
    split; [exact Hret|reflexivity].
  - intros st' Hrun. by rewrite (handleDelete_status _ _ _ _ Hrun).
  - apply handleDownload_unknown_id. cbn. by intros f ?%elem_of_nil.
Qed.

(** ** Put and Get *)

Section remote.

Import discordgo.

Implicit Types d : Session.

Lemma call_eq {A} d (run : Session → Session * result A) :
  call d run =
    if hd false (outages d)
    then (set_outages (tl (outages d)) d, Err ErrIO)
    else run (set_outages (tl (outages d)) d).
Proof. unfold call. now rewrite pop_fault_hd. Qed.

Lemma snowflake_fresh d : messages d !! snowflake d = None.
Proof.
  apply not_elem_of_dom. unfold snowflake.
  pose proof (is_fresh (dom (messages d) ∪ retired d)). set_solver.
Qed.

Lemma attachment_url_inj id id' :
  attachment_url id = attachment_url id' → id = id'.
Proof. unfold attachment_url. apply String.app_inj. Qed.

Lemma ChannelFileSend_quiet name blob d :
  quiet (outages d) →
  let id := snowflake d in
  let msg := Message.mk id [MessageAttachment.mk (attachment_url id) (Some name)] in
  ChannelFileSend name blob d =
    (mkSession (<[id := msg]> (messages d)) (retired d)
               (<[attachment_url id := blob]> (cdn d)) (tl (outages d)),
     Ok msg).
Proof.
  intros Hq. unfold ChannelFileSend. rewrite call_eq, (quiet_hd _ Hq). done.
Qed.

Lemma stored_ChannelFileSend key name nonce chunk d :
  quiet (outages d) → length nonce = crypto.NonceSize →
  let d' := (ChannelFileSend name (crypto.Seal key nonce chunk) d).1 in
  stored key d' (snowflake d) chunk
  ∧ ∀ id c, stored key d id c → stored key d' id c.
Proof.
  intros Hq Hn. rewrite ChannelFileSend_quiet by done. cbn. split.
  - exists nonce, (Some name). split; [done|]. cbn.
    by rewrite !lookup_insert_eq.
  - intros id c (nonce' & lbl & ? & Hm & Hc).
    assert (snowflake d ≠ id) as Hne.
    { intros <-. by rewrite snowflake_fresh in Hm. }
    exists nonce', lbl. split; [done|]. cbn.
    rewrite !lookup_insert_ne; [done| |done].
    intros ?%attachment_url_inj. done.
Qed.

Lemma ChannelMessage_stored key d id chunk :
  quiet (outages d) → stored key d id chunk →
  ∃ label,
    ChannelMessage id d =
      (set_outages (tl (outages d)) d,
       Ok (Message.mk id [MessageAttachment.mk (attachment_url id) label])).
Proof.
  intros Hq (nonce & lbl & _ & Hm & _). exists lbl.
  unfold ChannelMessage. rewrite call_eq, (quiet_hd _ Hq). cbn. by rewrite Hm.
Qed.

Lemma http_Get_stored key d id chunk :
  quiet (outages d) → stored key d id chunk →
  ∃ nonce, length nonce = crypto.NonceSize ∧
    http_Get (attachment_url id) d =
      (set_outages (tl (outages d)) d, Ok (crypto.Seal key nonce chunk)).
Proof.
  intros Hq (nonce & lbl & Hn & _ & Hc). exists nonce. split; [done|].
  unfold http_Get. rewrite call_eq, (quiet_hd _ Hq). cbn. by rewrite Hc.
Qed.

Lemma stored_set_outages key tape d id chunk :
  stored key d id chunk → stored key (set_outages tape d) id chunk.
Proof. done. Qed.

End remote.

Section upload.

Import server.

Context (s : Server).

Local Abbreviation key := (config.EncryptionKey (Config s)).

(** The loop body, with its three ways out spelled out. *)
Lemma upload_chunk_eq chunkData partNum v st :
  upload_chunk s chunkData partNum v st =
    match crypto.Encrypt chunkData key (rand st) with
    | (rand', Err err) =>
        (exec (log_Printf (LogEncryptionFailed err) ;;
               http_Error "Security fault" StatusInternalServerError)
              (set_rand rand' st), None)
    | (rand', Ok encrypted) =>
        match discordgo.ChannelFileSend (Sum256 encrypted) encrypted (Session st) with
        | (d, Err err) =>
            (exec (log_Printf (LogDiscordRejection partNum err) ;;
                   http_Error "Decentralized storage rejection"
                              StatusInternalServerError)
                  (set_Session d (set_rand rand' st)), None)
        | (d, Ok msg) =>
            (set_logs (logs st ++ [LogChunkSecured partNum (length encrypted)])
                      (set_Session d (set_rand rand' st)),
             Some (mkUploadVars
                     (filename v)
                     (int64 (totalSize v + int64 (Z.of_nat (length chunkData))))
                     (messageIDs v ++ [discordgo.Message.ID msg])
                     (hasher v ++ chunkData),
                   partNum + 1))
        end
    end.
Proof.
  unfold upload_chunk. rewrite bind_eq. unfold crypto_Encrypt at 1.
  destruct (crypto.Encrypt chunkData key (rand st)) as [rand' [encrypted|err]].
  - rewrite bind_eq. unfold session at 1. cbn [Session set_rand].
    destruct (discordgo.ChannelFileSend _ _ _) as [d [msg|err]]; done.
  - done.
Qed.

(** With the backend up and nonces to draw, the body goes through on every
    buffer: each is stored under a new message id, and what was stored
    before stays. *)
Lemma upload_chunks_ok cs partNum v st :
  quiet (discordgo.outages (Session st)) →
  (crypto.NonceSize * length cs ≤ length (rand st))%nat →
  ∃ st' v' ids,
    upload_chunks s cs partNum v st = (st', Some (v', partNum + Z.of_nat (length cs)))
    ∧ filename v' = filename v
    ∧ messageIDs v' = messageIDs v ++ ids
    ∧ hasher v' = hasher v ++ concat cs
    ∧ Forall2 (stored key (Session st')) ids cs
    ∧ (∀ id c, stored key (Session st) id c → stored key (Session st') id c)
    ∧ quiet (discordgo.outages (Session st'))
    ∧ DB st' = DB st ∧ w st' = w st ∧ spawned st' = spawned st
    ∧ replies st' = replies st.
Proof.
  revert partNum v st. induction cs as [|c cs IH]; intros partNum v st Hq Hrand.
  - exists st, v, []. cbn. rewrite Z.add_0_r, !app_nil_r.
    repeat (split; [done|]). done.
  - cbn [length] in Hrand. cbn [upload_chunks].
    rewrite upload_chunk_eq, Encrypt_Ok by (unfold crypto.NonceSize in *; lia).
    set (nonce := take crypto.NonceSize (rand st)).
    assert (length nonce = crypto.NonceSize) as Hn
      by (subst nonce; rewrite length_take; unfold crypto.NonceSize in *; lia).
    pose proof (stored_ChannelFileSend key
                  (Sum256 (crypto.Seal key nonce c)) nonce c (Session st) Hq Hn)
      as [Hnew Hold].
    rewrite ChannelFileSend_quiet in Hnew, Hold |- * by done.
    cbn [fst] in Hnew, Hold. cbn [discordgo.Message.ID].
    match goal with
    | |- context [upload_chunks s cs ?p ?v1 ?st1] =>
        destruct (IH p v1 st1) as
          (st' & v' & ids & Hrun & Hname & Hids & Hhash & Hst & Hkeep & Hq'
           & Hdb & Hw & Hsp & Hrep)
    end.
    { cbn. by apply quiet_tl. }
    { cbn [rand set_logs set_Session set_rand]. rewrite length_drop.
      unfold crypto.NonceSize in *. lia. }
    exists st', v', (discordgo.snowflake (Session st) :: ids).
    rewrite Hrun. cbn in Hname, Hids, Hhash, Hdb, Hw, Hsp, Hrep.
    replace (partNum + Z.of_nat (length (c :: cs)))
      with (partNum + 1 + Z.of_nat (length cs)) by (cbn [length]; lia).
    split; [done|].
    split; [done|]. split; [by rewrite Hids, <- app_assoc|].
    split; [by rewrite Hhash, <- app_assoc|].
    split; [constructor; [by apply Hkeep|done]|].
    split; [intros id c' Hs; by apply Hkeep, Hold|].
    done.
Qed.

(** The loops of the upload handler leave the store alone. *)
Lemma upload_chunk_DB c partNum v st :
  DB (upload_chunk s c partNum v st).1 = DB st.
Proof.
  rewrite upload_chunk_eq.
  destruct (crypto.Encrypt _ _ _) as [rand' [encrypted|err]]; [|done].
  by destruct (discordgo.ChannelFileSend _ _ _) as [d [msg|err]].
Qed.

Lemma upload_chunks_DB cs partNum v st :
  DB (upload_chunks s cs partNum v st).1 = DB st.
Proof.
  revert partNum v st. induction cs as [|c cs IH]; intros partNum v st; [done|].
  cbn [upload_chunks]. pose proof (upload_chunk_DB c partNum v st) as Hc.
  destruct (upload_chunk s c partNum v st) as [st1 [[v1 p1]|]]; [|done].
  by rewrite IH.
Qed.

Lemma read_loop_DB C part partNum v st :
  DB (read_loop s C part partNum v st).1 = DB st.
Proof.
  rewrite read_loop_chunks_of. pose proof (upload_chunks_DB (chunks_of C part) partNum v st).
  by destruct (upload_chunks _ _ _ _ _) as [st1 [[v1 p1]|]].
Qed.

Lemma for_parts_DB parts v st : DB (for_parts s parts v st).1 = DB st.
Proof.
  revert v st. induction parts as [|part parts IH]; intros v st; [done|].
  cbn [for_parts]. rewrite bind_eq. case_decide.
  - rewrite bind_eq. cbn [log_Printf].
    match goal with
    | |- context [read_loop s ?C ?p ?n ?v1 ?st1] =>
        pose proof (read_loop_DB C p n v1 st1) as Hr;
        destruct (read_loop s C p n v1 st1) as [st2 [v2|]]
    end; [by rewrite IH|done].
  - cbn. apply IH.
Qed.

End upload.

Section save.

Import database.

(** With a store that fails nothing, the chunk records of a file that
    exists are inserted one after the other, numbered from [idx + 1]. *)
Lemma save_chunks_quiet fileID idx ids st :
  quiet (io_errors (DB st)) →
  fileID ∈ FileMetadata.ID <$> files (DB st) →
  ∃ db' rows,
    server.save_chunks fileID idx ids st = (set_DB db' st, Some tt)
    ∧ foreign_keys db' = foreign_keys (DB st)
    ∧ files db' = files (DB st)
    ∧ files_seq db' = files_seq (DB st)
    ∧ chunks db' = chunks (DB st) ++ rows
    ∧ quiet (io_errors db')
    ∧ ChunkMetadata.FileID <$> rows = replicate (length ids) fileID
    ∧ ChunkMetadata.MessageID <$> rows = ids
    ∧ ChunkMetadata.PartNum <$> rows = seqZ (idx + 1) (Z.of_nat (length ids)).
Proof.
  revert idx st. induction ids as [|msgID ids IH]; intros idx st Hq Hin.
  - exists (DB st), []. cbn. rewrite app_nil_r.
    split; [by destruct st|]. done.
  - cbn [server.save_chunks]. rewrite bind_eq. unfold db at 1.
    rewrite SaveChunk_eq, (quiet_hd _ Hq). cbn zeta.
    rewrite (proj2 (andb_false_iff _ _)); [|right; by apply bool_decide_eq_false; intros []].
    match goal with
    | |- context [server.save_chunks fileID ?i ids ?st1] =>
        destruct (IH i st1) as
          (db' & rows & Hrun & Hfk & Hfiles & Hseq & Hchunks & Hq' & Hf & Hm & Hp)
    end.
    { cbn. by apply quiet_tl. }
    { done. }
    cbn in Hfk, Hfiles, Hseq, Hchunks.
    eexists db', (_ :: rows). rewrite Hrun.
    split; [by destruct st|]. repeat (split; [done|]).
    split; [by rewrite Hchunks, <- app_assoc|]. split; [done|].
    cbn [fmap list_fmap length replicate ChunkMetadata.FileID
         ChunkMetadata.MessageID ChunkMetadata.PartNum].
    split; [by f_equal|]. split; [by f_equal|].
    rewrite (seqZ_cons (idx + 1)) by lia. f_equal.
    rewrite Hp. f_equal; lia.
Qed.

End save.

Section persist.

Import database.

Lemma handleUpload_eq s mr st :
  server.handleUpload s (server.mkRequest (Ok mr)) st =
    match server.for_parts s mr (server.mkUploadVars "" 0 [] []) st with
    | (st1, None) => (st1, None)
    | (st1, Some v) =>
        if decide (length (server.messageIDs v) = 0%nat)
        then (http_Error "Payload empty" StatusBadRequest ;; Return) st1
        else persist_upload v st1
    end.
Proof.
  unfold server.handleUpload. cbn [server.MultipartReader]. rewrite bind_eq.
  destruct (server.for_parts _ _ _ _) as [st1 [v|]]; [|done].
  by case_decide.
Qed.

Lemma next_rowid_not_in seq (rowids : list Z) : next_rowid seq rowids ∉ rowids.
Proof.
  intros Hin. pose proof (next_rowid_fresh seq rowids) as [Hall _].
  rewrite Forall_forall in Hall. apply Hall in Hin. lia.
Qed.

(** The metadata writes on a store that fails nothing, for a name not yet
    taken. *)
Lemma persist_upload_quiet v st :
  quiet (io_errors (DB st)) →
  server.filename v ∉ FileMetadata.Name <$> files (DB st) →
  let id := next_rowid (files_seq (DB st)) (FileMetadata.ID <$> files (DB st)) in
  ∃ st' rows,
    persist_upload v st = (st', Some tt)
    ∧ foreign_keys (DB st') = foreign_keys (DB st)
    ∧ files (DB st')
      = files (DB st)
          ++ [FileMetadata.mk id (server.filename v) (server.totalSize v)
                              (Sum256 (server.hasher v))]
    ∧ chunks (DB st') = chunks (DB st) ++ rows
    ∧ quiet (io_errors (DB st'))
    ∧ ChunkMetadata.FileID <$> rows = replicate (length (server.messageIDs v)) id
    ∧ ChunkMetadata.MessageID <$> rows = server.messageIDs v
    ∧ ChunkMetadata.PartNum <$> rows
      = seqZ 1 (Z.of_nat (length (server.messageIDs v)))
    ∧ Session st' = Session st
    ∧ logs st' = logs st ++ [LogTransmissionComplete (server.filename v) id]
    ∧ w st' = mkResponseWriter (Some (default StatusOK (status (w st))))
                               (header (w st)) (body (w st)).
Proof.
  intros Hq Hname id. unfold persist_upload. rewrite bind_eq. unfold db at 1.
  rewrite SaveFile_eq, (quiet_hd _ Hq). cbn zeta.
  rewrite decide_False by done. fold id.
  rewrite bind_eq, bind_eq.
  match goal with
  | |- context [server.save_chunks id 0 _ ?st1] =>
      destruct (save_chunks_quiet id 0 (server.messageIDs v) st1) as
        (db' & rows & Hrun & Hfk & Hfiles & Hseq & Hchunks & Hq' & Hf & Hm & Hp)
  end.
  { cbn. by apply quiet_tl. }
  { cbn. rewrite fmap_app. apply elem_of_app. right. cbn. left. }
  rewrite Hrun. cbn in Hfk, Hfiles, Hseq, Hchunks.
  eexists _, rows. split; [reflexivity|]. cbn.
  repeat (split; [done|]). done.
Qed.

End persist.

Section download.

Import database.

Context (s : server.Server).

Local Abbreviation key := (config.EncryptionKey (server.Config s)).

(** Chunks that the remote service keeps come back in order, decrypted. *)
Lemma download_chunks_stored rows cs st :
  quiet (discordgo.outages (Session st)) →
  Forall2 (λ r c, stored key (Session st) (ChunkMetadata.MessageID r) c) rows cs →
  ∃ st',
    server.download_chunks s rows st = (st', Some tt)
    ∧ body (w st') = body (w st) ++ concat cs
    ∧ StatusCode (w st') = StatusCode (w st)
    ∧ logs st' = logs st.
Proof.
  intros Hq Hst. revert st Hq Hst.
  induction rows as [|r rows IH] in cs |- *; intros st Hq Hst.
  - apply Forall2_nil_inv_l in Hst as ->. exists st. cbn. by rewrite app_nil_r.
  - apply Forall2_cons_inv_l in Hst as (c & cs' & Hc & Hrest & ->).
    cbn [server.download_chunks]. rewrite bind_eq. unfold session at 1.
    destruct (ChannelMessage_stored _ _ _ _ Hq Hc) as (lbl & ->).
    cbn [discordgo.Message.Attachments discordgo.MessageAttachment.URL].
    rewrite bind_eq. unfold session at 1. cbn [Session set_Session].
    assert (quiet (discordgo.outages
                     (discordgo.set_outages (tl (discordgo.outages (Session st)))
                                            (Session st)))) as Hq1
      by (cbn; by apply quiet_tl).
    destruct (http_Get_stored key _ _ _ Hq1 (stored_set_outages _ _ _ _ _ Hc))
      as (nonce & Hn & ->).
    rewrite Decrypt_Seal by done. rewrite bind_eq.
    unfold Write at 1. cbv beta iota.
    match goal with
    | |- context [server.download_chunks s rows ?st1] =>
        destruct (IH cs' st1) as (st' & Hrun & Hbody & Hstatus & Hlogs)
    end.
    { cbn. by apply quiet_tl, quiet_tl. }
    { eapply Forall2_impl; [exact Hrest|]. done. }
    exists st'. split; [done|]. cbn in Hbody, Hstatus, Hlogs.
    split; [by rewrite Hbody, <- app_assoc|]. done.
Qed.

Lemma sorted_of_seqZ (rows : list ChunkMetadata.t) m n :
  ChunkMetadata.PartNum <$> rows = seqZ m n →
  Sorted (λ c d, ChunkMetadata.PartNum c ≤ ChunkMetadata.PartNum d) rows.
Proof.
  revert m n. induction rows as [|r rows IH]; intros m n Hp; [constructor|].
  destruct (decide (0 < n)) as [Hn|Hn]; [|by rewrite seqZ_nil in Hp by lia].
  rewrite seqZ_cons in Hp by done. injection Hp as Hr Hp.
  constructor; [by eapply IH|].
  destruct rows as [|r' rows]; constructor.
  destruct (decide (0 < Z.pred n)) as [Hn'|Hn']; [|by rewrite seqZ_nil in Hp by lia].
  rewrite seqZ_cons in Hp by done. injection Hp as Hr' _. lia.
Qed.

End download.

Section put_get.

Import database.

Lemma chunks_of_nonempty C (data : list byte) :
  data ≠ [] → chunks_of C data ≠ [].
Proof.
  intros (full & last & -> & _)%(chunks_of_shape C). by destruct full.
Qed.

Lemma filter_snoc_only {A} (f : A → Z) (l : list A) (x : A) :
  f x ∉ f <$> l → filter (λ y, f y = f x) (l ++ [x]) = [x].
Proof.
  intros Hno. rewrite filter_app, filter_cons, decide_True, filter_nil by done.
  rewrite filter_none; [done|]. intros y Hy Heq. apply Hno.
  rewrite <- Heq. by apply list_elem_of_fmap_2.
Qed.

(** A Put of a non-empty stream on a healthy system: what it answers and
    what it leaves in the store and at the remote service. *)
Lemma handleUpload_run (s : server.Server) (name : string) (data : list byte)
    (st : State) :
  data ≠ [] →
  quiet (io_errors (DB st)) →
  quiet (discordgo.outages (Session st)) →
  (crypto.NonceSize * length (chunks_of bot.ChunkSize data) ≤ length (rand st))%nat →
  name ∉ FileMetadata.Name <$> files (DB st) →
  let id := next_rowid (files_seq (DB st)) (FileMetadata.ID <$> files (DB st)) in
  ∃ st' rows size,
    server.handleUpload s
      (server.mkRequest (Ok [multipart.mkPart "file" name data])) st
    = (st', Some tt)
    ∧ w st' = mkResponseWriter (Some (default StatusOK (status (w st))))
                               (header (w st)) (body (w st))
    ∧ last (logs st') = Some (LogTransmissionComplete name id)
    ∧ foreign_keys (DB st') = foreign_keys (DB st)
    ∧ files (DB st') = files (DB st) ++ [FileMetadata.mk id name size (Sum256 data)]
    ∧ chunks (DB st') = chunks (DB st) ++ rows
    ∧ quiet (io_errors (DB st'))
    ∧ quiet (discordgo.outages (Session st'))
    ∧ Forall (λ r, ChunkMetadata.FileID r = id) rows
    ∧ ChunkMetadata.PartNum <$> rows
      = seqZ 1 (Z.of_nat (length (chunks_of bot.ChunkSize data)))
    ∧ Forall2 (λ r c, stored (config.EncryptionKey (server.Config s)) (Session st')
                             (ChunkMetadata.MessageID r) c)
              rows (chunks_of bot.ChunkSize data).
Proof.
  intros Hdata Hio Hout Hrand Hname id.
  rewrite handleUpload_eq. cbn [server.for_parts].
  rewrite bind_eq, decide_True by done. rewrite bind_eq.
  unfold log_Printf at 1. cbv beta iota.
  cbn [multipart.FileName multipart.content server.totalSize server.messageIDs
       server.hasher server.filename].
  rewrite read_loop_chunks_of.
  match goal with
  | |- context [upload_chunks s ?cs ?p ?v0 ?st0] =>
      destruct (upload_chunks_ok s cs p v0 st0) as
        (st1 & v1 & ids & Hrun & Hfn & Hids & Hhash & Hstored & _ & Hout1
         & Hdb1 & Hw1 & _ & _)
  end; [done|done|].
  rewrite Hrun. cbn in Hfn, Hids, Hhash, Hdb1, Hw1.
  cbv [mret M_ret]. cbv beta iota.
  pose proof (Forall2_length _ _ _ Hstored) as Hlen.
  pose proof (chunks_of_nonempty bot.ChunkSize data Hdata) as Hne.
  rewrite decide_False
    by (rewrite Hids, Hlen; by destruct (chunks_of bot.ChunkSize data)).
  destruct (persist_upload_quiet v1 st1) as
    (st2 & rows & Hrun2 & Hfk2 & Hfiles2 & Hchunks2 & Hio2 & Hrf & Hrm & Hrp
     & Hsess2 & Hlogs2 & Hw2); [by rewrite Hdb1|by rewrite Hfn, Hdb1|].
  rewrite Hrun2.
  rewrite Hdb1, Hfn, Hhash in Hfiles2. rewrite Hdb1, Hfn in Hlogs2.
  rewrite Hdb1 in Hchunks2, Hfk2, Hrf. rewrite Hids, Hlen in Hrp. subst ids.
  fold id in Hfiles2, Hlogs2, Hrf.
  exists st2, rows, (server.totalSize v1).
  split; [done|]. split; [by rewrite Hw2, Hw1|].
  split; [by rewrite Hlogs2, last_snoc|].
  rewrite concat_chunks_of in Hfiles2.
  repeat (split; [done|]).
  split; [by rewrite Hsess2|].
  split.
  { apply Forall_forall. intros r Hr.
    assert (ChunkMetadata.FileID r ∈ ChunkMetadata.FileID <$> rows) as Hin
      by by apply list_elem_of_fmap_2.
    rewrite Hrf in Hin. by apply elem_of_replicate in Hin as [-> _]. }
  split; [done|].
  rewrite Hsess2. rewrite <- Hrm in Hstored.
  rewrite Forall2_fmap_l in Hstored.
  eapply Forall2_impl; [exact Hstored|]. done.
Qed.

(** A Get of a file whose chunk rows are [rows], all kept by the remote
    service, on a healthy system. *)
Lemma handleDownload_run (s : server.Server) (id : Z) (st : State)
    (f : FileMetadata.t) (rows : list ChunkMetadata.t) (cs : list (list byte)) :
  quiet (io_errors (DB st)) →
  quiet (discordgo.outages (Session st)) →
  filter (λ f, FileMetadata.ID f = id) (files (DB st)) = [f] →
  filter (λ r, ChunkMetadata.FileID r = id) (chunks (DB st)) = rows →
  Sorted (λ c d, ChunkMetadata.PartNum c ≤ ChunkMetadata.PartNum d) rows →
  Forall2 (λ r c, stored (config.EncryptionKey (server.Config s)) (Session st)
                         (ChunkMetadata.MessageID r) c) rows cs →
  ∃ st',
    server.handleDownload s id st = (st', Some tt)
    ∧ StatusCode (w st') = StatusCode (w st)
    ∧ body (w st') = body (w st) ++ concat cs.
Proof.
  intros Hio Hout Hfile Hrows Hsorted Hstored.
  unfold server.handleDownload.
  cbv [mbind M_bind mret M_ret Header_Set log_Printf db]. cbv beta.
  rewrite GetFile_eq, (quiet_hd _ Hio), Hfile. cbv beta iota zeta.
  cbn [DB set_DB].
  rewrite GetChunks_eq. cbn [io_errors set_io_errors hd].
  rewrite (quiet_hd _ (quiet_tl _ Hio)). cbv beta iota zeta.
  cbn [chunks set_io_errors]. rewrite Hrows.
  rewrite order_by_part_num_sorted by done.
  cbn [DB Session rand logs spawned replies w set_DB set_Session set_rand
       set_logs set_spawned set_replies set_w status header body].
  match goal with
  | |- context [server.download_chunks s rows ?st3] =>
      destruct (download_chunks_stored s rows cs st3)
        as (st4 & Hrun4 & Hbody & Hstatus4 & _)
  end; [done|done|].
  rewrite Hrun4.
  cbn [DB Session rand logs spawned replies w set_DB set_Session set_rand
       set_logs set_spawned set_replies set_w status header body
       fst] in Hbody, Hstatus4 |- *.
  eexists. split; [reflexivity|].
  cbn [DB Session rand logs spawned replies w set_DB set_Session set_rand
       set_logs set_spawned set_replies set_w status header body].
  done.
Qed.

(** C1, as the code has it.  For every non-empty byte stream (so for the
    lengths 1, C-1, C, C+1 and 5*C+3), on a system that fails nothing (store
    and backend up, a nonce to draw for each chunk), a store whose chunk
    rows all belong to file rows, and a name not taken yet: a Put of the
    stream answers 200 and logs the new file id, and a Get of that id right
    after answers 200 with exactly the stream as body.  (A Put of the empty
    stream is turned down with 400 and stores nothing.) *)
Theorem Put_then_Get (s : server.Server) (name : string) (data : list byte)
    (st : State) :
  data ≠ [] →
  quiet (io_errors (DB st)) →
  quiet (discordgo.outages (Session st)) →
  (crypto.NonceSize * length (chunks_of bot.ChunkSize data) ≤ length (rand st))%nat →
  name ∉ FileMetadata.Name <$> files (DB st) →
  referential (DB st) →
  put_get_roundtrip s st name data.
Proof.
  intros Hdata Hio Hout Hrand Hname Href. unfold put_get_roundtrip. cbv zeta.
  set (id := next_rowid (files_seq (DB st)) (FileMetadata.ID <$> files (DB st))).
  destruct (handleUpload_run s name data (set_w fresh_writer st)
              Hdata Hio Hout Hrand Hname) as
    (st1 & rows & size & Hrun & Hw & Hlast & Hfk & Hfiles & Hchunks & Hio' & Hout'
     & Hrf & Hrp & Hstored).
  cbn [DB set_w] in Hfiles, Hchunks, Hrf, Hlast. fold id in Hfiles, Hrf, Hlast.
  destruct (handleDownload_run s id (set_w fresh_writer st1)
              (FileMetadata.mk id name size (Sum256 data)) rows
              (chunks_of bot.ChunkSize data))
    as (st2 & Hrun2 & Hstatus2 & Hbody2); [done|done| | | |done|].
  { cbn [DB set_w]. rewrite Hfiles.
    apply (filter_snoc_only FileMetadata.ID (files (DB st))
             (FileMetadata.mk id name size (Sum256 data))).
    apply next_rowid_not_in. }
  { cbn [DB set_w]. rewrite Hchunks, filter_app.
    rewrite (filter_none _ (chunks (DB st))); last first.
    { intros r Hr Heq. apply Href in Hr. rewrite Heq in Hr.
      by apply next_rowid_not_in in Hr. }
    by rewrite app_nil_l, filter_all. }
  { by eapply sorted_of_seqZ. }
  exists id. unfold serve. rewrite Hrun. cbn [fst].
  rewrite Hrun2. cbn [fst].
  split; [by rewrite Hw|]. split; [done|].
  split; [done|]. by rewrite Hbody2, concat_chunks_of.
Qed.

End put_get.

Lemma Put_then_Get_witness :
  put_get_roundtrip demo_server demo_empty "a.bin" ["h"; "i"; "!"]%byte.
Proof.
  apply Put_then_Get.
  - done.
  - constructor.
  - constructor.
  - vm_compute. lia.
  - cbn. apply not_elem_of_nil.
  - intros r Hr. cbn in Hr. by apply elem_of_nil in Hr.
Defined.

Lemma Put_empty_stream_rejected :
  ¬ put_get_roundtrip demo_server demo_empty "empty.bin" [].
Proof. intros (id & Hstatus & _). vm_compute in Hstatus. discriminate. Qed.

Example Put_empty_stream :
  let st := serve (server.handleUpload demo_server
                     (server.mkRequest (Ok [multipart.mkPart "file" "empty.bin" []])))
                  demo_empty in
  StatusCode (w st) = StatusBadRequest
  ∧ database.files (DB st) = []
  ∧ discordgo.messages (Session st) = ∅.
Proof. vm_compute. done. Qed.

Section save_fails.

Import database.


End save_fails.

(** C3, on the code: a Put under a name the store already has.  [SaveFile]
    fails on the UNIQUE constraint; the web handler still answers 200 and
    logs file id 0, leaving the store as it was, whereas the bot's upload
    handler reports the database error for the same name. *)
Theorem handleUpload_SaveFile_fails_answers_OK :
  let put := server.handleUpload demo_server
               (server.mkRequest (Ok [multipart.mkPart "file" "a.bin" ["y"; "o"]%byte])) in
  let st' := serve put demo_one_file in
  (database.SaveFile "a.bin" 2 (Sum256 ["y"; "o"]%byte) (DB demo_one_file)).2
    = (0, Some ErrConstraint)
  ∧ StatusCode (w st') = StatusOK
  ∧ last (logs st') = Some (LogTransmissionComplete "a.bin" 0)
  ∧ database.files (DB st') = database.files (DB demo_one_file)
  ∧ database.chunks (DB st') = database.chunks (DB demo_one_file)
  ∧ last (replies (bot.handleUpload demo_bot (bot.mkAttachment "a.bin" "u" 2)
                                    demo_one_file).1)
    = Some ReplyDatabaseError.
Proof. vm_compute. done. Qed.

(** ** Get: skipped and corrupt chunks *)

Section get.

Context (s : server.Server).

Local Abbreviation key := (config.EncryptionKey (server.Config s)).

(** One turn of the loop of [handleDownload], by what the fetch gives. *)
Lemma download_chunks_cons chunk chunks st :
  server.download_chunks s (chunk :: chunks) st =
    let '(d, f) := fetch key chunk (Session st) in
    match f with
    | Skipped why =>
        server.download_chunks s chunks
          (set_logs (logs st ++ [why]) (set_Session d st))
    | Corrupt err =>
        (set_logs (logs st ++ [LogDecryptionFault
                                 (database.ChunkMetadata.PartNum chunk) err])
                  (set_Session d st), None)
    | Plaintext p =>
        server.download_chunks s chunks
          (set_w (mkResponseWriter (Some (StatusCode (w st))) (header (w st))
                                   (body (w st) ++ p))
                 (set_Session d st))
    end.
Proof.
  cbn [server.download_chunks]. unfold fetch.
  cbv [mbind M_bind mret M_ret session log_Printf Write Return]. cbv beta.
  destruct (discordgo.ChannelMessage _ _) as [d1 [msg|err]]; [|done].
  cbv beta iota. destruct (discordgo.Message.Attachments msg) as [|a ?]; [done|].
  cbn [Session set_Session].
  destruct (discordgo.http_Get _ _) as [d2 [blob|err]]; [|done].
  cbv beta iota. by destruct (crypto.Decrypt blob key).
Qed.

(** The loop is [reconstruct]: it writes what [reconstruct] emits, logs
    what it logs, returns from the handler exactly when a chunk did not
    decrypt, and never writes a status other than the 200 of a body write. *)
Lemma download_chunks_reconstruct chunks st :
  let '(out, lines, done) := reconstruct key chunks (Session st) in
  let '(st', r) := server.download_chunks s chunks st in
  body (w st') = body (w st) ++ out
  ∧ logs st' = logs st ++ lines
  ∧ StatusCode (w st') = StatusCode (w st)
  ∧ header (w st') = header (w st)
  ∧ r = (if done then Some tt else None)
  ∧ DB st' = DB st.
Proof.
  revert st. induction chunks as [|chunk chunks IH]; intros st.
  { cbn. by rewrite !app_nil_r. }
  rewrite download_chunks_cons. cbn [reconstruct].
  destruct (fetch key chunk (Session st)) as [d [why|err|p]].
  - specialize (IH (set_logs (logs st ++ [why]) (set_Session d st))).
    cbn [Session set_logs set_Session] in IH.
    destruct (reconstruct key chunks d) as [[out lines] done].
    destruct (server.download_chunks _ _ _) as [st' r].
    cbn in IH. destruct IH as (-> & -> & -> & -> & -> & ->).
    by rewrite <- app_assoc.
  - cbn. by rewrite app_nil_r.
  - match goal with
    | |- context [server.download_chunks s chunks ?st1] => specialize (IH st1)
    end.
    cbn [Session set_w set_Session] in IH.
    destruct (reconstruct key chunks d) as [[out lines] done].
    destruct (server.download_chunks _ _ _) as [st' r].
    cbn in IH. destruct IH as (-> & -> & -> & -> & -> & ->).
    by rewrite <- app_assoc.
Qed.

End get.

(** C5. In the loop of [handleDownload], a chunk whose fetch fails or
    gives no content is logged and skipped: the response is left as it is
    and the loop goes on with the chunks that follow.  A chunk that does not
    decrypt makes the handler return: the fault is logged and nothing more
    is written.  Over a whole list, the body grows by the plaintexts of the
    chunks fetched before the first one that does not decrypt, in order,
    and the status stays the 200 of a body write; no error status is ever
    written. *)
Theorem handleDownload_skips_and_stops (s : server.Server)
    (chunk : database.ChunkMetadata.t) (chunks : list database.ChunkMetadata.t)
    (st : State) :
  let key := config.EncryptionKey (server.Config s) in
  (∀ d why, fetch key chunk (Session st) = (d, Skipped why) →
     server.download_chunks s (chunk :: chunks) st
     = server.download_chunks s chunks
         (set_logs (logs st ++ [why]) (set_Session d st)))
  ∧ (∀ d err, fetch key chunk (Session st) = (d, Corrupt err) →
       ∃ st',
         server.download_chunks s (chunk :: chunks) st = (st', None)
         ∧ w st' = w st
         ∧ logs st' = logs st
             ++ [LogDecryptionFault (database.ChunkMetadata.PartNum chunk) err])
  ∧ (let '(out, lines, done) := reconstruct key (chunk :: chunks) (Session st) in
     let '(st', r) := server.download_chunks s (chunk :: chunks) st in
     body (w st') = body (w st) ++ out
     ∧ logs st' = logs st ++ lines
     ∧ StatusCode (w st') = StatusCode (w st)
     ∧ r = (if done then Some tt else None)).
Proof.
  intros key. subst key. split; [|split].
  - intros d why Hf. by rewrite download_chunks_cons, Hf.
  - intros d err Hf. rewrite download_chunks_cons, Hf. by eexists.
  - pose proof (download_chunks_reconstruct s (chunk :: chunks) st) as H.
    destruct (reconstruct _ (chunk :: chunks) (Session st)) as [[out lines] done].
    destruct (server.download_chunks s (chunk :: chunks) st) as [st' r].
    tauto.
Qed.

Example demo_three_parts_rows :
  (database.ChunkMetadata.MessageID <$> database.chunks (DB demo_three_parts),
   database.ChunkMetadata.PartNum <$> database.chunks (DB demo_three_parts))
  = (["0"; "1"; "2"], [1; 2; 3]).
Proof. vm_compute. reflexivity. Qed.

(** The message of chunk 2 is gone: Get answers 200 with chunks 1 and 3. *)
Example Get_with_chunk_2_missing :
  let d := (discordgo.ChannelMessageDelete "1" (Session demo_three_parts)).1 in
  let st := serve (server.handleDownload demo_server 1)
                  (set_Session d demo_three_parts) in
  StatusCode (w st) = StatusOK
  ∧ body (w st) = ["o"; "n"; "e"; "3"]%byte
  ∧ LogFragmentMissing 2 ∈ logs st.
Proof. vm_compute. split; [done|]. split; [done|]. set_solver. Qed.

(** The blob of chunk 2 has a byte changed: Get stops there, having
    written chunk 1 only. *)
Example Get_with_chunk_2_corrupt :
  let d := Session demo_three_parts in
  let url := discordgo.attachment_url "1" in
  let blob := default [] (discordgo.cdn d !! url) in
  let d' := discordgo.mkSession (discordgo.messages d) (discordgo.retired d)
              (<[url := <[13%nat := "X"%byte]> blob]> (discordgo.cdn d))
              (discordgo.outages d) in
  let st := serve (server.handleDownload demo_server 1)
                  (set_Session d' demo_three_parts) in
  StatusCode (w st) = StatusOK
  ∧ body (w st) = ["o"; "n"; "e"]%byte
  ∧ last (logs st) = Some (LogDecryptionFault 2 ErrAuthentication).
Proof. vm_compute. done. Qed.

Section bot_upload.

Import database.

Lemma ChannelFileSend_Ok_inv name blob d d' msg :
  discordgo.ChannelFileSend name blob d = (d', Ok msg) →
  let id := discordgo.snowflake (discordgo.set_outages (tl (discordgo.outages d)) d) in
  msg = discordgo.Message.mk id
          [discordgo.MessageAttachment.mk (discordgo.attachment_url id) (Some name)]
  ∧ discordgo.messages d' = <[id := msg]> (discordgo.messages d)
  ∧ discordgo.cdn d' = <[discordgo.attachment_url id := blob]> (discordgo.cdn d)
  ∧ discordgo.messages d !! id = None.
Proof.
  unfold discordgo.ChannelFileSend. rewrite call_eq.
  destruct (hd false _); [done|]. intros [= <- <-]. cbn.
  repeat split. apply (snowflake_fresh (discordgo.set_outages _ d)).
Qed.

Lemma http_Get_Ok_inv url d d' data :
  discordgo.http_Get url d = (d', Ok data) →
  data = default [] (discordgo.cdn d !! url)
  ∧ discordgo.messages d' = discordgo.messages d
  ∧ discordgo.cdn d' = discordgo.cdn d.
Proof.
  unfold discordgo.http_Get. rewrite call_eq.
  destruct (hd false _); [done|]. by intros [= <- <-].
Qed.

Lemma SaveFile_Ok_inv name size hash db db' id :
  SaveFile name size hash db = (db', (id, None)) →
  hd false (io_errors db) = false
  ∧ id = next_rowid (files_seq db) (FileMetadata.ID <$> files db)
  ∧ foreign_keys db' = foreign_keys db
  ∧ files db' = files db ++ [FileMetadata.mk id name size hash]
  ∧ chunks db' = chunks db
  ∧ chunks_seq db' = chunks_seq db
  ∧ io_errors db' = tl (io_errors db).
Proof.
  rewrite SaveFile_eq. cbn zeta. destruct (hd false _); [done|].
  case_decide; [done|]. by intros [= <- <-].
Qed.

End bot_upload.

(** C10. When the bot's upload handler reports success: the bytes read
    from the attachment were sealed as one blob and sent as one new
    message, whatever their number; the file row records the size the
    attachment reports, not the number of bytes read; and, when the store
    does not fail the INSERT of the chunk row (the second statement the
    handler runs), the one chunk row added points at that message with
    [part_num] 1. *)
Theorem bot_handleUpload_one_chunk (b : bot.Bot) (a : bot.Attachment)
    (st : State) (fileID : Z) :
  last (replies (bot.handleUpload b a st).1) = Some (ReplyObjectSecured fileID) →
  hd false (tl (database.io_errors (DB st))) = false →
  one_chunk_recorded b a st fileID.
Proof.
  unfold one_chunk_recorded. cbv zeta. unfold bot.handleUpload, bot.followup.
  cbv [mbind M_bind mret M_ret session db crypto_Encrypt log_Printf respond go
       Return]. cbv beta.
  cbn [DB Session rand logs spawned replies w set_DB set_Session set_rand
       set_logs set_spawned set_replies set_w].
  destruct (discordgo.http_Get _ _) as [d1 [data|err]] eqn:Hget; cbv beta iota;
    cbn [DB Session rand logs spawned replies w set_DB set_Session set_rand
         set_logs set_spawned set_replies set_w fst];
    [|by rewrite last_snoc].
  destruct (crypto.Encrypt _ _ _) as [rand' [encrypted|err]] eqn:Henc;
    cbv beta iota;
    cbn [DB Session rand logs spawned replies w set_DB set_Session set_rand
         set_logs set_spawned set_replies set_w fst];
    [|by rewrite last_snoc].
  destruct (discordgo.ChannelFileSend _ _ _) as [d2 [msg|err]] eqn:Hsend;
    cbv beta iota;
    cbn [DB Session rand logs spawned replies w set_DB set_Session set_rand
         set_logs set_spawned set_replies set_w fst];
    [|by rewrite last_snoc].
  destruct (database.SaveFile _ _ _ _) as [db1 [id [err|]]] eqn:Hsave;
    cbv beta iota;
    cbn [DB Session rand logs spawned replies w set_DB set_Session set_rand
         set_logs set_spawned set_replies set_w fst];
    [by rewrite last_snoc|].
  destruct (database.SaveChunk _ _ _ _) as [db2 err2] eqn:Hchunk;
    cbv beta iota;
    cbn [DB Session rand logs spawned replies w set_DB set_Session set_rand
         set_logs set_spawned set_replies set_w fst].
  rewrite last_snoc. intros [= ->] Hq.
  apply http_Get_Ok_inv in Hget as (-> & Hm1 & Hc1).
  apply Encrypt_inv in Henc as (Hlen & _ & ->).
  apply ChannelFileSend_Ok_inv in Hsend as (-> & Hm2 & Hc2 & Hfresh).
  apply SaveFile_Ok_inv in Hsave as (_ & _ & Hfk & Hfiles & Hchunks & _ & Htape).
  rewrite SaveChunk_eq, Htape, Hq in Hchunk.
  cbn zeta in Hchunk.
  rewrite (proj2 (andb_false_iff _ _)) in Hchunk; last first.
  { right. apply bool_decide_eq_false. intros Hno. apply Hno.
    rewrite Hfiles, fmap_app. apply elem_of_app. right. left. }
  injection Hchunk as <- <-.
  cbn [database.files database.chunks discordgo.Message.ID].
  eexists _, _, _. split; [|split; [|split; [|split; [|split]]]].
  - rewrite length_take. exact (Nat.min_l _ _ Hlen).
  - by rewrite <- Hm1.
  - by rewrite Hm2, Hm1.
  - by rewrite Hc2, Hc1.
  - done.
  - by rewrite Hchunks.
Qed.

Lemma bot_handleUpload_one_chunk_witness :
  one_chunk_recorded demo_bot demo_attachment demo_with_attachment 1.
Proof.
  apply bot_handleUpload_one_chunk.
  - vm_compute. reflexivity.
  - reflexivity.
Defined.

(** When the store fails that INSERT the handler does not notice: it
    reports success for file 1, whose row is written, and no chunk row
    exists. *)
Lemma bot_upload_without_chunk_record :
  last (replies (bot.handleUpload demo_bot demo_attachment
                   demo_faulty_with_attachment).1)
  = Some (ReplyObjectSecured 1)
  ∧ database.FileMetadata.ID
      <$> database.files (DB (bot.handleUpload demo_bot demo_attachment
                                demo_faulty_with_attachment).1) = [1]
  ∧ database.chunks (DB (bot.handleUpload demo_bot demo_attachment
                           demo_faulty_with_attachment).1) = []
  ∧ ¬ one_chunk_recorded demo_bot demo_attachment
        demo_faulty_with_attachment 1.
Proof.
  assert (database.chunks (DB (bot.handleUpload demo_bot demo_attachment
                                 demo_faulty_with_attachment).1) = []) as Hnone
    by (vm_compute; reflexivity).
  split; [vm_compute; reflexivity|]. split; [vm_compute; reflexivity|].
  split; [exact Hnone|].
  unfold one_chunk_recorded. cbv zeta.
  intros (nonce & msgID & rowid & _ & _ & _ & _ & _ & Hchunks).
  rewrite Hnone in Hchunks. by destruct (database.chunks _).
Qed.

(** The row of the five-byte attachment says 99 bytes, in one chunk. *)
Example bot_upload_reported_size :
  let st := (bot.handleUpload demo_bot demo_attachment demo_with_attachment).1 in
  database.FileMetadata.Size <$> database.files (DB st) = [99]
  ∧ database.ChunkMetadata.PartNum <$> database.chunks (DB st) = [1]
  ∧ size (discordgo.messages (Session st)) = 1%nat.
Proof. vm_compute. done. Qed.

(** ** The chunk records of a file *)

Section store_invariant.

Import database.

Implicit Types db : Database.

Lemma store_inv_same db db' :
  same_tables db db' → quiet (io_errors db') → store_inv db → store_inv db'.
Proof.
  intros (Hfk & Hf & _ & Hc & _) Hq (Hfk' & _ & Href & Hcomp).
  unfold store_inv, referential, complete. rewrite Hfk, Hf, Hc. done.
Qed.

Lemma store_inv_tl db :
  store_inv db → store_inv (set_io_errors (tl (io_errors db)) db).
Proof.
  intros Hinv. eapply store_inv_same; [|by apply quiet_tl, Hinv|done].
  apply same_tables_set_io_errors.
Qed.

Lemma filter_eq_filter_ne {A} (f : A → Z) (a b : Z) (l : list A) :
  a ≠ b →
  filter (λ x, f x = a) (filter (λ x, f x ≠ b) l) = filter (λ x, f x = a) l.
Proof.
  intros Hne. induction l as [|x l IH]; [done|].
  rewrite (filter_cons (λ x, f x ≠ b)). case_decide as Hx.
  - rewrite !filter_cons. by rewrite IH.
  - rewrite IH, filter_cons, decide_False; [done|].
    intros Heq. congruence.
Qed.


Lemma store_inv_DeleteFile id db :
  store_inv db → store_inv (DeleteFile id db).1.
Proof.
  intros Hinv. pose proof Hinv as (Hfk & Hq & Href & Hcomp).
  rewrite DeleteFile_eq, (quiet_hd _ Hq), Hfk. cbn.
  split; [done|]. split; [by apply quiet_tl|]. split.
  - intros r [Hne Hr]%list_elem_of_filter. cbn.
    apply Href, list_elem_of_fmap in Hr as (f & Heq & Hf).
    rewrite Heq. apply list_elem_of_fmap_2, list_elem_of_filter. split; [|done].
    by rewrite <- Heq.
  - intros f [Hne Hf]%list_elem_of_filter. cbn.
    rewrite filter_eq_filter_ne by done. by apply Hcomp.
Qed.

End store_invariant.

Section handlers_keep_store.

Import database.

Ltac simpl_state :=
  cbn [DB Session rand logs spawned replies w set_DB set_Session set_rand
       set_logs set_spawned set_replies set_w status header body fst snd].



Lemma keeps_store_bind {A B} (m : M A) (f : A → M B) :
  keeps_store m → (∀ a, keeps_store (f a)) → keeps_store (m ≫= f).
Proof.
  intros Hm Hf st Hinv. unfold mbind, M_bind. specialize (Hm st Hinv).
  destruct (m st) as [st1 [a|]]; cbn [fst] in *; [by apply Hf|done].
Qed.

Lemma keeps_store_frame {A} (m : M A) :
  (∀ st, DB (m st).1 = DB st) → keeps_store m.
Proof. intros Hm st Hinv. by rewrite Hm. Qed.

Lemma keeps_store_ret {A} (a : A) : keeps_store (mret a).
Proof. by apply keeps_store_frame. Qed.

Lemma keeps_store_Return {A} : keeps_store (@Return A).
Proof. by apply keeps_store_frame. Qed.

Lemma keeps_store_log_Printf e : keeps_store (log_Printf e).
Proof. by apply keeps_store_frame. Qed.

Lemma keeps_store_respond r : keeps_store (respond r).
Proof. by apply keeps_store_frame. Qed.

Lemma keeps_store_go t : keeps_store (go t).
Proof. by apply keeps_store_frame. Qed.

Lemma keeps_store_WriteHeader code : keeps_store (WriteHeader code).
Proof. by apply keeps_store_frame. Qed.

Lemma keeps_store_Write data : keeps_store (Write data).
Proof. by apply keeps_store_frame. Qed.

Lemma keeps_store_Header_Set k v : keeps_store (Header_Set k v).
Proof. by apply keeps_store_frame. Qed.

Lemma keeps_store_session {A} (f : discordgo.Session → discordgo.Session * A) :
  keeps_store (session f).
Proof.
  apply keeps_store_frame. intros st. unfold session. by destruct (f _).
Qed.

Lemma keeps_store_crypto_Encrypt data key : keeps_store (crypto_Encrypt data key).
Proof.
  apply keeps_store_frame. intros st. unfold crypto_Encrypt.
  by destruct (crypto.Encrypt _ _ _).
Qed.

Lemma keeps_store_GetFile id : keeps_store (db (GetFile id)).
Proof.
  intros st Hinv. unfold db. rewrite GetFile_eq. cbv zeta.
  destruct (hd false _); [|destruct (filter _ _)]; simpl_state;
    by apply store_inv_tl.
Qed.

Lemma keeps_store_GetChunks id : keeps_store (db (GetChunks id)).
Proof.
  intros st Hinv. unfold db. rewrite GetChunks_eq. cbv zeta.
  destruct (hd false _); simpl_state; by apply store_inv_tl.
Qed.

Lemma keeps_store_DeleteFile id : keeps_store (db (DeleteFile id)).
Proof.
  intros st Hinv. unfold db.
  pose proof (store_inv_DeleteFile id _ Hinv) as Hdel.
  by destruct (DeleteFile id (DB st)).
Qed.

Create HintDb keeps discriminated.

#[local] Hint Resolve keeps_store_ret keeps_store_Return keeps_store_log_Printf
  keeps_store_respond keeps_store_go keeps_store_WriteHeader keeps_store_Write
  keeps_store_Header_Set keeps_store_session keeps_store_crypto_Encrypt
  keeps_store_GetFile keeps_store_GetChunks keeps_store_DeleteFile : keeps.

Ltac keeps :=
  repeat first
    [ apply keeps_store_bind; [|intros ?]
    | progress auto with keeps
    | match goal with
      | |- keeps_store (match ?x with _ => _ end) => destruct x
      end ].

Lemma keeps_store_http_Error msg code : keeps_store (http_Error msg code).
Proof. unfold http_Error. keeps. Qed.

#[local] Hint Resolve keeps_store_http_Error : keeps.

Lemma keeps_store_download_chunks s chunks :
  keeps_store (server.download_chunks s chunks).
Proof.
  induction chunks as [|chunk chunks IH]; cbn [server.download_chunks]; keeps.
Qed.

Lemma keeps_store_delete_messages chunks :
  keeps_store (bot.delete_messages chunks).
Proof.
  induction chunks as [|chunk chunks IH]; cbn [bot.delete_messages]; keeps.
Qed.

#[local] Hint Resolve keeps_store_download_chunks keeps_store_delete_messages
  : keeps.











End handlers_keep_store.

Section handlers_use_calls.

Import database.

Lemma run_calls_app (cs cs' : list Call) db :
  run_calls (cs ++ cs') db = run_calls cs' (run_calls cs db).
Proof. apply foldl_app. Qed.

Lemma uses_calls_bind {A B} (m : M A) (f : A → M B) :
  uses_calls m → (∀ a, uses_calls (f a)) → uses_calls (m ≫= f).
Proof.
  intros Hm Hf st. unfold mbind, M_bind. destruct (Hm st) as (cs & Hcs).
  destruct (m st) as [st1 [a|]]; cbn [fst] in *; [|by exists cs].
  destruct (Hf a st1) as (cs' & Hcs'). exists (cs ++ cs').
  by rewrite run_calls_app, <- Hcs.
Qed.

Lemma uses_calls_frame {A} (m : M A) :
  (∀ st, DB (m st).1 = DB st) → uses_calls m.
Proof. intros Hm st. exists []. apply Hm. Qed.

Lemma uses_calls_db {A} (c : Call) (f : Database → Database * A) :
  (∀ d, (f d).1 = run_call c d) → uses_calls (db f).
Proof.
  intros Hf st. exists [c]. unfold db. specialize (Hf (DB st)).
  by destruct (f (DB st)).
Qed.

Lemma uses_calls_ret {A} (a : A) : uses_calls (mret a).
Proof. by apply uses_calls_frame. Qed.

Lemma uses_calls_Return {A} : uses_calls (@Return A).
Proof. by apply uses_calls_frame. Qed.

Lemma uses_calls_log_Printf e : uses_calls (log_Printf e).
Proof. by apply uses_calls_frame. Qed.

Lemma uses_calls_respond r : uses_calls (respond r).
Proof. by apply uses_calls_frame. Qed.

Lemma uses_calls_go t : uses_calls (go t).
Proof. by apply uses_calls_frame. Qed.

Lemma uses_calls_WriteHeader code : uses_calls (WriteHeader code).
Proof. by apply uses_calls_frame. Qed.

Lemma uses_calls_Write data : uses_calls (Write data).
Proof. by apply uses_calls_frame. Qed.

Lemma uses_calls_Header_Set k v : uses_calls (Header_Set k v).
Proof. by apply uses_calls_frame. Qed.

Lemma uses_calls_session {A} (f : discordgo.Session → discordgo.Session * A) :
  uses_calls (session f).
Proof.
  apply uses_calls_frame. intros st. unfold session. by destruct (f _).
Qed.

Lemma uses_calls_crypto_Encrypt data key : uses_calls (crypto_Encrypt data key).
Proof.
  apply uses_calls_frame. intros st. unfold crypto_Encrypt.
  by destruct (crypto.Encrypt _ _ _).
Qed.

Lemma uses_calls_GetFile id : uses_calls (db (GetFile id)).
Proof. by apply (uses_calls_db (CallGetFile id)). Qed.

Lemma uses_calls_GetChunks id : uses_calls (db (GetChunks id)).
Proof. by apply (uses_calls_db (CallGetChunks id)). Qed.

Lemma uses_calls_DeleteFile id : uses_calls (db (DeleteFile id)).
Proof. by apply (uses_calls_db (CallDeleteFile id)). Qed.

Lemma uses_calls_SaveFile name size hash : uses_calls (db (SaveFile name size hash)).
Proof. by apply (uses_calls_db (CallSaveFile name size hash)). Qed.

Lemma uses_calls_SaveChunk fileID msgID partNum :
  uses_calls (db (SaveChunk fileID msgID partNum)).
Proof. by apply (uses_calls_db (CallSaveChunk fileID msgID partNum)). Qed.

Create HintDb calls discriminated.

#[local] Hint Resolve uses_calls_ret uses_calls_Return uses_calls_log_Printf
  uses_calls_respond uses_calls_go uses_calls_WriteHeader uses_calls_Write
  uses_calls_Header_Set uses_calls_session uses_calls_crypto_Encrypt
  uses_calls_GetFile uses_calls_GetChunks uses_calls_DeleteFile
  uses_calls_SaveFile uses_calls_SaveChunk : calls.

Ltac calls :=
  repeat first
    [ apply uses_calls_bind; [|intros ?]
    | progress auto with calls
    | match goal with
      | |- uses_calls (match ?x with _ => _ end) => destruct x
      | |- uses_calls (let '(_, _) := ?x in _) => destruct x
      end ].

Lemma uses_calls_http_Error msg code : uses_calls (http_Error msg code).
Proof. unfold http_Error. calls. Qed.

#[local] Hint Resolve uses_calls_http_Error : calls.

Lemma uses_calls_download_chunks s chunks :
  uses_calls (server.download_chunks s chunks).
Proof.
  induction chunks as [|chunk chunks IH]; cbn [server.download_chunks]; calls.
Qed.

Lemma uses_calls_delete_messages chunks :
  uses_calls (bot.delete_messages chunks).
Proof.
  induction chunks as [|chunk chunks IH]; cbn [bot.delete_messages]; calls.
Qed.

Lemma uses_calls_save_chunks fileID idx messageIDs :
  uses_calls (server.save_chunks fileID idx messageIDs).
Proof.
  revert idx. induction messageIDs as [|msgID messageIDs IH]; intros idx;
    cbn [server.save_chunks]; calls.
Qed.

#[local] Hint Resolve uses_calls_download_chunks uses_calls_delete_messages
  uses_calls_save_chunks : calls.

Lemma uses_calls_handleDownload s id : uses_calls (server.handleDownload s id).
Proof. unfold server.handleDownload. calls. Qed.

Lemma uses_calls_bot_handleDelete b id : uses_calls (bot.handleDelete b id).
Proof. unfold bot.handleDelete, bot.followup. calls. Qed.

Lemma uses_calls_bot_handleUpload b a : uses_calls (bot.handleUpload b a).
Proof. unfold bot.handleUpload, bot.followup. calls. Qed.

Lemma uses_calls_run_NotifyUpload : uses_calls bot.run_NotifyUpload.
Proof. unfold bot.run_NotifyUpload. calls. Qed.

Lemma uses_calls_persist_upload v : uses_calls (persist_upload v).
Proof. unfold persist_upload. calls. Qed.

Lemma uses_calls_handleUpload s r : uses_calls (server.handleUpload s r).
Proof.
  intros st. destruct r as [[mr|e]]; [|by exists []].
  rewrite handleUpload_eq.
  pose proof (for_parts_DB s mr (server.mkUploadVars "" 0 [] []) st) as Hdb.
  destruct (server.for_parts _ _ _ _) as [st1 [v|]]; cbn [fst] in Hdb |- *;
    [|by exists []].
  rewrite <- Hdb. case_decide as Hlen.
  - assert (uses_calls (http_Error "Payload empty" StatusBadRequest ;;
                        @Return unit)) as H by calls.
    apply H.
  - apply uses_calls_persist_upload.
Qed.

Lemma handleDelete_uses_calls s id st st' :
  server.handleDelete s id st st' → ∃ cs, DB st' = run_calls cs (DB st).
Proof.
  intros (c & Hrun & Hret & ->).
  pose proof (reachable_store_inv s id st c Hrun) as Hc.
  unfold delete_store_inv in Hc. rewrite Hret in Hc.
  assert (set_io_errors (tl (io_errors (DB st))) (DB st)
          = run_call (CallGetChunks id) (DB st)) as Hget.
  { cbn [run_call]. rewrite GetChunks_eq. cbv zeta.
    by destruct (hd false _). }
  destruct Hc as [(_ & -> & _)|(_ & -> & _)].
  - by exists [CallGetChunks id].
  - exists [CallGetChunks id; CallDeleteFile id]. by rewrite Hget.
Qed.

(** Whatever a vault has served since [st0], its store is the store of
    [st0] after a sequence of calls. *)
Lemma reachable_from_calls st0 st :
  reachable_from st0 st → ∃ cs, DB st = run_calls cs (DB st0).
Proof.
  assert (∀ {A} (m : M A) st1, uses_calls m →
            (∃ cs, DB st1 = run_calls cs (DB st0)) →
            ∃ cs, DB (m st1).1 = run_calls cs (DB st0)) as Hstep.
  { intros A m st1 Hm (cs & Hcs). destruct (Hm st1) as (cs' & Hcs').
    exists (cs ++ cs'). by rewrite run_calls_app, <- Hcs. }
  induction 1 as
    [|s r st _ IH|s id st _ IH|s id st st' _ IH Hdel|b a st _ IH
     |b id st _ IH|st _ IH|d r st _ IH].
  - by exists [].
  - apply (Hstep _ (server.handleUpload s r) (set_w fresh_writer st));
      [apply uses_calls_handleUpload|done].
  - apply (Hstep _ (server.handleDownload s id) (set_w fresh_writer st));
      [apply uses_calls_handleDownload|done].
  - destruct IH as (cs & Hcs).
    destruct (handleDelete_uses_calls _ _ _ _ Hdel) as (cs' & Hcs').
    exists (cs ++ cs'). by rewrite run_calls_app, <- Hcs.
  - apply Hstep; [apply uses_calls_bot_handleUpload|done].
  - apply Hstep; [apply uses_calls_bot_handleDelete|done].
  - apply Hstep; [apply uses_calls_run_NotifyUpload|done].
  - done.
Qed.

(** So every store the vault comes to hold, once [Initialize] has opened
    it, is that store after a sequence of calls. *)
Lemma reachable_from_Initialize st0 st (disk : Database) :
  DB st0 = Initialize disk → reachable_from st0 st →
  ∃ cs, DB st = run_calls cs (Initialize disk).
Proof. intros <-. apply reachable_from_calls. Qed.

End handlers_use_calls.

Section upload_writer.

Import server database.

Context (s : Server).








End upload_writer.

(** The remote service refuses the upload: the answer is 500 and the store
    is as it was. *)
Example Put_with_remote_outage :
  let d := discordgo.mkSession ∅ ∅ ∅ [true] in
  let st := serve (server.handleUpload demo_server
                     (server.mkRequest
                        (Ok [multipart.mkPart "file" "a.bin" ["h"; "i"]%byte])))
                  (set_Session d demo_empty) in
  StatusCode (w st) = StatusInternalServerError
  ∧ DB st = DB demo_empty.
Proof. vm_compute. done. Qed.



(** On [demo_faulty] the insert of the file row succeeds and the insert of
    its one chunk row fails; the handler ignores that failure and answers
    200, and the file is left with no chunk row. *)
Example Put_with_failed_chunk_insert :
  let st := serve (server.handleUpload demo_server
                     (server.mkRequest
                        (Ok [multipart.mkPart "file" "a.bin" ["h"; "i"]%byte])))
                  demo_faulty in
  StatusCode (w st) = StatusOK
  ∧ database.files (DB st)
    = [database.FileMetadata.mk 1 "a.bin" 2 (Sum256 ["h"; "i"]%byte)]
  ∧ database.chunks (DB st) = []
  ∧ dom (discordgo.messages (Session st)) = {["0"]}.
Proof. vm_compute. done. Qed.


Section store_keys.

Import database listing.

Implicit Types db : Database.

Lemma NoDup_fmap_filter {A B} (f : A → B) (P : A → Prop)
    `{!∀ x, Decision (P x)} (l : list A) :
  NoDup (f <$> l) → NoDup (f <$> filter P l).
Proof.
  induction l as [|x l IH]; [done|]. rewrite filter_cons, fmap_cons.
  intros [Hx Hl]%NoDup_cons. case_decide; [|by apply IH].
  rewrite fmap_cons. apply NoDup_cons. split; [|by apply IH].
  intros (y & Heq & [_ Hy]%list_elem_of_filter)%list_elem_of_fmap.
  apply Hx. rewrite Heq. by apply list_elem_of_fmap_2.
Qed.

Lemma Forall_fmap_filter {A B} (f : A → B) (P : A → Prop) (Q : B → Prop)
    `{!∀ x, Decision (P x)} (l : list A) :
  Forall Q (f <$> l) → Forall Q (f <$> filter P l).
Proof.
  rewrite !Forall_fmap. intros Hall. apply Forall_forall.
  intros x [_ Hx]%list_elem_of_filter. rewrite Forall_forall in Hall. by apply Hall.
Qed.

Lemma ListFiles_eq created_at db :
  ListFiles created_at db =
    let db' := set_io_errors (tl (io_errors db)) db in
    if hd false (io_errors db) then (db', Err ErrIO)
    else (db', Ok (order_by_created_at created_at (files db))).
Proof.
  unfold ListFiles. rewrite statement_eq. by destruct (hd false _).
Qed.

Lemma insert_by_created_at_perm created_at f l :
  insert_by_created_at created_at f l ≡ₚ f :: l.
Proof.
  induction l as [|g l IH]; cbn; [done|]. case_decide; [done|].
  rewrite IH. apply Permutation_swap.
Qed.

Lemma order_by_created_at_perm created_at l :
  order_by_created_at created_at l ≡ₚ l.
Proof.
  induction l as [|f l IH]; [done|]. cbn.
  by rewrite insert_by_created_at_perm, IH.
Qed.

Lemma next_rowid_above seq rowids :
  0 ≤ seq → Forall (λ id, 0 < id ≤ seq) rowids →
  0 < next_rowid seq rowids ∧ seq < next_rowid seq rowids.
Proof.
  intros Hseq _. pose proof (next_rowid_fresh seq rowids) as [_ Hlt]. lia.
Qed.

Lemma well_keyed_same db db' :
  same_tables db db' → well_keyed db → well_keyed db'.
Proof.
  intros (Hfk & Hf & Hfs & Hc & Hcs).
  unfold well_keyed, referential. by rewrite Hf, Hfs, Hc, Hcs.
Qed.

Lemma well_keyed_tl db :
  well_keyed db → well_keyed (set_io_errors (tl (io_errors db)) db).
Proof. apply well_keyed_same, same_tables_set_io_errors. Qed.

Lemma run_call_keys c db :
  foreign_keys db = true → counters_nonneg db → well_keyed db →
  foreign_keys (run_call c db) = true
  ∧ counters_nonneg (run_call c db)
  ∧ well_keyed (run_call c db).
Proof.
  intros Hfk [Hfs Hcs] Hwk.
  pose proof Hwk as (Hids & Hnames & Hrange & Hcids & Hcrange & Href).
  destruct c as [name size hash|fileID messageID partNum|created_at|id|id|fileID];
    cbn [run_call].
  - rewrite SaveFile_eq. cbv zeta.
    destruct (hd false _); [by auto using well_keyed_tl|].
    case_decide as Hname; [by auto using well_keyed_tl|]. cbn [fst].
    pose proof (next_rowid_fresh (files_seq db) (FileMetadata.ID <$> files db))
      as [Hall Hlt].
    set (id := next_rowid _ _) in *. clearbody id.
    split; [done|]. split; [split; cbn; lia|].
    unfold well_keyed, referential. cbn.
    rewrite !fmap_app. cbn.
    split; [|split; [|split; [|split; [done|split; [done|]]]]].
    + apply NoDup_app. split; [done|]. split; [|apply NoDup_singleton].
      intros x Hx ->%list_elem_of_singleton.
      rewrite Forall_forall in Hall. specialize (Hall _ Hx). lia.
    + apply NoDup_app. split; [done|]. split; [|apply NoDup_singleton].
      by intros x Hx ->%list_elem_of_singleton.
    + apply Forall_app. split.
      * eapply Forall_impl; [exact Hrange|]. cbn. lia.
      * apply Forall_singleton. lia.
    + intros r Hr. apply elem_of_app. left. by apply Href.
  - rewrite SaveChunk_eq. cbv zeta.
    destruct (hd false _); [by auto using well_keyed_tl|].
    rewrite Hfk. cbn [andb].
    case_bool_decide as Hparent; [by auto using well_keyed_tl|]. cbn [fst].
    pose proof (next_rowid_fresh (chunks_seq db) (ChunkMetadata.ID <$> chunks db))
      as [Hall Hlt].
    set (id := next_rowid _ _) in *. clearbody id.
    split; [done|]. split; [split; cbn; lia|].
    unfold well_keyed, referential. cbn.
    rewrite !fmap_app. cbn.
    split; [done|]. split; [done|]. split; [done|].
    split; [|split].
    + apply NoDup_app. split; [done|]. split; [|apply NoDup_singleton].
      intros x Hx ->%list_elem_of_singleton.
      rewrite Forall_forall in Hall. specialize (Hall _ Hx). lia.
    + apply Forall_app. split.
      * eapply Forall_impl; [exact Hcrange|]. cbn. lia.
      * apply Forall_singleton. lia.
    + intros r [Hr|Hr%list_elem_of_singleton]%elem_of_app; [by apply Href|].
      by subst r.
  - rewrite ListFiles_eq. cbv zeta.
    destruct (hd false _); by auto using well_keyed_tl.
  - rewrite GetFile_eq. cbv zeta.
    destruct (hd false _); [|destruct (filter _ _)]; by auto using well_keyed_tl.
  - rewrite DeleteFile_eq. cbv zeta.
    destruct (hd false _); [by auto using well_keyed_tl|]. cbn [fst].
    rewrite Hfk. split; [done|]. split; [done|].
    unfold well_keyed, referential. cbn.
    split; [|split; [|split; [|split; [|split]]]].
    + by apply NoDup_fmap_filter.
    + by apply NoDup_fmap_filter.
    + by apply Forall_fmap_filter.
    + by apply NoDup_fmap_filter.
    + by apply Forall_fmap_filter.
    + intros r [Hne Hr]%list_elem_of_filter.
      apply Href, list_elem_of_fmap in Hr as (f & Heq & Hf).
      rewrite Heq. apply list_elem_of_fmap_2, list_elem_of_filter.
      split; [|done]. by rewrite <- Heq.
  - rewrite GetChunks_eq. cbv zeta.
    destruct (hd false _); by auto using well_keyed_tl.
Qed.

Lemma run_calls_keys cs db :
  foreign_keys db = true → counters_nonneg db → well_keyed db →
  foreign_keys (run_calls cs db) = true
  ∧ counters_nonneg (run_calls cs db)
  ∧ well_keyed (run_calls cs db).
Proof.
  revert db. induction cs as [|c cs IH]; intros db Hfk Hc Hwk; [done|].
  cbn. destruct (run_call_keys c db Hfk Hc Hwk) as (? & ? & ?). by apply IH.
Qed.

End store_keys.

(** X1. Whatever calls are made on a store that [Initialize] opened empty,
    and whichever of them fail: file ids are positive and pairwise
    distinct, names are pairwise distinct, chunk ids are positive and
    pairwise distinct, and every chunk row belongs to a file row. *)
Theorem store_keys_invariant (tape : list bool) (cs : list Call) :
  well_keyed (run_calls cs (database.Initialize (database.empty tape))).
Proof.
  apply run_calls_keys.
  - done.
  - split; cbn; lia.
  - unfold well_keyed, referential. cbn.
    repeat split; try apply NoDup_nil_2; try apply Forall_nil_2.
    intros r Hr. by apply elem_of_nil in Hr.
Qed.

Section store_queries.

Import database listing.

Implicit Types db : Database.

Local Abbreviation by_part :=
  (λ c d, ChunkMetadata.PartNum c ≤ ChunkMetadata.PartNum d).

Lemma insert_by_part_num_Sorted c l :
  Sorted by_part l → Sorted by_part (insert_by_part_num c l).
Proof.
  induction 1 as [|d l Hs IH Hhd]; cbn.
  - by repeat constructor.
  - case_decide as Hcd.
    + constructor; [by constructor|]. by constructor.
    + constructor; [done|].
      destruct Hhd as [|e l Hde]; cbn.
      * constructor. lia.
      * case_decide; constructor; lia.
Qed.

Lemma order_by_part_num_Sorted l : Sorted by_part (order_by_part_num l).
Proof.
  induction l as [|c l IH]; [constructor|].
  rewrite order_by_part_num_cons. by apply insert_by_part_num_Sorted.
Qed.

Lemma run_call_files_seq c db : files_seq db ≤ files_seq (run_call c db).
Proof.
  destruct c as [name size hash|fileID messageID partNum|created_at|id|id|fileID];
    cbn [run_call].
  - rewrite SaveFile_eq. cbv zeta.
    destruct (hd false _); [done|]. case_decide; [done|]. cbn.
    pose proof (next_rowid_fresh (files_seq db) (FileMetadata.ID <$> files db)).
    lia.
  - rewrite SaveChunk_eq. cbv zeta.
    destruct (hd false _); [done|]. by destruct (_ && _).
  - rewrite ListFiles_eq. cbv zeta. by destruct (hd false _).
  - rewrite GetFile_eq. cbv zeta.
    destruct (hd false _); [done|]. by destruct (filter _ _).
  - rewrite DeleteFile_eq. cbv zeta. by destruct (hd false _).
  - rewrite GetChunks_eq. cbv zeta. by destruct (hd false _).
Qed.

Lemma run_calls_files_seq cs db : files_seq db ≤ files_seq (run_calls cs db).
Proof.
  revert db. induction cs as [|c cs IH]; intros db; [done|]. cbn.
  etrans; [apply (run_call_files_seq c)|apply IH].
Qed.

End store_queries.

(** X2. AUTOINCREMENT: the id [SaveFile] gives a new file is larger than
    the id it gave any earlier one, whatever was done to the store in
    between; the id of a deleted file does not come back. *)
Theorem file_ids_never_reused (name1 name2 : string) (size1 size2 : Z)
    (hash1 hash2 : Digest) (cs : list Call)
    (db db1 db2 : database.Database) (id1 id2 : Z) :
  database.SaveFile name1 size1 hash1 db = (db1, (id1, None)) →
  database.SaveFile name2 size2 hash2 (run_calls cs db1) = (db2, (id2, None)) →
  id1 < id2.
Proof.
  rewrite SaveFile_eq. cbv zeta.
  destruct (hd false (database.io_errors db)); [done|]. case_decide; [done|].
  intros [= <- <-]. rewrite SaveFile_eq. cbv zeta.
  destruct (hd false _); [done|]. case_decide; [done|].
  intros [= _ <-].
  match goal with
  | |- _ < database.next_rowid (database.files_seq (run_calls cs ?d)) ?ids =>
      pose proof (run_calls_files_seq cs d) as Hseq;
      pose proof (next_rowid_fresh (database.files_seq (run_calls cs d)) ids)
        as [_ Hlt]
  end.
  cbn [database.files_seq] in Hseq. lia.
Qed.

Lemma file_ids_never_reused_witness : 1 < 2.
Proof.
  apply (file_ids_never_reused "a.bin" "b.bin" 3 4 (Sum256 []) (Sum256 [])
           [CallDeleteFile 1]
           (database.Initialize (database.empty []))
           demo_saved
           (database.SaveFile "b.bin" 4 (Sum256 [])
              (run_calls [CallDeleteFile 1] demo_saved)).1).
  - reflexivity.
  - reflexivity.
Defined.

(** X3. [GetChunks] gives the chunk rows of the file, each once, in
    ascending [part_num] order, and leaves the tables as they are; it
    fails only when the statement does. *)
Theorem GetChunks_sorted_by_part_num (fileID : Z) (db : database.Database) :
  same_tables db (database.GetChunks fileID db).1
  ∧ match (database.GetChunks fileID db).2 with
    | Ok rows =>
        Sorted (λ c d, database.ChunkMetadata.PartNum c
                       ≤ database.ChunkMetadata.PartNum d) rows
        ∧ rows ≡ₚ filter (λ c, database.ChunkMetadata.FileID c = fileID)
                         (database.chunks db)
    | Err e => e = ErrIO ∧ hd false (database.io_errors db) = true
    end.
Proof.
  rewrite GetChunks_eq. cbv zeta.
  destruct (hd false _); cbn [fst snd].
  - split; [apply same_tables_set_io_errors|done].
  - split; [apply same_tables_set_io_errors|].
    split; [apply order_by_part_num_Sorted|apply order_by_part_num_perm].
Qed.

(** X4. A file row that [SaveFile] has written is what [GetFile] gives for
    the id returned, and [ListFiles] has it; a second [SaveFile] under the
    same name is refused, returns id 0 and leaves the tables as they
    are. *)
Theorem SaveFile_then_GetFile (name : string) (size : Z) (hash : Digest)
    (db db' : database.Database) (id : Z) :
  database.SaveFile name size hash db = (db', (id, None)) →
  hd false (database.io_errors db') = false →
  let row := database.FileMetadata.mk id name size hash in
  (database.GetFile id db').2 = Ok row
  ∧ (∀ created_at, ∃ rows,
       (listing.ListFiles created_at db').2 = Ok rows ∧ row ∈ rows)
  ∧ (∀ size2 hash2,
       (database.SaveFile name size2 hash2 db').2 = (0, Some ErrConstraint)
       ∧ same_tables db' (database.SaveFile name size2 hash2 db').1).
Proof.
  intros Hsave Hio row.
  apply SaveFile_Ok_inv in Hsave as (_ & Hid & _ & Hfiles & _).
  split; [|split].
  - rewrite GetFile_eq, Hio, Hfiles, filter_app. cbv zeta.
    rewrite (filter_none _ (database.files db)).
    + rewrite filter_cons, decide_True by done. done.
    + intros f Hf Heq.
      pose proof (next_rowid_fresh (database.files_seq db)
                    (database.FileMetadata.ID <$> database.files db)) as [Hall _].
      rewrite Forall_forall in Hall.
      specialize (Hall _ (list_elem_of_fmap_2 database.FileMetadata.ID _ _ Hf)).
      lia.
  - intros created_at. rewrite ListFiles_eq, Hio. cbv zeta. eexists. split; [done|].
    rewrite order_by_created_at_perm, Hfiles. apply elem_of_app. right. left.
  - intros size2 hash2. rewrite SaveFile_eq, Hio. cbv zeta.
    rewrite decide_True.
    + split; [done|apply same_tables_set_io_errors].
    + rewrite Hfiles, fmap_app. apply elem_of_app. right. left.
Qed.

Lemma SaveFile_then_GetFile_witness :
  (database.GetFile 1 demo_saved).2
  = Ok (database.FileMetadata.mk 1 "a.bin" 3 (Sum256 []))
  ∧ (∀ created_at, ∃ rows,
       (listing.ListFiles created_at demo_saved).2 = Ok rows
       ∧ database.FileMetadata.mk 1 "a.bin" 3 (Sum256 []) ∈ rows)
  ∧ (∀ size2 hash2,
       (database.SaveFile "a.bin" size2 hash2 demo_saved).2
       = (0, Some ErrConstraint)
       ∧ same_tables demo_saved
           (database.SaveFile "a.bin" size2 hash2 demo_saved).1).
Proof.
  apply (SaveFile_then_GetFile "a.bin" 3 (Sum256 [])
           (database.Initialize (database.empty []))).
  - reflexivity.
  - reflexivity.
Defined.

(** X5. [DeleteFile] takes out the row of that id and nothing else: the
    other file rows stay, in order, and so do the chunk rows of every
    other file.  For an id the store does not hold it reports no error and
    changes no table. *)
Theorem DeleteFile_leaves_the_rest (id : Z) (db : database.Database) :
  hd false (database.io_errors db) = false →
  ∃ db',
    database.DeleteFile id db = (db', None)
    ∧ database.files db'
      = filter (λ f, database.FileMetadata.ID f ≠ id) (database.files db)
    ∧ (∀ id', id' ≠ id → file_chunks id' db' = file_chunks id' db)
    ∧ (id ∉ database.FileMetadata.ID <$> database.files db →
       referential db → same_tables db db').
Proof.
  intros Hio. rewrite DeleteFile_eq, Hio. cbv zeta.
  eexists. split; [done|]. cbn [database.files database.chunks].
  split; [done|]. split.
  - intros id' Hne. unfold file_chunks. cbn [database.chunks].
    destruct (database.foreign_keys db); [|done].
    by rewrite filter_eq_filter_ne.
  - intros Hid Href. unfold same_tables. cbn.
    split; [done|]. split; [|split; [done|split; [|done]]].
    + apply filter_all, Forall_forall. intros f Hf Heq. apply Hid.
      rewrite <- Heq. by apply list_elem_of_fmap_2.
    + destruct (database.foreign_keys db); [|done].
      apply filter_all, Forall_forall. intros r Hr Heq. apply Hid.
      rewrite <- Heq. by apply Href.
Qed.

Lemma DeleteFile_leaves_the_rest_witness :
  ∃ db',
    database.DeleteFile 7 (DB demo_one_file) = (db', None)
    ∧ database.files db'
      = filter (λ f, database.FileMetadata.ID f ≠ 7)
               (database.files (DB demo_one_file))
    ∧ (∀ id', id' ≠ 7 →
       file_chunks id' db' = file_chunks id' (DB demo_one_file))
    ∧ (7 ∉ database.FileMetadata.ID <$> database.files (DB demo_one_file) →
       referential (DB demo_one_file) → same_tables (DB demo_one_file) db').
Proof. apply (DeleteFile_leaves_the_rest 7 (DB demo_one_file)). reflexivity. Defined.

Example formatBytes_1023 : format.formatBytes 1023 = Some (FormattedBytes 1023).
Proof. reflexivity. Qed.

Section format_bytes.

Import format Stdlib.Strings.Ascii.

Example formatBytes_7MiB :
  formatBytes (7 * 1024 * 1024) = Some (FormattedScaled 7340032 1048576 "M"%char).
Proof. vm_compute. reflexivity. Qed.

Lemma scale_unfold n div exp :
  scale n div exp =
    if decide (unit ≤ n) then scale (n ÷ unit) (int64 (div * unit)) (S exp)
    else (div, exp).
Proof. funelim (scale n div exp); by rewrite Heq. Qed.

Lemma scale_spec b n div exp :
  1 ≤ n → div * n ≤ b < div * (n + 1) → b < 2 ^ 63 →
  div = 1024 ^ (Z.of_nat exp + 1) →
  ∃ div' exp',
    scale n div exp = (div', exp')
    ∧ div' = 1024 ^ (Z.of_nat exp' + 1)
    ∧ div' ≤ b < 1024 * div'.
Proof.
  remember (Z.to_nat n) as k eqn:Hk. revert n div exp Hk.
  induction (lt_wf k) as [k _ IH]. intros n div exp -> Hn Hb Hmax Hpow.
  assert (0 < div) by (rewrite Hpow; apply Z.pow_pos_nonneg; lia).
  rewrite scale_unfold. unfold unit. case_decide as Hbig.
  - assert (0 ≤ n ÷ 1024) by (apply Z.quot_pos; lia).
    pose proof (Z.quot_rem' n 1024) as Hqr.
    pose proof (Z.rem_bound_pos n 1024 ltac:(lia) ltac:(lia)) as Hrem.
    assert (int64 (div * 1024) = div * 1024) as ->.
    { unfold int64. rewrite Z.mod_small; nia. }
    eapply (IH (Z.to_nat (n ÷ 1024))); [lia|done|lia|nia|done|].
    rewrite Hpow, Nat2Z.inj_succ.
    replace (Z.succ (Z.of_nat exp) + 1) with (Z.succ (Z.of_nat exp + 1)) by lia.
    rewrite Z.pow_succ_r by lia. lia.
  - eexists _, _. split; [done|]. split; [done|]. nia.
Qed.

Lemma pow_1024_bound (k : nat) : 1024 ^ (Z.of_nat k + 1) < 2 ^ 63 → (k ≤ 5)%nat.
Proof.
  intros Hlt. destruct (decide (k ≤ 5)%nat) as [|Hk]; [done|]. exfalso.
  assert (1024 ^ 7 ≤ 1024 ^ (Z.of_nat k + 1))
    by (apply Z.pow_le_mono_r; lia).
  assert (2 ^ 63 < 1024 ^ 7) by (vm_compute; done). lia.
Qed.

Lemma formatBytes_int64 b :
  - 2 ^ 63 ≤ b < 2 ^ 63 → ∃ size, formatBytes b = Some size.
Proof.
  intros [Hmin Hmax]. unfold formatBytes, unit.
  case_decide as Hsmall; [by eexists|].
  pose proof (Z.quot_rem' b 1024) as Hqr.
  pose proof (Z.rem_bound_pos b 1024 ltac:(lia) ltac:(lia)) as Hrem.
  destruct (scale_spec b (b ÷ 1024) 1024 0) as (div & exp & -> & Hdiv & Hb);
    [lia|lia|lia|done|].
  assert (exp ≤ 5)%nat as Hexp by (apply pow_1024_bound; lia).
  do 6 (destruct exp as [|exp]; [by eexists|]). lia.
Qed.

End format_bytes.

(** X6. For every [int64] the index into ["KMGTPE"] is in range, so
    [formatBytes] does not panic.  Below 1024, negative sizes included, it
    prints the number of bytes; from 1024 on it prints the size over
    [1024 ^ (k + 1)] with the [k]-th letter, where that quotient is at
    least 1 and below 1024, and the multiplications never wrap. *)
Theorem formatBytes_unit_in_range (b : Z) :
  - 2 ^ 63 ≤ b < 2 ^ 63 →
  (b < 1024 ∧ format.formatBytes b = Some (FormattedBytes b))
  ∨ (∃ (k : nat) (u : Ascii.ascii),
       format.formatBytes b = Some (FormattedScaled b (1024 ^ (Z.of_nat k + 1)) u)
       ∧ String.get k "KMGTPE" = Some u
       ∧ 1024 ^ (Z.of_nat k + 1) ≤ b < 1024 * 1024 ^ (Z.of_nat k + 1)).
Proof.
  intros [Hmin Hmax]. unfold format.formatBytes, format.unit.
  case_decide as Hsmall; [by left|right].
  pose proof (Z.quot_rem' b 1024) as Hqr.
  pose proof (Z.rem_bound_pos b 1024 ltac:(lia) ltac:(lia)) as Hrem.
  destruct (scale_spec b (b ÷ 1024) 1024 0) as (div & exp & -> & Hdiv & Hb);
    [lia|lia|lia|done|].
  assert (exp ≤ 5)%nat as Hexp by (apply pow_1024_bound; lia).
  destruct (String.get exp "KMGTPE") as [u|] eqn:Hu.
  - exists exp, u. cbn. rewrite Hdiv in *. done.
  - exfalso. do 6 (destruct exp as [|exp]; [done|]). lia.
Qed.

Lemma formatBytes_unit_in_range_witness :
  (5000 < 1024 ∧ format.formatBytes 5000 = Some (FormattedBytes 5000))
  ∨ (∃ (k : nat) (u : Ascii.ascii),
       format.formatBytes 5000
       = Some (FormattedScaled 5000 (1024 ^ (Z.of_nat k + 1)) u)
       ∧ String.get k "KMGTPE" = Some u
       ∧ 1024 ^ (Z.of_nat k + 1) ≤ 5000 < 1024 * 1024 ^ (Z.of_nat k + 1)).
Proof. apply (formatBytes_unit_in_range 5000). lia. Defined.

Section strings.

Import environ Stdlib.Strings.Ascii.

Example Split_three : strings_Split "12, 34,,5" ","%char = ["12"; " 34"; ""; "5"].
Proof. reflexivity. Qed.

Example Split_empty : strings_Split "" ","%char = [""].
Proof. reflexivity. Qed.

Example TrimSpace_ascii : strings_TrimSpace "  12 34	 " = "12 34".
Proof. vm_compute. reflexivity. Qed.

Example TrimSpace_nbsp :
  strings_TrimSpace (bytes [194; 160; 49; 226; 128; 168; 32]%N) = "1".
Proof. vm_compute. reflexivity. Qed.

Example TrimSpace_broken_rune :
  strings_TrimSpace (bytes [32; 194; 32; 49; 160; 32]%N)
  = bytes [194; 32; 49; 160]%N.
Proof. vm_compute. reflexivity. Qed.

Example TrimSpace_blank : strings_TrimSpace "   " = "".
Proof. vm_compute. reflexivity. Qed.

End strings.

Section load.

Import environ Stdlib.Strings.Ascii.

Lemma length_list_byte_of_string (s : string) :
  length (String.list_byte_of_string s) = String.length s.
Proof.
  unfold String.list_byte_of_string. rewrite length_map.
  induction s as [|c s IH]; [done|]. cbn. by rewrite IH.
Qed.

Lemma strings_Split_nonempty s sep : strings_Split s sep ≠ [].
Proof.
  destruct s as [|c s]; [done|]. cbn. case_decide; [done|].
  by destruct (strings_Split s sep).
Qed.

Lemma range_AllowedUsers_elem_of ids userID :
  commands.range_AllowedUsers ids userID = true ↔ userID ∈ ids.
Proof.
  induction ids as [|id ids IH]; cbn.
  - split; [done|]. by intros ?%elem_of_nil.
  - case_decide as Heq.
    + subst. split; [left|done].
    + rewrite IH. split; [by right|].
      intros [?|?]%elem_of_cons; [congruence|done].
Qed.

End load.

Section configuration.

Import Stdlib.Strings.Ascii.

(** X7. [Load] gives a configuration exactly when the token and the
    channel id are set and the key is 32 bytes long; the key it gives is
    those 32 bytes.  It reports the first of the three that is wrong, in
    that order. *)
Theorem Load_checks_environment (env : gmap string string) :
  let token := environ.Getenv env "DISCORD_TOKEN" in
  let channelID := environ.Getenv env "DISCORD_CHANNEL_ID" in
  let key := environ.Getenv env "ENCRYPTION_KEY" in
  match environ.Load env with
  | inl cfg =>
      token ≠ "" ∧ channelID ≠ ""
      ∧ environ.DiscordToken cfg = token
      ∧ config.ChannelID (environ.Config cfg) = channelID
      ∧ config.EncryptionKey (environ.Config cfg) = String.list_byte_of_string key
      ∧ length (config.EncryptionKey (environ.Config cfg)) = 32%nat
  | inr environ.TokenNotSet => token = ""
  | inr environ.ChannelIDNotSet => token ≠ "" ∧ channelID = ""
  | inr (environ.KeyNot32Bytes got) =>
      token ≠ "" ∧ channelID ≠ "" ∧ got = String.length key ∧ got ≠ 32%nat
  end.
Proof.
  intros token channelID key. unfold environ.Load.
  fold token channelID key.
  case_decide as Htoken; [done|]. case_decide as Hchannel; [done|].
  case_decide as Hkey; [done|]. cbn.
  by rewrite length_list_byte_of_string.
Qed.

(** X8. With the configuration [Load] gives, a member of a server is
    permitted exactly when ALLOWED_USERS is unset or empty, or their id is
    one of its comma-separated entries once the white space around the
    entry is taken off. *)
Theorem permission_from_environment (env : gmap string string)
    (cfg : environ.Loaded) (i : gateway.InteractionCreate.t)
    (u : gateway.User.t) (p : Process) :
  environ.Load env = inl cfg →
  gateway.InteractionCreate.Member i = Some (gateway.Member.mk (Some u)) →
  ∃ permitted,
    commands.checkPermission (bot.mkBot (environ.Config cfg)) i p
    = (p, Continue permitted)
    ∧ (permitted = true ↔
       environ.Getenv env "ALLOWED_USERS" = ""
       ∨ ∃ entry,
           entry ∈ environ.strings_Split (environ.Getenv env "ALLOWED_USERS")
                     ","%char
           ∧ environ.strings_TrimSpace entry = gateway.User.ID u).
Proof.
  unfold environ.Load. intros Hload Hmember.
  case_decide; [done|]. case_decide; [done|]. case_decide; [done|].
  injection Hload as <-. unfold commands.checkPermission.
  cbn [bot.Config environ.Config config.AllowedUsers]. rewrite Hmember.
  cbn [gateway.Member.User deref].
  destruct (decide (environ.Getenv env "ALLOWED_USERS" ≠ "")) as [Hallowed|Hallowed].
  - rewrite decide_False.
    2:{ rewrite length_fmap. intros Hlen.
        by apply nil_length_inv, strings_Split_nonempty in Hlen. }
    eexists. split; [done|].
    rewrite range_AllowedUsers_elem_of, list_elem_of_fmap.
    split.
    + intros (entry & Heq & Hin). right. by exists entry.
    + intros [?|(entry & Hin & Heq)]; [done|]. by exists entry.
  - apply dec_stable in Hallowed. rewrite decide_True by done.
    eexists. split; [done|]. split; [by left|done].
Qed.

Lemma permission_from_environment_witness :
  ∃ permitted,
    commands.checkPermission (bot.mkBot demo_config)
      (demo_command demo_user "list" []) (demo_process demo_empty)
    = (demo_process demo_empty, Continue permitted)
    ∧ (permitted = true ↔
       environ.Getenv demo_env "ALLOWED_USERS" = ""
       ∨ ∃ entry,
           entry ∈ environ.strings_Split (environ.Getenv demo_env "ALLOWED_USERS")
                     ","%char
           ∧ environ.strings_TrimSpace entry = gateway.User.ID demo_user).
Proof.
  apply (permission_from_environment demo_env
           (environ.mkLoaded "token" demo_config)
           (demo_command demo_user "list" []) demo_user).
  - vm_compute. reflexivity.
  - reflexivity.
Defined.

Example demo_user_permitted :
  (commands.checkPermission (bot.mkBot demo_config)
     (demo_command demo_user "list" []) (demo_process demo_empty)).2
  = Continue true
  ∧ (commands.checkPermission (bot.mkBot demo_config)
       (demo_command demo_stranger "list" []) (demo_process demo_empty)).2
    = Continue false.
Proof. vm_compute. done. Qed.

End configuration.

Section dispatcher.

Import gateway commands.

Context (created_at : Z → Z) (b : bot.Bot).

Lemma range_AllowedUsers_false ids userID :
  userID ∉ ids → range_AllowedUsers ids userID = false.
Proof.
  intros Hnot. destruct (range_AllowedUsers ids userID) eqn:Hr; [|done].
  by apply range_AllowedUsers_elem_of in Hr.
Qed.

Lemma write_lines_in_range files p :
  Forall (λ f, - 2 ^ 63 ≤ database.FileMetadata.Size f < 2 ^ 63) files →
  ∃ lines,
    write_lines files p = (p, Continue lines)
    ∧ Forall2 (λ f line,
                 ∃ size, format.formatBytes (database.FileMetadata.Size f) = Some size
                         ∧ line = AssetsLine (database.FileMetadata.ID f)
                                    (database.FileMetadata.Name f) size)
              files lines.
Proof.
  induction 1 as [|f files Hf _ (lines & Hrun & Hlines)].
  - by exists [].
  - cbn [write_lines]. cbv [mbind G_bind mret G_ret].
    assert (∃ size, format.formatBytes (database.FileMetadata.Size f) = Some size)
      as [size Hsize].
    { by apply formatBytes_int64. }
    rewrite Hsize. cbn [deref]. cbv [mret G_ret]. rewrite Hrun.
    eexists. split; [done|]. constructor; [by exists size|done].
Qed.

End dispatcher.

(** X9. A member of the server whose id is not on a non-empty list of
    allowed users gets "Access Denied" whatever the command and its
    options: the attempt is logged, no handler runs, and the vault, its
    store and the channel are left as they were. *)
Theorem interactionCreate_stranger_denied (created_at : Z → Z) (b : bot.Bot)
    (i : gateway.InteractionCreate.t) (u : gateway.User.t) (p : Process) :
  gateway.InteractionCreate.Type' i = gateway.InteractionApplicationCommand →
  gateway.InteractionCreate.Member i = Some (gateway.Member.mk (Some u)) →
  config.AllowedUsers (bot.Config b) ≠ [] →
  gateway.User.ID u ∉ config.AllowedUsers (bot.Config b) →
  commands.interactionCreate created_at b i p
  = (mkProcess (vault p)
       (notices p
          ++ [LogBotCommand
                (gateway.ApplicationCommandInteractionData.Name
                   (gateway.InteractionCreate.Data i))
                (gateway.User.Username u);
              LogBotUnauthorized (gateway.User.Username u);
              RespondAccessDenied]),
     Returned).
Proof.
  intros Htype Hmember Hlist Hid. unfold commands.interactionCreate.
  destruct (decide (gateway.InteractionCreate.Type' i
                    ≠ gateway.InteractionApplicationCommand)) as [Hne|_];
    [by destruct Hne|].
  rewrite Hmember. unfold commands.checkPermission. rewrite Hmember.
  destruct (decide (length (config.AllowedUsers (bot.Config b)) = 0%nat))
    as [Hlen|_]; [by apply nil_length_inv in Hlen|].
  cbn [gateway.Member.User deref].
  cbv [mbind G_bind mret G_ret notice G_return]. cbv beta iota.
  cbn [gateway.Member.User deref]. cbv [mret G_ret]. cbv beta iota.
  cbn [vault notices].
  rewrite range_AllowedUsers_false by done. cbn [negb vault notices].
  by rewrite <- !app_assoc.
Qed.

Lemma interactionCreate_stranger_denied_witness :
  commands.interactionCreate (λ _, 0) (bot.mkBot demo_config)
    (demo_command demo_stranger "delete" [gateway.IntegerValue 1])
    (demo_process demo_one_file)
  = (mkProcess demo_one_file
       [LogBotCommand "delete" "eve"; LogBotUnauthorized "eve";
        RespondAccessDenied],
     Returned).
Proof.
  apply (interactionCreate_stranger_denied (λ _, 0) (bot.mkBot demo_config)
           (demo_command demo_stranger "delete" [gateway.IntegerValue 1])
           demo_stranger (demo_process demo_one_file)).
  - reflexivity.
  - reflexivity.
  - discriminate.
  - apply (bool_decide_unpack _). by vm_compute.
Defined.

(** X10. An interaction that is not an application command is dropped
    with nothing logged or sent.  An application command that comes
    without [Member], as one sent in a direct message does, makes the
    handler panic on [i.Member.User] before anything is logged and before
    the permission check, whoever sent it. *)
Theorem interactionCreate_without_member (created_at : Z → Z) (b : bot.Bot)
    (i : gateway.InteractionCreate.t) (p : Process) :
  (gateway.InteractionCreate.Type' i ≠ gateway.InteractionApplicationCommand →
   commands.interactionCreate created_at b i p = (p, Returned))
  ∧ (gateway.InteractionCreate.Type' i = gateway.InteractionApplicationCommand →
     gateway.InteractionCreate.Member i = None →
     commands.interactionCreate created_at b i p = (p, Panicked)).
Proof.
  unfold commands.interactionCreate. split.
  - intros Htype. by destruct (decide _).
  - intros Htype Hmember.
    destruct (decide (gateway.InteractionCreate.Type' i
                    ≠ gateway.InteractionApplicationCommand)) as [Hne|_];
    [by destruct Hne|].
    by rewrite Hmember.
Qed.

(** A permitted user's command from a direct message: [User] is set,
    [Member] is not. *)
Example command_in_direct_message :
  commands.interactionCreate (λ _, 0) (bot.mkBot demo_config)
    (gateway.InteractionCreate.mk gateway.InteractionApplicationCommand
       None (Some demo_user)
       (gateway.ApplicationCommandInteractionData.mk "list" [] ∅))
    (demo_process demo_one_file)
  = (demo_process demo_one_file, Panicked).
Proof. reflexivity. Qed.

(** X11. [handleList] never panics on sizes that are [int64]: it sends
    the heading and one line per file row, each row once.  When the query
    fails the error is dropped and the listing is that of an empty vault:
    the heading and "*Empty*". *)
Theorem handleList_listing (created_at : Z → Z) (b : bot.Bot) (p : Process) :
  Forall (λ f, - 2 ^ 63 ≤ database.FileMetadata.Size f < 2 ^ 63)
         (database.files (DB (vault p))) →
  ∃ p' rows lines,
    commands.handleList created_at b p = (p', Continue tt)
    ∧ same_tables (DB (vault p)) (DB (vault p'))
    ∧ notices p'
      = notices p
          ++ [RespondAssets
                (AssetsHeader
                   :: (if decide (rows = []) then [AssetsEmpty] else [])
                   ++ lines)]
    ∧ (if hd false (database.io_errors (DB (vault p))) then rows = []
       else rows ≡ₚ database.files (DB (vault p)))
    ∧ Forall2 (λ f line,
                 ∃ size, format.formatBytes (database.FileMetadata.Size f) = Some size
                         ∧ line = AssetsLine (database.FileMetadata.ID f)
                                    (database.FileMetadata.Name f) size)
              rows lines.
Proof.
  intros Hsizes. unfold commands.handleList.
  cbv [mbind G_bind lift db]. rewrite ListFiles_eq. cbv zeta.
  destruct (hd false _) eqn:Hio; cbv beta iota.
  - cbn [commands.write_lines]. cbv [mret G_ret notice]. cbn [vault notices].
    eexists _, [], []. split; [done|]. cbn [vault notices DB set_DB].
    split; [apply same_tables_set_io_errors|]. by repeat split.
  - match goal with
    | |- context [commands.write_lines ?fs ?q] =>
        destruct (write_lines_in_range fs q) as (lines & -> & Hlines)
    end.
    { eapply Forall_forall. intros f Hf.
      rewrite order_by_created_at_perm in Hf.
      rewrite Forall_forall in Hsizes. by apply Hsizes. }
    cbv [notice]. cbn [vault notices].
    eexists _, (listing.order_by_created_at created_at
                  (database.files (DB (vault p)))), lines.
    split; [done|]. cbn [vault notices DB set_DB].
    split; [apply same_tables_set_io_errors|].
    split; [by destruct (listing.order_by_created_at _ _)|].
    split; [apply order_by_created_at_perm|done].
Qed.

Lemma handleList_listing_witness :
  ∃ p' rows lines,
    commands.handleList (λ _, 0) demo_bot (demo_process demo_one_file)
    = (p', Continue tt)
    ∧ same_tables (DB demo_one_file) (DB (vault p'))
    ∧ notices p'
      = [RespondAssets
           (AssetsHeader
              :: (if decide (rows = []) then [AssetsEmpty] else [])
              ++ lines)]
    ∧ (if hd false (database.io_errors (DB demo_one_file)) then rows = []
       else rows ≡ₚ database.files (DB demo_one_file))
    ∧ Forall2 (λ f line,
                 ∃ size, format.formatBytes (database.FileMetadata.Size f) = Some size
                         ∧ line = AssetsLine (database.FileMetadata.ID f)
                                    (database.FileMetadata.Name f) size)
              rows lines.
Proof.
  apply (handleList_listing (λ _, 0) demo_bot (demo_process demo_one_file)).
  assert (database.files (DB (vault (demo_process demo_one_file)))
          = [database.FileMetadata.mk 1 "a.bin" 2 (Sum256 ["h"; "i"]%byte)])
    as -> by (vm_compute; reflexivity).
  apply Forall_singleton. cbn. lia.
Defined.

(** The store is down: the bot shows an empty vault. *)
Example handleList_store_down :
  let st := set_DB (database.set_io_errors [true] (DB demo_one_file)) demo_one_file in
  notices (commands.handleList (λ _, 0) demo_bot (demo_process st)).1
  = [RespondAssets [AssetsHeader; AssetsEmpty]].
Proof. vm_compute. reflexivity. Qed.

(** X12. [handleListFiles] answers 500 "Database error" when the query
    fails, and logs it; otherwise it answers 200 with the encoding of the
    file rows, each row once, as JSON.  It never changes a table. *)
Theorem handleListFiles_answer (created_at : Z → Z)
    (json_Encode : list database.FileMetadata.t → list byte)
    (s : server.Server) (p : Process) :
  w (vault p) = fresh_writer →
  let p' := (api.handleListFiles created_at json_Encode s p).1 in
  same_tables (DB (vault p)) (DB (vault p'))
  ∧ if hd false (database.io_errors (DB (vault p)))
    then StatusCode (w (vault p')) = StatusInternalServerError
         ∧ body (w (vault p'))
           = String.list_byte_of_string "Database error" ++ ["010"%byte]
         ∧ notices p' = notices p ++ [LogListFilesFailed ErrIO]
    else StatusCode (w (vault p')) = StatusOK
         ∧ header (w (vault p')) = [("Content-Type", "application/json")]
         ∧ notices p' = notices p
         ∧ ∃ rows, rows ≡ₚ database.files (DB (vault p))
                   ∧ body (w (vault p')) = json_Encode rows.
Proof.
  intros Hw p'. subst p'. unfold api.handleListFiles.
  cbv [mbind G_bind lift db]. rewrite ListFiles_eq. cbv zeta.
  destruct (hd false _) eqn:Hio; cbv beta iota.
  - cbv [notice http_Error WriteHeader Write mbind M_bind G_return].
    cbn [vault notices DB w set_DB set_w status header body fst].
    rewrite Hw. split; [apply same_tables_set_io_errors|done].
  - cbv [Header_Set Write].
    cbn [vault notices DB w set_DB set_w status header body fst].
    rewrite Hw. split; [apply same_tables_set_io_errors|].
    cbn. repeat split. eexists. split; [apply order_by_created_at_perm|done].
Qed.

Lemma handleListFiles_answer_witness :
  let p' := (api.handleListFiles (λ _, 0) (λ _, []) demo_server
               (demo_process demo_empty)).1 in
  same_tables (DB demo_empty) (DB (vault p'))
  ∧ if hd false (database.io_errors (DB demo_empty))
    then StatusCode (w (vault p')) = StatusInternalServerError
         ∧ body (w (vault p'))
           = String.list_byte_of_string "Database error" ++ ["010"%byte]
         ∧ notices p' = [LogListFilesFailed ErrIO]
    else StatusCode (w (vault p')) = StatusOK
         ∧ header (w (vault p')) = [("Content-Type", "application/json")]
         ∧ notices p' = []
         ∧ ∃ rows, rows ≡ₚ database.files (DB demo_empty)
                   ∧ body (w (vault p')) = [].
Proof.
  apply (handleListFiles_answer (λ _, 0) (λ _, []) demo_server
           (demo_process demo_empty)).
  reflexivity.
Defined.

Section bot_delete.

Import database.



End bot_delete.


(** The store is down for the whole command: nothing is deleted, and the
    bot still reports the purge complete. *)
Example bot_handleDelete_store_down :
  let st := set_DB (database.set_io_errors [true; true] (DB demo_three_chunks))
                   demo_three_chunks in
  let st' := (bot.handleDelete demo_bot 1 st).1 in
  last (replies st') = Some ReplyPurgeComplete
  ∧ database.files (DB st') = database.files (DB demo_three_chunks)
  ∧ discordgo.messages (Session st')
    = discordgo.messages (Session demo_three_chunks).
Proof. vm_compute. done. Qed.

Section bot_upload_fails.

Lemma http_Get_messages url d :
  discordgo.messages (discordgo.http_Get url d).1 = discordgo.messages d.
Proof.
  unfold discordgo.http_Get. rewrite call_eq. by destruct (hd false _).
Qed.

Lemma ChannelFileSend_Err_inv name blob d d' e :
  discordgo.ChannelFileSend name blob d = (d', Err e) →
  discordgo.messages d' = discordgo.messages d.
Proof.
  unfold discordgo.ChannelFileSend. rewrite call_eq.
  destruct (hd false _); [|done]. by intros [= <- _].
Qed.

Lemma SaveFile_Err_inv name size hash db db' id e :
  database.SaveFile name size hash db = (db', (id, Some e)) →
  id = 0 ∧ same_tables db db'.
Proof.
  rewrite SaveFile_eq. cbv zeta.
  destruct (hd false _); [|case_decide]; intros [= <- <- _];
    (split; [done|apply same_tables_set_io_errors]).
Qed.

End bot_upload_fails.

(** X14. A bot upload that does not end with "Object secured" writes
    nothing to the store.  When the fetch, the encryption or the send
    failed the channel is as it was too; when [SaveFile] failed the blob
    has already been sent and stays in the channel with no record of it. *)
Theorem bot_handleUpload_failure_writes_nothing (b : bot.Bot)
    (a : bot.Attachment) (st : State) :
  let st' := (bot.handleUpload b a st).1 in
  (∃ fileID, last (replies st') = Some (ReplyObjectSecured fileID))
  ∨ (last (replies st')
       ∈ [Some ReplyFetchFailed; Some ReplyEncryptionFailed;
          Some ReplyStorageFailed]
     ∧ same_tables (DB st) (DB st')
     ∧ discordgo.messages (Session st') = discordgo.messages (Session st))
  ∨ (last (replies st') = Some ReplyDatabaseError
     ∧ same_tables (DB st) (DB st')
     ∧ ∃ msgID,
         discordgo.messages (Session st) !! msgID = None
         ∧ is_Some (discordgo.messages (Session st') !! msgID)).
Proof.
  intros st'. subst st'. unfold bot.handleUpload, bot.followup.
  cbv [mbind M_bind mret M_ret session db crypto_Encrypt log_Printf respond go
       Return]. cbv beta.
  cbn [DB Session rand logs spawned replies w set_DB set_Session set_rand
       set_logs set_spawned set_replies set_w].
  pose proof (http_Get_messages (bot.URL a) (Session st)) as Hm1.
  destruct (discordgo.http_Get _ _) as [d1 [data|err]]; cbv beta iota;
    cbn [DB Session rand logs spawned replies w set_DB set_Session set_rand
         set_logs set_spawned set_replies set_w fst] in *.
  2:{ right. left. rewrite last_snoc. split; [left|]. split; [|done].
      apply same_tables_refl. }
  destruct (crypto.Encrypt _ _ _) as [rand' [encrypted|err]];
    cbv beta iota;
    cbn [DB Session rand logs spawned replies w set_DB set_Session set_rand
         set_logs set_spawned set_replies set_w fst].
  2:{ right. left. rewrite last_snoc. split; [right; left|]. split; [|done].
      apply same_tables_refl. }
  destruct (discordgo.ChannelFileSend _ _ _) as [d2 [msg|err]] eqn:Hsend;
    cbv beta iota;
    cbn [DB Session rand logs spawned replies w set_DB set_Session set_rand
         set_logs set_spawned set_replies set_w fst].
  2:{ right. left. rewrite last_snoc. split; [right; right; left|].
      split; [apply same_tables_refl|].
      by rewrite (ChannelFileSend_Err_inv _ _ _ _ _ Hsend). }
  destruct (database.SaveFile _ _ _ _) as [db1 [id [err|]]] eqn:Hsave;
    cbv beta iota;
    cbn [DB Session rand logs spawned replies w set_DB set_Session set_rand
         set_logs set_spawned set_replies set_w fst].
  - right. right. rewrite last_snoc. split; [done|].
    apply SaveFile_Err_inv in Hsave as [_ Hsame]. split; [done|].
    apply ChannelFileSend_Ok_inv in Hsend as (_ & Hm2 & _ & Hfresh).
    eexists. split; [by rewrite <- Hm1|].
    rewrite Hm2, lookup_insert_eq. by eexists.
  - destruct (database.SaveChunk _ _ _ _) as [db2 err2].
    cbn [DB Session rand logs spawned replies w set_DB set_Session set_rand
         set_logs set_spawned set_replies set_w fst].
    left. exists id. by rewrite last_snoc.
Qed.

(** The name is taken: the blob is sent and then left without a record. *)
Example bot_upload_name_taken :
  let st1 := (bot.handleUpload demo_bot demo_attachment demo_with_attachment).1 in
  let st2 := (bot.handleUpload demo_bot demo_attachment st1).1 in
  last (replies st2) = Some ReplyDatabaseError
  ∧ database.files (DB st2) = database.files (DB st1)
  ∧ database.chunks (DB st2) = database.chunks (DB st1)
  ∧ size (discordgo.messages (Session st1)) = 1%nat
  ∧ size (discordgo.messages (Session st2)) = 2%nat.
Proof. vm_compute. done. Qed.

(** X15. [handleDownload] tells a store failure from nothing.  When the
    query for the file row fails it answers 404 "Object not found", though
    the file may be there.  When that query succeeds and the query for the
    chunk rows fails, the error is dropped: the answer is 200 with the
    download headers and an empty body, and the remote service is not
    asked for anything. *)
Theorem handleDownload_store_failures (s : server.Server) (id : Z) (st : State) :
  let st' := serve (server.handleDownload s id) st in
  let tape := database.io_errors (DB st) in
  (hd false tape = true →
   StatusCode (w st') = StatusNotFound
   ∧ body (w st') = String.list_byte_of_string "Object not found" ++ ["010"%byte]
   ∧ Session st' = Session st)
  ∧ (hd false tape = false → hd false (tl tape) = true →
     ∀ f rest,
       filter (λ f, database.FileMetadata.ID f = id) (database.files (DB st))
       = f :: rest →
       StatusCode (w st') = StatusOK
       ∧ body (w st') = []
       ∧ header (w st')
         = [("Content-Disposition",
             "attachment; filename=" +:+ server.dquote
               +:+ database.FileMetadata.Name f +:+ server.dquote);
            ("Content-Type", "application/octet-stream")]
       ∧ Session st' = Session st).
Proof.
  intros st' tape. subst st' tape. unfold serve, server.handleDownload.
  cbv [mbind M_bind mret M_ret Header_Set log_Printf db http_Error WriteHeader
       Write Return]. cbv beta.
  change (DB (set_w fresh_writer st)) with (DB st).
  rewrite GetFile_eq. cbv zeta. split.
  - intros ->. by cbn.
  - intros -> Hnext f rest ->. cbv beta iota.
    cbn [DB Session rand logs spawned replies w set_DB set_Session set_rand
         set_logs set_spawned set_replies set_w status header body fst].
    rewrite GetChunks_eq. cbn [database.io_errors database.set_io_errors].
    rewrite Hnext. cbv beta iota zeta.
    cbn [server.download_chunks]. cbv [mret M_ret]. by cbn.
Qed.

(** The file is there and whole; the second query fails. *)
Example Get_with_chunk_query_down :
  let st := set_DB (database.set_io_errors [false; true] (DB demo_one_file))
                   demo_one_file in
  let st' := serve (server.handleDownload demo_server 1) st in
  StatusCode (w st') = StatusOK ∧ body (w st') = []
  ∧ last (logs st') = Some (LogDelivered "a.bin").
Proof. vm_compute. done. Qed.

Section many_parts.

Import server database.

Context (s : Server).

Local Abbreviation key := (config.EncryptionKey (Config s)).

Lemma upload_chunks_rand cs partNum v st :
  quiet (discordgo.outages (Session st)) →
  (crypto.NonceSize * length cs ≤ length (rand st))%nat →
  rand (upload_chunks s cs partNum v st).1
  = drop (crypto.NonceSize * length cs) (rand st).
Proof.
  revert partNum v st. induction cs as [|c cs IH]; intros partNum v st Hq Hrand.
  - cbn [upload_chunks fst length]. by rewrite Nat.mul_0_r.
  - cbn [length] in Hrand. cbn [upload_chunks].
    rewrite upload_chunk_eq, Encrypt_Ok by (unfold crypto.NonceSize in *; lia).
    rewrite ChannelFileSend_quiet by done.
    rewrite IH.
    + cbn [rand set_logs set_Session set_rand length]. rewrite drop_drop.
      f_equal. unfold crypto.NonceSize. lia.
    + cbn. by apply quiet_tl.
    + cbn [rand set_logs set_Session set_rand]. rewrite length_drop.
      unfold crypto.NonceSize in *. lia.
Qed.

Lemma parts_chunks_cons part parts :
  parts_chunks (part :: parts)
  = (if decide (multipart.FormName part = "file")
     then chunks_of bot.ChunkSize (multipart.content part) else [])
    ++ parts_chunks parts.
Proof.
  unfold parts_chunks, file_parts. rewrite filter_cons.
  by case_decide.
Qed.

Lemma parts_stream_cons part parts :
  parts_stream (part :: parts)
  = (if decide (multipart.FormName part = "file")
     then multipart.content part else [])
    ++ parts_stream parts.
Proof.
  unfold parts_stream, file_parts. rewrite filter_cons.
  by case_decide.
Qed.

Lemma concat_parts_chunks parts : concat (parts_chunks parts) = parts_stream parts.
Proof.
  induction parts as [|part parts IH]; [done|].
  rewrite parts_chunks_cons, parts_stream_cons, concat_app, IH.
  case_decide; [|done]. by rewrite concat_chunks_of.
Qed.

(** The outer loop on a healthy remote service: every buffer of every
    file part is stored under a new message id, in order, and the name kept
    is that of the last file part. *)
Lemma for_parts_ok parts v st :
  quiet (discordgo.outages (Session st)) →
  (crypto.NonceSize * length (parts_chunks parts) ≤ length (rand st))%nat →
  ∃ st' v' ids,
    for_parts s parts v st = (st', Some v')
    ∧ filename v'
      = default (filename v) (multipart.FileName <$> last (file_parts parts))
    ∧ messageIDs v' = messageIDs v ++ ids
    ∧ hasher v' = hasher v ++ parts_stream parts
    ∧ Forall2 (stored key (Session st')) ids (parts_chunks parts)
    ∧ (∀ id c, stored key (Session st) id c → stored key (Session st') id c)
    ∧ quiet (discordgo.outages (Session st'))
    ∧ DB st' = DB st ∧ w st' = w st.
Proof.
  revert v st. induction parts as [|part parts IH]; intros v st Hq Hrand.
  - exists st, v, []. cbn. rewrite !app_nil_r. by repeat split.
  - rewrite parts_chunks_cons in Hrand. rewrite parts_chunks_cons, parts_stream_cons.
    cbn [for_parts]. rewrite bind_eq. unfold file_parts. rewrite filter_cons.
    fold (file_parts parts). case_decide as Hfile.
    + rewrite bind_eq. unfold log_Printf at 1. cbv beta iota.
      rewrite read_loop_chunks_of. rewrite length_app in Hrand.
      set (cs := chunks_of bot.ChunkSize (multipart.content part)) in *.
      match goal with
      | |- context [upload_chunks s cs ?p ?v0 ?st0] =>
          pose proof (upload_chunks_rand cs p v0 st0) as Hr;
          destruct (upload_chunks_ok s cs p v0 st0) as
            (st1 & v1 & ids1 & Hrun & Hfn & Hids & Hhash & Hstored & Hkeep & Hq1
             & Hdb1 & Hw1 & _ & _)
      end; [done|cbn; unfold crypto.NonceSize in *; lia|].
      rewrite Hrun in Hr |- *. cbn [fst] in Hr.
      cbn [Session rand set_logs DB w filename messageIDs hasher] in *.
      destruct (IH v1 st1) as
        (st2 & v2 & ids2 & Hrun2 & Hfn2 & Hids2 & Hhash2 & Hstored2 & Hkeep2
         & Hq2 & Hdb2 & Hw2); [done| |].
      { rewrite Hr by (done || unfold crypto.NonceSize in *; lia).
        rewrite length_drop. unfold crypto.NonceSize in *. lia. }
      exists st2, v2, (ids1 ++ ids2). split; [done|].
      split.
      { rewrite Hfn2, Hfn, last_cons. by destruct (last (file_parts parts)). }
      split; [by rewrite Hids2, Hids, app_assoc|].
      split.
      { rewrite Hhash2, Hhash, <- app_assoc. f_equal.
        subst cs. by rewrite concat_chunks_of. }
      split.
      { apply Forall2_app; [|done].
        eapply Forall2_impl; [exact Hstored|]. intros id c. apply Hkeep2. }
      split; [by auto|]. split; [done|].
      split; [by rewrite Hdb2|by rewrite Hw2].
    + cbn [mret M_ret]. cbv [mret M_ret]. cbv beta iota.
      rewrite !app_nil_l in *. apply IH; done.
Qed.

(** X16. A form with several parts is stored as one file.  Parts not named
    "file" are skipped; the contents of the file parts are cut into chunks
    part by part and stored one after the other: the chunk rows added
    belong to the new file, carry the part numbers 1, 2, ..., n, and
    point, in that order, at the messages that hold the sealed chunks.  The
    file has the name of the last file part and the SHA-256 of the whole;
    a Get of the new id gives the whole back.  This on a system that fails
    nothing, for a name not taken, when at least one byte was sent. *)
Theorem Put_of_many_parts_then_Get (parts : list multipart.Part)
    (named : multipart.Part) (st : State) :
  last (file_parts parts) = Some named →
  parts_stream parts ≠ [] →
  quiet (io_errors (DB st)) →
  quiet (discordgo.outages (Session st)) →
  (crypto.NonceSize * length (parts_chunks parts) ≤ length (rand st))%nat →
  multipart.FileName named ∉ FileMetadata.Name <$> files (DB st) →
  referential (DB st) →
  let put := handleUpload s (mkRequest (Ok parts)) in
  let n := length (parts_chunks parts) in
  ∃ id size rows,
    StatusCode (w (serve put st)) = StatusOK
    ∧ files (DB (serve put st))
      = files (DB st)
          ++ [FileMetadata.mk id (multipart.FileName named) size
                (Sum256 (parts_stream parts))]
    ∧ chunks (DB (serve put st)) = chunks (DB st) ++ rows
    ∧ ChunkMetadata.FileID <$> rows = replicate n id
    ∧ ChunkMetadata.PartNum <$> rows = seqZ 1 (Z.of_nat n)
    ∧ Forall2 (stored key (Session (serve put st)))
              (ChunkMetadata.MessageID <$> rows) (parts_chunks parts)
    ∧ StatusCode (w (serve (handleDownload s id) (serve put st))) = StatusOK
    ∧ body (w (serve (handleDownload s id) (serve put st))) = parts_stream parts.
Proof.
  intros Hlast Hdata Hio Hout Hrand Hname Href put n. subst put n.
  set (id := next_rowid (files_seq (DB st)) (FileMetadata.ID <$> files (DB st))).
  destruct (for_parts_ok parts (mkUploadVars "" 0 [] []) (set_w fresh_writer st))
    as (st1 & v1 & ids & Hfor & Hfn & Hids & Hhash & Hstored & _ & Hout1 & Hdb1
        & Hw1); [done|done|].
  rewrite Hlast in Hfn. cbn in Hfn, Hids, Hhash, Hdb1, Hw1.
  pose proof (Forall2_length _ _ _ Hstored) as Hlen.
  assert (parts_chunks parts ≠ []) as Hne.
  { intros Hnil. apply Hdata. by rewrite <- concat_parts_chunks, Hnil. }
  destruct (persist_upload_quiet v1 st1) as
    (st2 & rows & Hpersist & Hfk2 & Hfiles2 & Hchunks2 & Hio2 & Hrf & Hrm & Hrp
     & Hsess2 & Hlogs2 & Hw2); [by rewrite Hdb1|by rewrite Hfn, Hdb1|].
  assert (serve (handleUpload s (mkRequest (Ok parts))) st = st2) as ->.
  { unfold serve. rewrite handleUpload_eq, Hfor.
    rewrite decide_False
      by (rewrite Hids, Hlen; by destruct (parts_chunks parts)).
    by rewrite Hpersist. }
  rewrite Hdb1, Hfn, Hhash in Hfiles2.
  rewrite Hdb1 in Hchunks2, Hfk2, Hrf. rewrite Hids, Hlen in Hrp, Hrf. subst ids.
  fold id in Hfiles2, Hrf.
  assert (Forall2 (stored key (Session st2)) (ChunkMetadata.MessageID <$> rows)
                  (parts_chunks parts)) as Hstored2
    by (by rewrite Hsess2, Hrm).
  destruct (handleDownload_run s id (set_w fresh_writer st2)
              (FileMetadata.mk id (multipart.FileName named)
                 (totalSize v1) (Sum256 (parts_stream parts)))
              rows (parts_chunks parts))
    as (st3 & Hrun3 & Hstatus3 & Hbody3); [done| | | | | |].
  { cbn [Session set_w]. by rewrite Hsess2. }
  { cbn [DB set_w]. rewrite Hfiles2.
    apply (filter_snoc_only FileMetadata.ID (files (DB st))
             (FileMetadata.mk id (multipart.FileName named)
                (totalSize v1) (Sum256 (parts_stream parts)))).
    apply next_rowid_not_in. }
  { cbn [DB set_w]. rewrite Hchunks2, filter_app.
    rewrite (filter_none _ (chunks (DB st))); last first.
    { intros r Hr Heq. apply Href in Hr. rewrite Heq in Hr.
      by apply next_rowid_not_in in Hr. }
    rewrite app_nil_l. apply filter_all, Forall_forall. intros r Hr.
    assert (ChunkMetadata.FileID r ∈ ChunkMetadata.FileID <$> rows) as Hin
      by by apply list_elem_of_fmap_2.
    rewrite Hrf in Hin. by apply elem_of_replicate in Hin as [-> _]. }
  { by eapply sorted_of_seqZ. }
  { cbn [Session set_w]. rewrite Forall2_fmap_l in Hstored2.
    eapply Forall2_impl; [exact Hstored2|]. done. }
  exists id, (totalSize v1), rows.
  assert (serve (handleDownload s id) st2 = st3) as ->
    by (unfold serve; by rewrite Hrun3).
  split; [by rewrite Hw2, Hw1|]. split; [done|].
  split; [done|]. split; [done|]. split; [done|]. split; [done|].
  split; [done|]. by rewrite Hbody3, concat_parts_chunks.
Qed.

End many_parts.

Lemma Put_of_many_parts_then_Get_witness :
  ∃ id size rows,
    StatusCode (w (serve (server.handleUpload demo_server
                            (server.mkRequest (Ok demo_form))) demo_empty))
    = StatusOK
    ∧ database.files
        (DB (serve (server.handleUpload demo_server
                      (server.mkRequest (Ok demo_form))) demo_empty))
      = database.files (DB demo_empty)
          ++ [database.FileMetadata.mk id "b.bin" size
                (Sum256 (parts_stream demo_form))]
    ∧ database.chunks
        (DB (serve (server.handleUpload demo_server
                      (server.mkRequest (Ok demo_form))) demo_empty))
      = database.chunks (DB demo_empty) ++ rows
    ∧ database.ChunkMetadata.FileID <$> rows
      = replicate (length (parts_chunks demo_form)) id
    ∧ database.ChunkMetadata.PartNum <$> rows
      = seqZ 1 (Z.of_nat (length (parts_chunks demo_form)))
    ∧ Forall2
        (stored (config.EncryptionKey (server.Config demo_server))
           (Session (serve (server.handleUpload demo_server
                              (server.mkRequest (Ok demo_form))) demo_empty)))
        (database.ChunkMetadata.MessageID <$> rows) (parts_chunks demo_form)
    ∧ StatusCode
        (w (serve (server.handleDownload demo_server id)
              (serve (server.handleUpload demo_server
                        (server.mkRequest (Ok demo_form))) demo_empty)))
      = StatusOK
    ∧ body
        (w (serve (server.handleDownload demo_server id)
              (serve (server.handleUpload demo_server
                        (server.mkRequest (Ok demo_form))) demo_empty)))
      = parts_stream demo_form.
Proof.
  apply (Put_of_many_parts_then_Get demo_server demo_form
           (multipart.mkPart "file" "b.bin" ["!"]%byte) demo_empty).
  - reflexivity.
  - discriminate.
  - constructor.
  - constructor.
  - vm_compute. lia.
  - cbn. apply not_elem_of_nil.
  - intros r Hr. cbn in Hr. by apply elem_of_nil in Hr.
Defined.

Example Put_of_demo_form :
  let st := serve (server.handleUpload demo_server
                     (server.mkRequest (Ok demo_form))) demo_empty in
  database.files (DB st)
  = [database.FileMetadata.mk 1 "b.bin" 3 (Sum256 ["h"; "i"; "!"]%byte)]
  ∧ database.ChunkMetadata.PartNum <$> database.chunks (DB st) = [1; 2]
  ∧ body (w (serve (server.handleDownload demo_server 1) st))
    = ["h"; "i"; "!"]%byte.
Proof. vm_compute. done. Qed.

Section rejected_chunk.

Import server database.

Context (s : Server).

Local Abbreviation key := (config.EncryptionKey (Config s)).

Lemma ChannelFileSend_up name blob d :
  hd false (discordgo.outages d) = false →
  let id := discordgo.snowflake d in
  let msg := discordgo.Message.mk id
               [discordgo.MessageAttachment.mk (discordgo.attachment_url id)
                  (Some name)] in
  discordgo.ChannelFileSend name blob d =
    (discordgo.mkSession (<[id := msg]> (discordgo.messages d))
       (discordgo.retired d)
       (<[discordgo.attachment_url id := blob]> (discordgo.cdn d))
       (tl (discordgo.outages d)),
     Ok msg).
Proof.
  intros Hup. unfold discordgo.ChannelFileSend. by rewrite call_eq, Hup.
Qed.

Lemma stored_after_send name nonce chunk d tape :
  length nonce = crypto.NonceSize →
  let id := discordgo.snowflake d in
  let d' := discordgo.mkSession
              (<[id := discordgo.Message.mk id
                         [discordgo.MessageAttachment.mk
                            (discordgo.attachment_url id) (Some name)]]>
                 (discordgo.messages d))
              (discordgo.retired d)
              (<[discordgo.attachment_url id := crypto.Seal key nonce chunk]>
                 (discordgo.cdn d))
              tape in
  stored key d' id chunk
  ∧ ∀ id' c, stored key d id' c → stored key d' id' c.
Proof.
  intros Hn id d'. split.
  - exists nonce, (Some name). split; [done|]. cbn.
    by rewrite !lookup_insert_eq.
  - intros id' c (nonce' & lbl & ? & Hm & Hc).
    assert (id ≠ id') as Hne.
    { intros <-. unfold id in Hm. by rewrite snowflake_fresh in Hm. }
    exists nonce', lbl. split; [done|]. cbn.
    rewrite !lookup_insert_ne; [done| |done].
    by intros ?%attachment_url_inj.
Qed.

(** The remote service takes every buffer of [cs]: the tape starts with
    as many successes. *)
Lemma upload_chunks_accepted cs partNum v st tape :
  discordgo.outages (Session st) = replicate (length cs) false ++ tape →
  (crypto.NonceSize * length cs ≤ length (rand st))%nat →
  ∃ st' v' ids,
    upload_chunks s cs partNum v st = (st', Some (v', partNum + Z.of_nat (length cs)))
    ∧ Forall2 (stored key (Session st')) ids cs
    ∧ Forall (λ id, discordgo.messages (Session st) !! id = None) ids
    ∧ (∀ id c, stored key (Session st) id c → stored key (Session st') id c)
    ∧ dom (discordgo.messages (Session st))
      ⊆ dom (discordgo.messages (Session st'))
    ∧ discordgo.outages (Session st') = tape
    ∧ rand st' = drop (crypto.NonceSize * length cs) (rand st)
    ∧ DB st' = DB st ∧ w st' = w st.
Proof.
  revert partNum v st. induction cs as [|c cs IH]; intros partNum v st Htape Hrand.
  - exists st, v, []. cbn [upload_chunks length]. rewrite Z.add_0_r, Nat.mul_0_r.
    repeat split; done.
  - cbn [length replicate] in Htape, Hrand. cbn [upload_chunks].
    rewrite upload_chunk_eq, Encrypt_Ok by (unfold crypto.NonceSize in *; lia).
    set (nonce := take crypto.NonceSize (rand st)).
    assert (length nonce = crypto.NonceSize) as Hn
      by (subst nonce; rewrite length_take; unfold crypto.NonceSize in *; lia).
    rewrite ChannelFileSend_up by (by rewrite Htape).
    pose proof (stored_after_send (Sum256 (crypto.Seal key nonce c)) nonce c
                  (Session st) (tl (discordgo.outages (Session st))) Hn)
      as [Hnew Hold].
    cbn [discordgo.Message.ID].
    match goal with
    | |- context [upload_chunks s cs ?p ?v1 ?st1] =>
        destruct (IH p v1 st1) as
          (st' & v' & ids & Hrun & Hstored & Hfresh & Hkeep & Hdom & Htape'
           & Hrand' & Hdb & Hw)
    end.
    { cbn. by rewrite Htape. }
    { cbn [rand set_logs set_Session set_rand]. rewrite length_drop.
      unfold crypto.NonceSize in *. lia. }
    cbn [Session rand DB w set_logs set_Session set_rand discordgo.messages]
      in Hstored, Hfresh, Hkeep, Hdom, Htape', Hrand', Hdb, Hw.
    exists st', v', (discordgo.snowflake (Session st) :: ids).
    rewrite Hrun.
    replace (partNum + Z.of_nat (length (c :: cs)))
      with (partNum + 1 + Z.of_nat (length cs)) by (cbn [length]; lia).
    split; [done|].
    split; [constructor; [by apply Hkeep|done]|].
    split.
    { constructor; [apply snowflake_fresh|].
      eapply Forall_impl; [exact Hfresh|]. intros id Hid.
      apply lookup_insert_None in Hid as [Hid _]. done. }
    split; [by auto|].
    split.
    { etrans; [|exact Hdom]. rewrite dom_insert. apply union_subseteq_r. }
    split; [done|].
    split.
    { rewrite Hrand', drop_drop. f_equal. cbn [length].
      unfold crypto.NonceSize. lia. }
    done.
Qed.

Lemma upload_chunks_app cs1 cs2 partNum v st :
  upload_chunks s (cs1 ++ cs2) partNum v st =
    match upload_chunks s cs1 partNum v st with
    | (st', Some (v', partNum')) => upload_chunks s cs2 partNum' v' st'
    | (st', None) => (st', None)
    end.
Proof.
  revert partNum v st. induction cs1 as [|c cs1 IH]; intros partNum v st; [done|].
  cbn [app upload_chunks].
  destruct (upload_chunk s c partNum v st) as [st1 [[v1 p1]|]]; [apply IH|done].
Qed.

(** The remote service turns the buffer down. *)
Lemma upload_chunk_rejected c partNum v st :
  hd false (discordgo.outages (Session st)) = true →
  (crypto.NonceSize ≤ length (rand st))%nat →
  ∃ st',
    upload_chunk s c partNum v st = (st', None)
    ∧ DB st' = DB st
    ∧ discordgo.messages (Session st') = discordgo.messages (Session st)
    ∧ discordgo.cdn (Session st') = discordgo.cdn (Session st)
    ∧ w st' = rejection (w st).
Proof.
  intros Hdown Hrand. rewrite upload_chunk_eq, Encrypt_Ok by done.
  unfold discordgo.ChannelFileSend. rewrite call_eq, Hdown.
  eexists. split; [done|].
  cbv [exec mbind M_bind log_Printf http_Error WriteHeader Write]. by cbn.
Qed.

Lemma stored_same_content key' d d' id c :
  discordgo.messages d' = discordgo.messages d →
  discordgo.cdn d' = discordgo.cdn d →
  stored key' d id c → stored key' d' id c.
Proof. intros Hm Hc. unfold stored. by rewrite Hm, Hc. Qed.

(** The outer loop when the remote service takes the buffers of
    [accepted] and turns the next one down. *)
Lemma for_parts_rejected parts v st accepted rejected rest tape :
  parts_chunks parts = accepted ++ rejected :: rest →
  discordgo.outages (Session st)
  = replicate (length accepted) false ++ true :: tape →
  (crypto.NonceSize * S (length accepted) ≤ length (rand st))%nat →
  ∃ st' ids,
    for_parts s parts v st = (st', None)
    ∧ DB st' = DB st
    ∧ w st' = rejection (w st)
    ∧ Forall2 (stored key (Session st')) ids accepted
    ∧ Forall (λ id, discordgo.messages (Session st) !! id = None) ids
    ∧ (∀ id c, stored key (Session st) id c → stored key (Session st') id c).
Proof.
  revert v st accepted. induction parts as [|part parts IH];
    intros v st accepted Hchunks Htape Hrand.
  { by destruct accepted. }
  rewrite parts_chunks_cons in Hchunks. cbn [for_parts]. rewrite bind_eq.
  case_decide as Hfile; last first.
  { cbv [mret M_ret]. cbv beta iota. by apply IH. }
  rewrite bind_eq. unfold log_Printf at 1. cbv beta iota.
  rewrite read_loop_chunks_of.
  set (cs := chunks_of bot.ChunkSize (multipart.content part)) in *.
  apply app_eq_app in Hchunks as [l [[Hcs Hrest]|[Hacc Hrest]]].
  - destruct l as [|r l].
    + (* the whole part is taken; the failure is in a later part *)
      rewrite app_nil_r in Hcs. cbn [app] in Hrest. subst accepted.
      match goal with
      | |- context [upload_chunks s cs ?p ?v0 ?st0] =>
          destruct (upload_chunks_accepted cs p v0 st0 (true :: tape)) as
            (st1 & v1 & ids1 & -> & Hstored & Hfresh & Hkeep & Hdom & Htape1
             & Hrand1 & Hdb1 & Hw1)
      end; [done|cbn; unfold crypto.NonceSize in *; lia|].
      cbn [Session rand DB w set_logs discordgo.messages] in *.
      destruct (IH v1 st1 [] (eq_sym Hrest)) as
        (st2 & ids2 & Hrun2 & Hdb2 & Hw2 & Hstored2 & _ & Hkeep2);
        [done| |].
      { rewrite Hrand1, length_drop. unfold crypto.NonceSize in *. cbn. lia. }
      apply Forall2_nil_inv_r in Hstored2 as ->.
      exists st2, ids1. split; [done|]. split; [by rewrite Hdb2|].
      split; [by rewrite Hw2, Hw1|]. split.
      { eapply Forall2_impl; [exact Hstored|]. intros id c. apply Hkeep2. }
      split; [done|]. by auto.
    + (* the failure is in this part *)
      cbn [app] in Hrest. injection Hrest as <- Hrest. rewrite Hcs.
      rewrite upload_chunks_app.
      match goal with
      | |- context [upload_chunks s accepted ?p ?v0 ?st0] =>
          destruct (upload_chunks_accepted accepted p v0 st0 (true :: tape)) as
            (st1 & v1 & ids1 & -> & Hstored & Hfresh & Hkeep & Hdom & Htape1
             & Hrand1 & Hdb1 & Hw1)
      end; [done|cbn; unfold crypto.NonceSize in *; lia|].
      cbn [Session rand DB w set_logs discordgo.messages] in *.
      cbn [upload_chunks].
      destruct (upload_chunk_rejected rejected
                  (1 + Z.of_nat (length accepted)) v1 st1) as
        (st2 & -> & Hdb2 & Hm2 & Hc2 & Hw2); [by rewrite Htape1| |].
      { rewrite Hrand1, length_drop. unfold crypto.NonceSize in *. lia. }
      exists st2, ids1. split; [done|]. split; [by rewrite Hdb2|].
      split; [by rewrite Hw2, Hw1|]. split.
      { eapply Forall2_impl; [exact Hstored|]. intros id c.
        by apply stored_same_content. }
      split; [done|]. intros id c Hst.
      eapply stored_same_content; [exact Hm2|exact Hc2|]. by apply Hkeep.
  - (* the whole part is taken, and more after it *)
    subst accepted. rewrite length_app, replicate_add, <- app_assoc in Htape.
    rewrite length_app in Hrand.
    match goal with
    | |- context [upload_chunks s cs ?p ?v0 ?st0] =>
        destruct (upload_chunks_accepted cs p v0 st0
                    (replicate (length l) false ++ true :: tape)) as
          (st1 & v1 & ids1 & -> & Hstored & Hfresh & Hkeep & Hdom & Htape1
           & Hrand1 & Hdb1 & Hw1)
    end; [done|cbn; unfold crypto.NonceSize in *; lia|].
    cbn [Session rand DB w set_logs discordgo.messages] in *.
    destruct (IH v1 st1 l Hrest) as
      (st2 & ids2 & Hrun2 & Hdb2 & Hw2 & Hstored2 & Hfresh2 & Hkeep2);
      [done| |].
    { rewrite Hrand1, length_drop. unfold crypto.NonceSize in *. lia. }
    exists st2, (ids1 ++ ids2). split; [done|]. split; [by rewrite Hdb2|].
    split; [by rewrite Hw2, Hw1|]. split.
    { apply Forall2_app; [|done].
      eapply Forall2_impl; [exact Hstored|]. intros id c. apply Hkeep2. }
    split; [|by auto].
    apply Forall_app. split; [done|].
    eapply Forall_impl; [exact Hfresh2|]. intros id Hid.
    apply not_elem_of_dom. intros Hin. apply Hdom in Hin.
    by apply not_elem_of_dom in Hid.
Qed.

(** X17. When the remote service turns a buffer down after taking the ones
    before it, the upload answers 500 and writes nothing to the store, and
    what it has sent stays: each buffer taken is still kept under its new
    message id, with no record of it anywhere. *)
Theorem handleUpload_rejected_chunk_leaves_blobs (parts : list multipart.Part)
    (accepted : list (list byte)) (rejected : list byte)
    (rest : list (list byte)) (tape : list bool) (st : State) :
  parts_chunks parts = accepted ++ rejected :: rest →
  discordgo.outages (Session st)
  = replicate (length accepted) false ++ true :: tape →
  (crypto.NonceSize * S (length accepted) ≤ length (rand st))%nat →
  let st' := serve (handleUpload s (mkRequest (Ok parts))) st in
  StatusCode (w st') = StatusInternalServerError
  ∧ body (w st')
    = String.list_byte_of_string "Decentralized storage rejection" ++ ["010"%byte]
  ∧ DB st' = DB st
  ∧ ∃ ids,
      Forall2 (stored key (Session st')) ids accepted
      ∧ Forall (λ id, discordgo.messages (Session st) !! id = None) ids.
Proof.
  intros Hchunks Htape Hrand st'. subst st'. unfold serve.
  rewrite handleUpload_eq.
  destruct (for_parts_rejected parts (mkUploadVars "" 0 [] [])
              (set_w fresh_writer st) accepted rejected rest tape)
    as (st1 & ids & -> & Hdb & Hw & Hstored & Hfresh & _); [done|done|done|].
  cbn [fst]. rewrite Hw. cbn in Hdb |- *.
  split; [done|]. split; [done|]. split; [done|]. by exists ids.
Qed.

End rejected_chunk.

Lemma handleUpload_rejected_chunk_leaves_blobs_witness :
  StatusCode (w (serve (server.handleUpload demo_server
                          (server.mkRequest (Ok demo_form))) demo_flaky))
  = StatusInternalServerError
  ∧ body (w (serve (server.handleUpload demo_server
                      (server.mkRequest (Ok demo_form))) demo_flaky))
    = String.list_byte_of_string "Decentralized storage rejection" ++ ["010"%byte]
  ∧ DB (serve (server.handleUpload demo_server
                 (server.mkRequest (Ok demo_form))) demo_flaky)
    = DB demo_flaky
  ∧ ∃ ids,
      Forall2 (stored (config.EncryptionKey (server.Config demo_server))
                 (Session (serve (server.handleUpload demo_server
                                    (server.mkRequest (Ok demo_form)))
                             demo_flaky)))
              ids [["h"; "i"]%byte]
      ∧ Forall (λ id, discordgo.messages (Session demo_flaky) !! id = None) ids.
Proof.
  apply (handleUpload_rejected_chunk_leaves_blobs demo_server demo_form
           [["h"; "i"]%byte] ["!"]%byte [] [] demo_flaky).
  - vm_compute. reflexivity.
  - reflexivity.
  - vm_compute. lia.
Defined.

(** The first file part of [demo_form] is sent, the second is turned
    down: one message stays in the channel and the store is empty. *)
Example Put_of_demo_form_rejected :
  let st := serve (server.handleUpload demo_server
                     (server.mkRequest (Ok demo_form))) demo_flaky in
  StatusCode (w st) = StatusInternalServerError
  ∧ database.files (DB st) = []
  ∧ dom (discordgo.messages (Session st)) = {["0"]}
  ∧ LogDiscordRejection 1 ErrIO ∈ logs st.
Proof. vm_compute. split; [done|]. split; [done|]. split; [done|]. set_solver. Qed.

Section atoi.

Import strconv.
Import Stdlib.Strings.Ascii.

Example Atoi_42 : Atoi "42" = (42, None).
Proof. reflexivity. Qed.

Example Atoi_minus_7 : Atoi "-7" = (-7, None).
Proof. reflexivity. Qed.

Example Atoi_plus : Atoi "+" = (0, Some ErrSyntax).
Proof. reflexivity. Qed.

Example Atoi_abc : Atoi "12abc" = (0, Some ErrSyntax).
Proof. reflexivity. Qed.

Example Atoi_underscore : Atoi "1_000" = (0, Some ErrSyntax).
Proof. reflexivity. Qed.

Example Atoi_max : Atoi "9223372036854775807" = (2 ^ 63 - 1, None).
Proof. vm_compute. reflexivity. Qed.

Example Atoi_too_large : Atoi "9223372036854775808" = (2 ^ 63 - 1, Some ErrRange).
Proof. vm_compute. reflexivity. Qed.

Example Atoi_min : Atoi "-9223372036854775808" = (- 2 ^ 63, None).
Proof. vm_compute. reflexivity. Qed.

Example Atoi_overflow_before_letter :
  Atoi "99999999999999999999999x" = (2 ^ 63 - 1, Some ErrRange).
Proof. vm_compute. reflexivity. Qed.

Lemma Atoi_syntax_zero s : (Atoi s).2 = Some ErrSyntax → (Atoi s).1 = 0.
Proof.
  unfold Atoi, ParseInt. destruct s as [|c rest]; [done|]. cbv zeta.
  destruct (ParseUint _) as [un [[]|]]; [done|..];
    repeat case_decide; try done; by destruct (bool_decide _).
Qed.

Lemma digit_range c d : digit c = Some d → 0 ≤ d ≤ 9.
Proof. unfold digit. cbv zeta. case_decide; [|done]. intros [= <-]. lia. Qed.

(** Eighteen digits fit 64 bits: on so short a string the loop meets a
    byte that is no digit before any overflow. *)
Lemma ParseUint_loop_syntax (s : string) (n : Z) (j : nat) :
  0 ≤ n < 10 ^ Z.of_nat j → (j + String.length s ≤ 18)%nat →
  (∃ c, c ∈ String.list_ascii_of_string s ∧ digit c = None) →
  ParseUint_loop s n = (0, Some ErrSyntax).
Proof.
  revert n j. induction s as [|c s IH]; intros n j Hn Hlen (c' & Hin & Hc').
  - cbn in Hin. by apply elem_of_nil in Hin.
  - cbn [ParseUint_loop]. destruct (digit c) as [d|] eqn:Hd; [|done].
    apply digit_range in Hd as Hd9.
    assert (c' ∈ String.list_ascii_of_string s) as Hin'.
    { cbn in Hin. apply elem_of_cons in Hin as [->|?]; [congruence|done]. }
    cbn [String.length] in Hlen.
    assert (10 ^ Z.of_nat (S j) ≤ 10 ^ 18) as Hpow
      by (apply Z.pow_le_mono_r; lia).
    rewrite Nat2Z.inj_succ, Z.pow_succ_r in Hpow by lia.
    rewrite decide_False by lia.
    apply (IH _ (S j)); [|lia|by exists c'].
    rewrite Nat2Z.inj_succ, Z.pow_succ_r by lia. lia.
Qed.

(** An id of at most eighteen bytes, sign apart, in which some byte is
    no digit: a syntax error. *)
Lemma Atoi_syntax_short (s : string) :
  (String.length s ≤ 18)%nat →
  (∃ c, c ∈ String.list_ascii_of_string s
        ∧ digit c = None ∧ c ≠ "+"%char ∧ c ≠ "-"%char) →
  Atoi s = (0, Some ErrSyntax).
Proof.
  intros Hlen (c' & Hin & Hc' & Hplus & Hminus).
  unfold Atoi, ParseInt. destruct s as [|c rest]; [done|]. cbv zeta.
  cbn [String.length] in Hlen.
  assert (ParseUint (if decide (c = "+"%char ∨ c = "-"%char)
                     then rest else String c rest) = (0, Some ErrSyntax)) as ->;
    [|done].
  unfold ParseUint. case_decide; [done|].
  apply (ParseUint_loop_syntax _ 0 0); [cbn; lia| |].
  - case_decide; cbn [String.length]; lia.
  - exists c'. split; [|done]. case_decide as Hsign; [|done].
    cbn in Hin. apply elem_of_cons in Hin as [->|?]; [|done].
    by destruct Hsign.
Qed.

Example Atoi_word : Atoi "one" = (0, Some ErrSyntax).
Proof. reflexivity. Qed.

End atoi.

Section unparsable.

Import database.

(** No file of a store with well-formed keys has id 0. *)
Lemma GetFile_zero db :
  well_keyed db →
  filter (λ f, FileMetadata.ID f = 0) (files db) = [].
Proof.
  intros (_ & _ & Hrange & _). apply filter_none. intros f Hf Hid.
  rewrite Forall_fmap, Forall_forall in Hrange. specialize (Hrange f Hf).
  cbn in Hrange. lia.
Qed.

End unparsable.

(** X18. An id in the URL on which [Atoi] reports a syntax error (the
    empty string, a word, digits followed by a letter) is served as id 0,
    the error of [Atoi] being dropped; by [Atoi_syntax_short] this is every
    id of at most eighteen bytes with a byte that is neither a digit nor a
    sign.  On a store that [Initialize] opened
    empty no file has that id, whatever was done to the store since, so the
    answer is 404 "Object not found"; nothing is asked of the remote
    service and no table changes.  (An id whose digits leave the range of
    [int64] is another case: [Atoi] reports a range error, also dropped,
    and the id served is the bound of the range, as in
    [Atoi_overflow_before_letter].) *)
Theorem handleDownload_unparsable_id (s : server.Server) (vars_id : string)
    (tape : list bool) (calls : list Call) (st : State) :
  (strconv.Atoi vars_id).2 = Some strconv.ErrSyntax →
  DB st = run_calls calls (database.Initialize (database.empty tape)) →
  let st' := serve (route.handleDownload s vars_id) st in
  StatusCode (w st') = StatusNotFound
  ∧ body (w st') = String.list_byte_of_string "Object not found" ++ ["010"%byte]
  ∧ Session st' = Session st
  ∧ same_tables (DB st) (DB st').
Proof.
  intros Hsyntax Hdb st'. subst st'. unfold route.handleDownload.
  pose proof (Atoi_syntax_zero _ Hsyntax) as Hzero.
  destruct (strconv.Atoi vars_id) as [id err]. cbn in Hzero. subst id.
  assert (well_keyed (DB st)) as Hkeys.
  { rewrite Hdb. apply run_calls_keys; [done|split; cbn; lia|].
    unfold well_keyed, referential. cbn.
    repeat split; try apply NoDup_nil_2; try apply Forall_nil_2.
    intros r Hr. by apply elem_of_nil in Hr. }
  unfold serve, server.handleDownload.
  cbv [mbind M_bind mret M_ret db http_Error WriteHeader Write Return]. cbv beta.
  change (DB (set_w fresh_writer st)) with (DB st).
  rewrite GetFile_eq, (GetFile_zero _ Hkeys). cbv zeta.
  destruct (hd false _); cbn; (repeat split; try done);
    apply same_tables_set_io_errors.
Qed.

Lemma handleDownload_unparsable_id_witness :
  StatusCode (w (serve (route.handleDownload demo_server "one") demo_one_file))
  = StatusNotFound
  ∧ body (w (serve (route.handleDownload demo_server "one") demo_one_file))
    = String.list_byte_of_string "Object not found" ++ ["010"%byte]
  ∧ Session (serve (route.handleDownload demo_server "one") demo_one_file)
    = Session demo_one_file
  ∧ same_tables (DB demo_one_file)
      (DB (serve (route.handleDownload demo_server "one") demo_one_file)).
Proof.
  apply (handleDownload_unparsable_id demo_server "one" []
           [CallSaveFile "a.bin" 2 (Sum256 ["h"; "i"]%byte);
            CallSaveChunk 1 "0" 1] demo_one_file).
  - reflexivity.
  - vm_compute. reflexivity.
Defined.



(** After [/delete 1] by a permitted member the vault is empty and the
    message of the chunk is gone. *)
Example permitted_delete_empties_vault :
  let p := (commands.interactionCreate (λ _, 0) (bot.mkBot demo_config)
              (demo_command demo_user "delete" [gateway.IntegerValue 1])
              (demo_process demo_one_file)).1 in
  database.files (DB (vault p)) = []
  ∧ database.chunks (DB (vault p)) = []
  ∧ discordgo.messages (Session (vault p)) = ∅.
Proof. vm_compute. done. Qed.

Section bot_then_web.

Import database.

Lemma http_Get_quiet url d :
  quiet (discordgo.outages d) →
  discordgo.http_Get url d
  = (discordgo.set_outages (tl (discordgo.outages d)) d,
     Ok (default [] (discordgo.cdn d !! url))).
Proof.
  intros Hq. unfold discordgo.http_Get. by rewrite call_eq, (quiet_hd _ Hq).
Qed.

(** A bot upload on a healthy system, step by step. *)
Lemma bot_handleUpload_run (b : bot.Bot) (a : bot.Attachment) (st : State) :
  quiet (io_errors (DB st)) →
  quiet (discordgo.outages (Session st)) →
  (crypto.NonceSize ≤ length (rand st))%nat →
  bot.Filename a ∉ FileMetadata.Name <$> files (DB st) →
  let data := default [] (discordgo.cdn (Session st) !! bot.URL a) in
  let id := next_rowid (files_seq (DB st)) (FileMetadata.ID <$> files (DB st)) in
  let d1 := discordgo.set_outages (tl (discordgo.outages (Session st)))
              (Session st) in
  let msgID := discordgo.snowflake d1 in
  ∃ st' rowid,
    bot.handleUpload b a st = (st', Some tt)
    ∧ last (replies st') = Some (ReplyObjectSecured id)
    ∧ files (DB st')
      = files (DB st)
          ++ [FileMetadata.mk id (bot.Filename a) (int64 (bot.Size a)) (Sum256 data)]
    ∧ chunks (DB st') = chunks (DB st) ++ [ChunkMetadata.mk rowid id msgID 1]
    ∧ quiet (io_errors (DB st'))
    ∧ quiet (discordgo.outages (Session st'))
    ∧ stored (config.EncryptionKey (bot.Config b)) (Session st') msgID data
    ∧ w st' = w st.
Proof.
  intros Hio Hout Hrand Hname data id d1 msgID.
  unfold bot.handleUpload, bot.followup.
  cbv [mbind M_bind mret M_ret session db crypto_Encrypt log_Printf respond go
       Return]. cbv beta.
  cbn [DB Session rand logs spawned replies w set_DB set_Session set_rand
       set_logs set_spawned set_replies set_w].
  rewrite http_Get_quiet by done. fold data d1. cbv beta iota.
  cbn [DB Session rand logs spawned replies w set_DB set_Session set_rand
       set_logs set_spawned set_replies set_w].
  rewrite Encrypt_Ok by done. cbv beta iota.
  cbn [DB Session rand logs spawned replies w set_DB set_Session set_rand
       set_logs set_spawned set_replies set_w].
  set (nonce := take crypto.NonceSize (rand st)).
  assert (length nonce = crypto.NonceSize) as Hn
    by (subst nonce; rewrite length_take; lia).
  assert (quiet (discordgo.outages d1)) as Hq1 by (by apply quiet_tl).
  pose proof (stored_ChannelFileSend (config.EncryptionKey (bot.Config b))
                (Sum256 (crypto.Seal (config.EncryptionKey (bot.Config b)) nonce data))
                nonce data d1 Hq1 Hn) as [Hnew _].
  rewrite ChannelFileSend_quiet in Hnew |- * by done. cbn [fst] in Hnew.
  fold msgID in Hnew |- *. cbv beta iota zeta.
  cbn [DB Session rand logs spawned replies w set_DB set_Session set_rand
       set_logs set_spawned set_replies set_w discordgo.Message.ID].
  rewrite SaveFile_eq, (quiet_hd _ Hio). cbv zeta.
  rewrite decide_False by done. fold id. cbv beta iota.
  cbn [DB Session rand logs spawned replies w set_DB set_Session set_rand
       set_logs set_spawned set_replies set_w].
  rewrite SaveChunk_eq. cbn [io_errors files foreign_keys chunks chunks_seq].
  rewrite (quiet_hd _ (quiet_tl _ Hio)). cbv zeta.
  rewrite (proj2 (andb_false_iff _ _)); last first.
  { right. apply bool_decide_eq_false. intros Hno. apply Hno.
    rewrite fmap_app. apply elem_of_app. right. left. }
  cbv beta iota.
  cbn [DB Session rand logs spawned replies w set_DB set_Session set_rand
       set_logs set_spawned set_replies set_w].
  eexists _, _. split; [reflexivity|].
  cbn [DB Session rand logs spawned replies w set_DB set_Session set_rand
       set_logs set_spawned set_replies set_w files chunks io_errors].
  split; [by rewrite last_snoc|]. split; [done|]. split; [done|].
  split; [by apply quiet_tl, quiet_tl|].
  split; [cbn; by apply quiet_tl|]. done.
Qed.

End bot_then_web.

(** X20. What the bot stored, the web server gives back.  On a system
    that fails nothing, for a name not taken, [/upload] replies "Object
    secured" with the new id, and a download of that id from a server
    configured with the same key answers 200 with exactly the bytes the
    bot read from the attachment. *)
Theorem bot_upload_then_Get (b : bot.Bot) (s : server.Server)
    (a : bot.Attachment) (st : State) :
  config.EncryptionKey (server.Config s) = config.EncryptionKey (bot.Config b) →
  quiet (database.io_errors (DB st)) →
  quiet (discordgo.outages (Session st)) →
  (crypto.NonceSize ≤ length (rand st))%nat →
  bot.Filename a ∉ database.FileMetadata.Name <$> database.files (DB st) →
  referential (DB st) →
  let st1 := (bot.handleUpload b a st).1 in
  let id := database.next_rowid (database.files_seq (DB st))
              (database.FileMetadata.ID <$> database.files (DB st)) in
  last (replies st1) = Some (ReplyObjectSecured id)
  ∧ StatusCode (w (serve (server.handleDownload s id) st1)) = StatusOK
  ∧ body (w (serve (server.handleDownload s id) st1))
    = default [] (discordgo.cdn (Session st) !! bot.URL a).
Proof.
  intros Hkey Hio Hout Hrand Hname Href st1 id. subst st1.
  destruct (bot_handleUpload_run b a st Hio Hout Hrand Hname) as
    (st1 & rowid & -> & Hlast & Hfiles & Hchunks & Hio1 & Hout1 & Hstored & _).
  cbn [fst]. fold id in Hlast, Hfiles, Hchunks. split; [done|].
  set (data := default [] (discordgo.cdn (Session st) !! bot.URL a)) in *.
  destruct (handleDownload_run s id (set_w fresh_writer st1)
              (database.FileMetadata.mk id (bot.Filename a) (int64 (bot.Size a))
                 (Sum256 data))
              [database.ChunkMetadata.mk rowid id
                 (discordgo.snowflake
                    (discordgo.set_outages (tl (discordgo.outages (Session st)))
                       (Session st))) 1]
              [data])
    as (st2 & Hrun2 & Hstatus2 & Hbody2); [done|done| | | | |].
  { cbn [DB set_w]. rewrite Hfiles.
    apply (filter_snoc_only database.FileMetadata.ID (database.files (DB st))
             (database.FileMetadata.mk id (bot.Filename a) (int64 (bot.Size a))
                (Sum256 data))).
    apply next_rowid_not_in. }
  { cbn [DB set_w]. rewrite Hchunks, filter_app.
    rewrite (filter_none _ (database.chunks (DB st))); last first.
    { intros r Hr Heq. apply Href in Hr. rewrite Heq in Hr.
      by apply next_rowid_not_in in Hr. }
    by rewrite app_nil_l, filter_cons, decide_True. }
  { repeat constructor. }
  { constructor; [|constructor]. cbn [Session set_w database.ChunkMetadata.MessageID].
    by rewrite Hkey. }
  unfold serve. rewrite Hrun2. cbn [fst].
  split; [done|]. rewrite Hbody2. cbn. by rewrite app_nil_r.
Qed.

Lemma bot_upload_then_Get_witness :
  last (replies (bot.handleUpload demo_bot demo_attachment demo_with_attachment).1)
  = Some (ReplyObjectSecured
            (database.next_rowid (database.files_seq (DB demo_with_attachment))
               (database.FileMetadata.ID
                  <$> database.files (DB demo_with_attachment))))
  ∧ StatusCode
      (w (serve (server.handleDownload demo_server
                   (database.next_rowid
                      (database.files_seq (DB demo_with_attachment))
                      (database.FileMetadata.ID
                         <$> database.files (DB demo_with_attachment))))
            (bot.handleUpload demo_bot demo_attachment demo_with_attachment).1))
    = StatusOK
  ∧ body
      (w (serve (server.handleDownload demo_server
                   (database.next_rowid
                      (database.files_seq (DB demo_with_attachment))
                      (database.FileMetadata.ID
                         <$> database.files (DB demo_with_attachment))))
            (bot.handleUpload demo_bot demo_attachment demo_with_attachment).1))
    = default [] (discordgo.cdn (Session demo_with_attachment)
                    !! bot.URL demo_attachment).
Proof.
  apply (bot_upload_then_Get demo_bot demo_server demo_attachment
           demo_with_attachment).
  - reflexivity.
  - constructor.
  - constructor.
  - vm_compute. lia.
  - cbn. apply not_elem_of_nil.
  - intros r Hr. cbn in Hr. by apply elem_of_nil in Hr.
Defined.

(** The five bytes of the attachment come back, though the row says 99. *)
Example bot_upload_then_Get_hello :
  let st := (bot.handleUpload demo_bot demo_attachment demo_with_attachment).1 in
  body (w (serve (server.handleDownload demo_server 1) st))
  = ["h"; "e"; "l"; "l"; "o"]%byte.
Proof. vm_compute. reflexivity. Qed.

Section byte_count.

Import server database.

Context (s : Server).

Lemma int64_mod x : int64 x `mod` 2 ^ 64 = x `mod` 2 ^ 64.
Proof.
  unfold int64.
  rewrite <- Zminus_mod_idemp_l, Z.mod_mod by lia.
  rewrite Zminus_mod_idemp_l. f_equal. lia.
Qed.

Lemma int64_congr x y : x `mod` 2 ^ 64 = y `mod` 2 ^ 64 → int64 x = int64 y.
Proof.
  intros Heq. unfold int64. f_equal.
  rewrite <- (Zplus_mod_idemp_l x), <- (Zplus_mod_idemp_l y). by rewrite Heq.
Qed.

Lemma int64_add_int64 x y : int64 (x + int64 y) = int64 (x + y).
Proof.
  apply int64_congr.
  rewrite <- Zplus_mod_idemp_r, int64_mod, Zplus_mod_idemp_r. done.
Qed.

Lemma int64_int64_add x y : int64 (int64 x + y) = int64 (x + y).
Proof.
  apply int64_congr.
  rewrite <- Zplus_mod_idemp_l, int64_mod, Zplus_mod_idemp_l. done.
Qed.

Lemma int64_small x : - 2 ^ 63 ≤ x < 2 ^ 63 → int64 x = x.
Proof. intros Hx. unfold int64. rewrite Z.mod_small; lia. Qed.

Lemma int64_idemp x : int64 (int64 x) = int64 x.
Proof. apply int64_congr, int64_mod. Qed.

(** [totalSize += int64(n)] along the buffers. *)
Local Abbreviation add_sizes :=
  (foldl (λ (t : Z) (c : list byte), int64 (t + int64 (Z.of_nat (length c))))).

Lemma add_sizes_sum (t : Z) (cs : list (list byte)) :
  int64 (add_sizes t cs) = int64 (t + Z.of_nat (length (concat cs))).
Proof.
  revert t. induction cs as [|c cs IH]; intros t.
  - cbn. by rewrite Z.add_0_r.
  - cbn [foldl]. rewrite IH, int64_int64_add.
    replace (t + int64 (Z.of_nat (length c)) + Z.of_nat (length (concat cs)))
      with (t + Z.of_nat (length (concat cs)) + int64 (Z.of_nat (length c)))
      by lia.
    rewrite int64_add_int64. cbn [concat]. rewrite length_app. f_equal. lia.
Qed.

Lemma add_sizes_wrapped (t : Z) (cs : list (list byte)) :
  int64 t = t → int64 (add_sizes t cs) = add_sizes t cs.
Proof.
  revert t. induction cs as [|c cs IH]; intros t Ht; [done|].
  cbn [foldl]. apply IH, int64_idemp.
Qed.

Lemma upload_chunks_totalSize cs partNum v st st' v' partNum' :
  upload_chunks s cs partNum v st = (st', Some (v', partNum')) →
  totalSize v' = add_sizes (totalSize v) cs.
Proof.
  revert partNum v st. induction cs as [|c cs IH]; intros partNum v st.
  - cbn. by intros [= <- <- <-].
  - cbn [upload_chunks foldl]. rewrite upload_chunk_eq.
    destruct (crypto.Encrypt _ _ _) as [rand' [encrypted|err]]; [|done].
    destruct (discordgo.ChannelFileSend _ _ _) as [d [msg|err]]; [|done].
    by intros ->%IH.
Qed.

Lemma for_parts_totalSize parts v st st' v' :
  for_parts s parts v st = (st', Some v') →
  totalSize v' = add_sizes (totalSize v) (parts_chunks parts).
Proof.
  revert v st. induction parts as [|part parts IH]; intros v st.
  - cbn. by intros [= <- <-].
  - rewrite parts_chunks_cons. cbn [for_parts]. rewrite bind_eq.
    case_decide as Hfile.
    + rewrite bind_eq. unfold log_Printf at 1. cbv beta iota.
      rewrite read_loop_chunks_of.
      destruct (upload_chunks _ _ _ _ _) as [st1 [[v1 p1]|]] eqn:Hup; [|done].
      apply upload_chunks_totalSize in Hup. cbn [totalSize] in Hup.
      intros ->%IH. by rewrite foldl_app, Hup.
    + cbv [mret M_ret]. cbv beta iota. apply IH.
Qed.

(** X21. The size a web upload records is the number of bytes it stored:
    on a system that fails nothing, for a name not taken, the file row
    written for a form holds the length of the contents of its file parts
    taken together (below [2 ^ 63]), and there is one chunk row for each
    buffer read. *)
Theorem Put_records_byte_count (parts : list multipart.Part)
    (named : multipart.Part) (st : State) :
  last (file_parts parts) = Some named →
  parts_stream parts ≠ [] →
  Z.of_nat (length (parts_stream parts)) < 2 ^ 63 →
  quiet (io_errors (DB st)) →
  quiet (discordgo.outages (Session st)) →
  (crypto.NonceSize * length (parts_chunks parts) ≤ length (rand st))%nat →
  multipart.FileName named ∉ FileMetadata.Name <$> files (DB st) →
  referential (DB st) →
  let st' := serve (handleUpload s (mkRequest (Ok parts))) st in
  let id := next_rowid (files_seq (DB st)) (FileMetadata.ID <$> files (DB st)) in
  files (DB st')
  = files (DB st)
      ++ [FileMetadata.mk id (multipart.FileName named)
            (Z.of_nat (length (parts_stream parts)))
            (Sum256 (parts_stream parts))]
  ∧ length (filter (λ c, ChunkMetadata.FileID c = id) (chunks (DB st')))
    = length (parts_chunks parts).
Proof.
  intros Hlast Hdata Hsmall Hio Hout Hrand Hname Href st' id. subst st'.
  destruct (for_parts_ok s parts (mkUploadVars "" 0 [] []) (set_w fresh_writer st))
    as (st1 & v1 & ids & Hfor & Hfn & Hids & Hhash & Hstored & _ & Hout1 & Hdb1
        & Hw1); [done|done|].
  pose proof (for_parts_totalSize _ _ _ _ _ Hfor) as Hsize.
  rewrite Hlast in Hfn. cbn in Hfn, Hids, Hhash, Hdb1, Hw1, Hsize.
  pose proof (Forall2_length _ _ _ Hstored) as Hlen.
  assert (parts_chunks parts ≠ []) as Hne.
  { intros Hnil. apply Hdata. by rewrite <- concat_parts_chunks, Hnil. }
  assert (totalSize v1 = Z.of_nat (length (parts_stream parts))) as Htotal.
  { rewrite Hsize, <- add_sizes_wrapped, add_sizes_sum by done.
    rewrite concat_parts_chunks. apply int64_small. lia. }
  destruct (persist_upload_quiet v1 st1) as
    (st2 & rows & Hpersist & Hfk2 & Hfiles2 & Hchunks2 & Hio2 & Hrf & Hrm & Hrp
     & _); [by rewrite Hdb1|by rewrite Hfn, Hdb1|].
  assert (serve (handleUpload s (mkRequest (Ok parts))) st = st2) as ->.
  { unfold serve. rewrite handleUpload_eq, Hfor.
    rewrite decide_False
      by (rewrite Hids, Hlen; by destruct (parts_chunks parts)).
    by rewrite Hpersist. }
  rewrite Hdb1, Hfn, Hhash, Htotal in Hfiles2. rewrite Hdb1 in Hchunks2, Hrf.
  fold id in Hfiles2, Hrf. split; [done|].
  rewrite Hchunks2, filter_app, length_app.
  rewrite (filter_none _ (chunks (DB st))); last first.
  { intros r Hr Heq. apply Href in Hr. rewrite Heq in Hr.
    by apply next_rowid_not_in in Hr. }
  rewrite filter_all.
  - apply (f_equal length) in Hrf.
    rewrite length_fmap, length_replicate, Hids in Hrf. cbn [length].
    by rewrite Hrf, Hlen.
  - apply Forall_forall. intros r Hr.
    assert (ChunkMetadata.FileID r ∈ ChunkMetadata.FileID <$> rows) as Hin
      by by apply list_elem_of_fmap_2.
    rewrite Hrf in Hin. by apply elem_of_replicate in Hin as [-> _].
Qed.

End byte_count.

Lemma Put_records_byte_count_witness :
  database.files
    (DB (serve (server.handleUpload demo_server (server.mkRequest (Ok demo_form)))
           demo_empty))
  = database.files (DB demo_empty)
      ++ [database.FileMetadata.mk
            (database.next_rowid (database.files_seq (DB demo_empty))
               (database.FileMetadata.ID <$> database.files (DB demo_empty)))
            "b.bin" (Z.of_nat (length (parts_stream demo_form)))
            (Sum256 (parts_stream demo_form))]
  ∧ length
      (filter (λ c, database.ChunkMetadata.FileID c
                    = database.next_rowid (database.files_seq (DB demo_empty))
                        (database.FileMetadata.ID
                           <$> database.files (DB demo_empty)))
         (database.chunks
            (DB (serve (server.handleUpload demo_server
                          (server.mkRequest (Ok demo_form))) demo_empty))))
    = length (parts_chunks demo_form).
Proof.
  apply (Put_records_byte_count demo_server demo_form
           (multipart.mkPart "file" "b.bin" ["!"]%byte) demo_empty).
  - reflexivity.
  - discriminate.
  - vm_compute. reflexivity.
  - constructor.
  - constructor.
  - vm_compute. lia.
  - cbn. apply not_elem_of_nil.
  - intros r Hr. cbn in Hr. by apply elem_of_nil in Hr.
Defined.
